(** * The "never have I ever" party-game server (server.js)

    A shallow embedding of the game-session state machine of [server.js]:
    the three registries ([lobbies], [gameStates], [disconnectedPlayers]),
    the socket handlers, the HTTP routes, the game-logic functions and the
    timers that drive them.

    Conventions of the embedding.
    - JS objects used as dictionaries ([initialVotes], [guesses], [scores])
      and the [Map] registries keyed by lobby code are [gmap]s.  User names
      are taken not to collide with the property names of [Object.prototype].
    - Every value a client sends (user name, lobby code, vote, confession,
      guess) is a string; [null]/[undefined] is [None].
    - [GameState] objects are shared with the closures of [setInterval] and
      [setTimeout]; they live in a [heap] and [gameStates] maps a code to a
      reference, so that a closure keeps the object it captured.
    - [setTimeout]/[setInterval] handles are indices into two timer tables;
      a cleared or fired entry becomes [None].
    - What [io.to(code).emit] and [socket.emit] send is appended to
      [emitted]; room membership is left to the transport. *)

From stdpp Require Import gmap strings list fin_maps.

Open Scope Z_scope.

#[local] Set Warnings "-clear-no-such-hyp".

(** ** Data model *)

(** A score is a JS number: [undefined + 1] is [NaN]. *)
Inductive jsnum := Num (z : Z) | NaN.

Record Participant := mkParticipant {
  username : string;
  isHost : bool;
  connected : bool
}.

Record Lobby := mkLobby {
  code : string;
  host : string;
  participants : list Participant;
  createdAt : Z;
  gameStarted : bool
}.

Record GameState := mkGameState {
  phase : string;
  roundNumber : Z;
  totalRounds : Z;
  currentTopic : option string;
  initialVotes : gmap string string;
  selectedPlayer : option string;
  playerInitialVote : option string;
  confession : option string;
  guesses : gmap string string;
  scores : gmap string jsnum;
  usedTopics : list Z;
  timer : Z;
  timerInterval : option nat
}.

(** Field updates of a [GameState] object. *)
Definition set_phase (v : string) (g : GameState) : GameState :=
  mkGameState v (roundNumber g) (totalRounds g) (currentTopic g) (initialVotes g)
    (selectedPlayer g) (playerInitialVote g) (confession g) (guesses g) (scores g)
    (usedTopics g) (timer g) (timerInterval g).
Definition set_roundNumber (v : Z) (g : GameState) : GameState :=
  mkGameState (phase g) v (totalRounds g) (currentTopic g) (initialVotes g)
    (selectedPlayer g) (playerInitialVote g) (confession g) (guesses g) (scores g)
    (usedTopics g) (timer g) (timerInterval g).
Definition set_currentTopic (v : option string) (g : GameState) : GameState :=
  mkGameState (phase g) (roundNumber g) (totalRounds g) v (initialVotes g)
    (selectedPlayer g) (playerInitialVote g) (confession g) (guesses g) (scores g)
    (usedTopics g) (timer g) (timerInterval g).
Definition set_initialVotes (v : gmap string string) (g : GameState) : GameState :=
  mkGameState (phase g) (roundNumber g) (totalRounds g) (currentTopic g) v
    (selectedPlayer g) (playerInitialVote g) (confession g) (guesses g) (scores g)
    (usedTopics g) (timer g) (timerInterval g).
Definition set_selectedPlayer (v : option string) (g : GameState) : GameState :=
  mkGameState (phase g) (roundNumber g) (totalRounds g) (currentTopic g) (initialVotes g)
    v (playerInitialVote g) (confession g) (guesses g) (scores g)
    (usedTopics g) (timer g) (timerInterval g).
Definition set_playerInitialVote (v : option string) (g : GameState) : GameState :=
  mkGameState (phase g) (roundNumber g) (totalRounds g) (currentTopic g) (initialVotes g)
    (selectedPlayer g) v (confession g) (guesses g) (scores g)
    (usedTopics g) (timer g) (timerInterval g).
Definition set_confession (v : option string) (g : GameState) : GameState :=
  mkGameState (phase g) (roundNumber g) (totalRounds g) (currentTopic g) (initialVotes g)
    (selectedPlayer g) (playerInitialVote g) v (guesses g) (scores g)
    (usedTopics g) (timer g) (timerInterval g).
Definition set_guesses (v : gmap string string) (g : GameState) : GameState :=
  mkGameState (phase g) (roundNumber g) (totalRounds g) (currentTopic g) (initialVotes g)
    (selectedPlayer g) (playerInitialVote g) (confession g) v (scores g)
    (usedTopics g) (timer g) (timerInterval g).
Definition set_scores (v : gmap string jsnum) (g : GameState) : GameState :=
  mkGameState (phase g) (roundNumber g) (totalRounds g) (currentTopic g) (initialVotes g)
    (selectedPlayer g) (playerInitialVote g) (confession g) (guesses g) v
    (usedTopics g) (timer g) (timerInterval g).
Definition set_usedTopics (v : list Z) (g : GameState) : GameState :=
  mkGameState (phase g) (roundNumber g) (totalRounds g) (currentTopic g) (initialVotes g)
    (selectedPlayer g) (playerInitialVote g) (confession g) (guesses g) (scores g)
    v (timer g) (timerInterval g).
Definition set_timer (v : Z) (g : GameState) : GameState :=
  mkGameState (phase g) (roundNumber g) (totalRounds g) (currentTopic g) (initialVotes g)
    (selectedPlayer g) (playerInitialVote g) (confession g) (guesses g) (scores g)
    (usedTopics g) v (timerInterval g).
Definition set_timerInterval (v : option nat) (g : GameState) : GameState :=
  mkGameState (phase g) (roundNumber g) (totalRounds g) (currentTopic g) (initialVotes g)
    (selectedPlayer g) (playerInitialVote g) (confession g) (guesses g) (scores g)
    (usedTopics g) (timer g) v.

(** An entry of [disconnectedPlayers]: [{ code, timestamp }]. *)
Record Tracked := mkTracked {
  t_code : string;
  t_timestamp : Z
}.

(** The two properties the handlers store on a socket. *)
Record Socket := mkSocket {
  sock_username : option string;
  sock_lobbyCode : option string
}.

(** ** Closures

    The function a [setTimeout] call schedules.  Each constructor names
    the call site; [CbScoreboardNext] is the inner callback of
    [showScoreboard], which keeps the [gameState] object it closed over. *)
Inductive TimeoutCb :=
| CbSync (socketId : nat) (c : string)
| CbStartInitialVoting (c : string)
| CbCalcInitial (c : string)
| CbSelectRandomPlayer (c : string)
| CbStartConfession (c : string)
| CbStartGuessing (c : string)
| CbCalcConfession (c : string)
| CbShowScoreboard (c : string)
| CbScoreboardNext (c : string) (gsRef : nat).

(** The [callback] argument of [startTimer]. *)
Inductive TimerCb :=
| TcCalcInitial (c : string)
| TcConfessionTimeout (c : string) (gsRef : nat)
| TcCalcConfession (c : string).

(** The body of a [setInterval]: the countdown of [startTimer], closed
    over [code], the [gameState] object and [callback], or the clean-up of
    old disconnected players installed when the server starts. *)
Inductive IntervalBody :=
| Countdown (c : string) (gsRef : nat) (callback : TimerCb)
| Sweep.

Record Interval := mkInterval {
  iv_due : Z;
  iv_period : Z;
  iv_body : IntervalBody
}.

(** ** Outbound messages *)
Inductive Msg :=
| LobbyUpdated (l : Lobby)
| LobbyClosed
| GameStarted (l : Lobby) (g : GameState)
| TopicSelected (topic : string)
| GamePhaseUpdate (ph : string) (* [roundNumber]/[selectedPlayer] extras left out *)
| InitialVoteResults (yes no : Z) (majorityVote : option string) (topic : option string)
| PlayerSelected (player : string) (playerVote : option string)
| ConfessionResults (honest lied : Z) (actualConfession : string) (player : option string)
| ScoreboardUpdate (sc : gmap string jsnum)
| GameEnded (finalScores : gmap string jsnum)
| GameTimer (timeRemaining : Z)
| SyncGameState (g : GameState) (l : Lobby) (userVote : option string).

Inductive Dest := ToRoom (c : string) | ToSocket (socketId : nat).

(** ** The server state *)
Record World := mkWorld {
  lobbies : gmap string Lobby;
  gameStates : gmap string nat;
  heap : list GameState;
  disconnectedPlayers : list (string * Tracked);
  sockets : gmap nat Socket;
  timeouts : list (option (Z * TimeoutCb));
  intervals : list (option Interval);
  now : Z;
  emitted : list (Dest * Msg)
}.

Definition set_lobbies (v : gmap string Lobby) (w : World) : World :=
  mkWorld v (gameStates w) (heap w) (disconnectedPlayers w) (sockets w)
    (timeouts w) (intervals w) (now w) (emitted w).
Definition set_gameStates (v : gmap string nat) (w : World) : World :=
  mkWorld (lobbies w) v (heap w) (disconnectedPlayers w) (sockets w)
    (timeouts w) (intervals w) (now w) (emitted w).
Definition set_heap (v : list GameState) (w : World) : World :=
  mkWorld (lobbies w) (gameStates w) v (disconnectedPlayers w) (sockets w)
    (timeouts w) (intervals w) (now w) (emitted w).
Definition set_disconnectedPlayers (v : list (string * Tracked)) (w : World) : World :=
  mkWorld (lobbies w) (gameStates w) (heap w) v (sockets w)
    (timeouts w) (intervals w) (now w) (emitted w).
Definition set_sockets (v : gmap nat Socket) (w : World) : World :=
  mkWorld (lobbies w) (gameStates w) (heap w) (disconnectedPlayers w) v
    (timeouts w) (intervals w) (now w) (emitted w).
Definition set_timeouts (v : list (option (Z * TimeoutCb))) (w : World) : World :=
  mkWorld (lobbies w) (gameStates w) (heap w) (disconnectedPlayers w) (sockets w)
    v (intervals w) (now w) (emitted w).
Definition set_intervals (v : list (option Interval)) (w : World) : World :=
  mkWorld (lobbies w) (gameStates w) (heap w) (disconnectedPlayers w) (sockets w)
    (timeouts w) v (now w) (emitted w).
Definition set_now (v : Z) (w : World) : World :=
  mkWorld (lobbies w) (gameStates w) (heap w) (disconnectedPlayers w) (sockets w)
    (timeouts w) (intervals w) v (emitted w).
Definition set_emitted (v : list (Dest * Msg)) (w : World) : World :=
  mkWorld (lobbies w) (gameStates w) (heap w) (disconnectedPlayers w) (sockets w)
    (timeouts w) (intervals w) (now w) v.

(** ** Runtime primitives *)

(** [io.to(code).emit(..)] / [socket.emit(..)]; newest message first. *)
Definition emit (d : Dest) (m : Msg) (w : World) : World :=
  set_emitted ((d, m) :: emitted w) w.

(** [setTimeout(cb, delay)]. *)
Definition setTimeout (cb : TimeoutCb) (delay : Z) (w : World) : World :=
  set_timeouts (timeouts w ++ [Some (now w + delay, cb)]) w.

(** [setInterval(body, period)]: the handle is the index of the new entry. *)
Definition setInterval (body : IntervalBody) (period : Z) (w : World) : nat * World :=
  (length (intervals w),
   set_intervals (intervals w ++ [Some (mkInterval (now w + period) period body)]) w).

(** [if (h) clearInterval(h)] for a handle [h] that is [null] or a timer. *)
Definition clearInterval (h : option nat) (w : World) : World :=
  set_intervals (match h with
                 | Some i => <[i := None]> (intervals w)
                 | None => intervals w
                 end) w.

(** Mutation of the [GameState] object behind reference [r]. *)
Definition modify_gs (r : nat) (f : GameState → GameState) (w : World) : World :=
  set_heap (alter f r (heap w)) w.

(** [gameStates.get(code)], with the object it refers to. *)
Definition lookup_gs (c : string) (w : World) : option (nat * GameState) :=
  match gameStates w !! c with
  | Some r => match heap w !! r with
              | Some g => Some (r, g)
              | None => None
              end
  | None => None
  end.

(** [scores[u] += k]. *)
Definition addScore (k : Z) (u : string) (sc : gmap string jsnum) : gmap string jsnum :=
  <[u := match sc !! u with
         | Some (Num z) => Num (z + k)
         | _ => NaN
         end]> sc.

(** [participants.find(p => p.username === u)]. *)
Definition findParticipant (u : string) (ps : list Participant) : option Participant :=
  List.find (λ p, bool_decide (username p = u)) ps.

(** [participants.find(p => p.username === u).connected = b]. *)
Fixpoint setConnected (u : string) (b : bool) (ps : list Participant) : list Participant :=
  match ps with
  | [] => []
  | p :: ps' =>
      if bool_decide (username p = u)
      then mkParticipant (username p) (isHost p) b :: ps'
      else p :: setConnected u b ps'
  end.

(** [participants.filter(p => p.username !== u)]. *)
Definition removeParticipant (u : string) (ps : list Participant) : list Participant :=
  List.filter (λ p, negb (bool_decide (username p = u))) ps.

Definition with_participants (ps : list Participant) (l : Lobby) : Lobby :=
  mkLobby (code l) (host l) ps (createdAt l) (gameStarted l).
Definition with_gameStarted (b : bool) (l : Lobby) : Lobby :=
  mkLobby (code l) (host l) (participants l) (createdAt l) b.

(** ** Game logic *)

(** [gameState.confession || 'true']: [null] and the empty string are falsy. *)
Definition actualConfessionOf (g : GameState) : string :=
  match confession g with
  | Some s => if bool_decide (s = "") then "true" else s
  | None => "true"
  end.

(** The tally loop of [calculateInitialResults]: [voteResults] as [(yes, no)]. *)
Definition countVote (g : GameState) (acc : Z * Z) (p : Participant) : Z * Z :=
  if connected p then
    match initialVotes g !! username p with
    | Some v =>
        if bool_decide (v = "yes") then (acc.1 + 1, acc.2)
        else if bool_decide (v = "no") then (acc.1, acc.2 + 1)
        else acc
    | None => acc
    end
  else acc.

Definition countVotes (g : GameState) (ps : list Participant) : Z * Z :=
  foldl (countVote g) (0, 0) ps.

Definition majorityOf (r : Z * Z) : option string :=
  if bool_decide (r.2 < r.1) then Some "yes"
  else if bool_decide (r.1 < r.2) then Some "no"
  else None.

(** The award loop of [calculateInitialResults], run when [majorityVote]
    is not [null]. *)
Definition awardVote (g : GameState) (m : string) (sc : gmap string jsnum) (p : Participant)
  : gmap string jsnum :=
  if bool_decide (initialVotes g !! username p = Some m)
  then addScore 1 (username p) sc
  else sc.

Definition awardMajority (g : GameState) (mv : option string) (ps : list Participant)
  : gmap string jsnum :=
  match mv with
  | Some m => foldl (awardVote g m) (scores g) ps
  | None => scores g
  end.

(** [participant.connected && participant.username !== gameState.selectedPlayer]. *)
Definition canGuess (g : GameState) (p : Participant) : bool :=
  connected p && negb (bool_decide (selectedPlayer g = Some (username p))).

Definition countGuess (g : GameState) (acc : Z * Z) (p : Participant) : Z * Z :=
  if canGuess g p then
    match guesses g !! username p with
    | Some v =>
        if bool_decide (v = "true") then (acc.1 + 1, acc.2)
        else if bool_decide (v = "false") then (acc.1, acc.2 + 1)
        else acc
    | None => acc
    end
  else acc.

Definition countGuesses (g : GameState) (ps : list Participant) : Z * Z :=
  foldl (countGuess g) (0, 0) ps.

Definition awardGuess (g : GameState) (actual : string) (sc : gmap string jsnum)
    (p : Participant) : gmap string jsnum :=
  if canGuess g p && bool_decide (guesses g !! username p = Some actual)
  then addScore 3 (username p) sc
  else sc.

Definition awardGuessers (g : GameState) (ps : list Participant) : gmap string jsnum :=
  foldl (awardGuess g (actualConfessionOf g)) (scores g) ps.

(** [topics.filter((topic, index) => !used.includes(index))], scanning from
    index [i]. *)
Fixpoint availableFrom (i : Z) (used : list Z) (ts : list string) : list string :=
  match ts with
  | [] => []
  | t :: ts' =>
      if bool_decide (i ∈ used) then availableFrom (i + 1) used ts'
      else t :: availableFrom (i + 1) used ts'
  end.

(** [topics.indexOf(s)]: the first index holding [s], [-1] if there is none. *)
Fixpoint indexOfFrom (i : Z) (s : string) (ts : list string) : Z :=
  match ts with
  | [] => -1
  | t :: ts' => if bool_decide (t = s) then i else indexOfFrom (i + 1) s ts'
  end.

Section GameLogic.

(** The catalog read from [never_have_i_ever_topics.txt] at startup. *)
Variable neverHaveIEverTopics : list string.

Definition availableTopics (used : list Z) : list string :=
  availableFrom 0 used neverHaveIEverTopics.

Definition indexOf (s : string) : Z := indexOfFrom 0 s neverHaveIEverTopics.

Definition endGame (c : string) (w : World) : World :=
  match lookup_gs c w with
  | None => w
  | Some (r, g) =>
      emit (ToRoom c) (GameEnded (scores g)) (clearInterval (timerInterval g) w)
  end.

Definition startTimer (c : string) (seconds : Z) (callback : TimerCb) (w : World) : World :=
  match lookup_gs c w with
  | None => w
  | Some (r, g) =>
      let w1 := modify_gs r (set_timer seconds) w in
      let w2 := clearInterval (timerInterval g) w1 in
      let '(h, w3) := setInterval (Countdown c r callback) 1000 w2 in
      modify_gs r (set_timerInterval (Some h)) w3
  end.

Definition showScoreboard (c : string) (w : World) : World :=
  match lookup_gs c w with
  | None => w
  | Some (r, g) =>
      let w1 := modify_gs r (set_phase "scoreboard") w in
      let w2 := emit (ToRoom c) (GamePhaseUpdate "scoreboard") w1 in
      let w3 := emit (ToRoom c) (ScoreboardUpdate (scores g)) w2 in
      setTimeout (CbScoreboardNext c r) 5000 w3
  end.

(** The callback [showScoreboard] schedules; [r] is the [gameState] it
    closed over. *)
Definition scoreboardNext (c : string) (r : nat) (w : World) : World :=
  match heap w !! r with
  | None => w
  | Some g =>
      let n := roundNumber g + 1 in
      let w1 := modify_gs r (set_roundNumber n) w in
      if bool_decide (totalRounds g < n)
         || bool_decide (length neverHaveIEverTopics ≤ length (usedTopics g))%nat
      then endGame c w1
      else
        let w2 := modify_gs r (set_phase "waiting") w1 in
        let w3 := emit (ToRoom c) (GamePhaseUpdate "waiting") w2 in
        setTimeout (CbStartInitialVoting c) 3000 w3
  end.

Definition calculateConfessionResults (c : string) (w : World) : World :=
  match lookup_gs c w, lobbies w !! c with
  | Some (r, g), Some l =>
      let guessResults := countGuesses g (participants l) in
      let actualConfession := actualConfessionOf g in
      let w1 := modify_gs r (set_scores (awardGuessers g (participants l))) w in
      let w2 := modify_gs r (set_phase "confession-results") w1 in
      let w3 := emit (ToRoom c) (GamePhaseUpdate "confession-results") w2 in
      let w4 := emit (ToRoom c)
                  (ConfessionResults guessResults.1 guessResults.2 actualConfession
                     (selectedPlayer g)) w3 in
      setTimeout (CbShowScoreboard c) 5000 w4
  | _, _ => w
  end.

Definition startGuessingPhase (c : string) (w : World) : World :=
  match lookup_gs c w with
  | None => w
  | Some (r, g) =>
      let w1 := modify_gs r (set_phase "guessing") w in
      let w2 := modify_gs r (set_guesses ∅) w1 in
      let w3 := modify_gs r (set_timer 30) w2 in
      let w4 := emit (ToRoom c) (GamePhaseUpdate "guessing") w3 in
      startTimer c 30 (TcCalcConfession c) w4
  end.

Definition startConfessionPhase (c : string) (w : World) : World :=
  match lookup_gs c w with
  | None => w
  | Some (r, g) =>
      let w1 := modify_gs r (set_phase "confession") w in
      let w2 := modify_gs r (set_confession None) w1 in
      let w3 := modify_gs r (set_timer 60) w2 in
      let w4 := emit (ToRoom c) (GamePhaseUpdate "confession") w3 in
      startTimer c 60 (TcConfessionTimeout c r) w4
  end.

(** [rnd] stands for [Math.floor(Math.random() * eligiblePlayers.length)],
    which lies below the length. *)
Definition selectRandomPlayer (c : string) (rnd : nat) (w : World) : World :=
  match lookup_gs c w, lobbies w !! c with
  | Some (r, g), Some l =>
      let eligiblePlayers :=
        List.filter (λ p, connected p
                          && bool_decide (is_Some (initialVotes g !! username p)))
          (participants l) in
      match eligiblePlayers !! (rnd `mod` length eligiblePlayers)%nat with
      | None => (* [eligiblePlayers.length === 0] *) endGame c w
      | Some selected =>
          let vote := initialVotes g !! username selected in
          let w1 := modify_gs r (set_selectedPlayer (Some (username selected))) w in
          let w2 := modify_gs r (set_playerInitialVote vote) w1 in
          let w3 := modify_gs r (set_phase "player-selection") w2 in
          let w4 := emit (ToRoom c) (GamePhaseUpdate "player-selection") w3 in
          let w5 := emit (ToRoom c) (PlayerSelected (username selected) vote) w4 in
          setTimeout (CbStartConfession c) 3000 w5
      end
  | _, _ => w
  end.

Definition calculateInitialResults (c : string) (w : World) : World :=
  match lookup_gs c w, lobbies w !! c with
  | Some (r, g), Some l =>
      let voteResults := countVotes g (participants l) in
      let majorityVote := majorityOf voteResults in
      let w1 := modify_gs r (set_scores (awardMajority g majorityVote (participants l))) w in
      let w2 := modify_gs r (set_phase "initial-results") w1 in
      let w3 := emit (ToRoom c) (GamePhaseUpdate "initial-results") w2 in
      let w4 := emit (ToRoom c)
                  (InitialVoteResults voteResults.1 voteResults.2 majorityVote
                     (currentTopic g)) w3 in
      setTimeout (CbSelectRandomPlayer c) 4000 w4
  | _, _ => w
  end.

(** [rnd] stands for [Math.floor(Math.random() * availableTopics.length)]. *)
Definition startInitialVotingPhase (c : string) (rnd : nat) (w : World) : World :=
  match lookup_gs c w, lobbies w !! c with
  | Some (r, g), Some l =>
      let available := availableTopics (usedTopics g) in
      match available !! (rnd `mod` length available)%nat with
      | None => (* [availableTopics.length === 0] *) endGame c w
      | Some selectedTopic =>
          let originalIndex := indexOf selectedTopic in
          let g' :=
            set_timer 30
              (set_guesses ∅
                 (set_confession None
                    (set_playerInitialVote None
                       (set_selectedPlayer None
                          (set_initialVotes ∅
                             (set_phase "initial-voting"
                                (set_usedTopics (usedTopics g ++ [originalIndex])
                                   (set_currentTopic (Some selectedTopic) g)))))))) in
          let w1 := modify_gs r (λ _, g') w in
          let w2 := clearInterval (timerInterval g) w1 in
          let w3 := emit (ToRoom c) (TopicSelected selectedTopic) w2 in
          let w4 := emit (ToRoom c) (GamePhaseUpdate "initial-voting") w3 in
          startTimer c 30 (TcCalcInitial c) w4
      end
  | _, _ => w
  end.

(** ** Timer callbacks *)

Definition runTimerCb (cb : TimerCb) (w : World) : World :=
  match cb with
  | TcCalcInitial c => calculateInitialResults c w
  | TcConfessionTimeout c r =>
      let w1 := modify_gs r (λ g, match confession g with
                                  | None => set_confession (Some "true") g
                                  | Some _ => g
                                  end) w in
      startGuessingPhase c w1
  | TcCalcConfession c => calculateConfessionResults c w
  end.

(** The body of the interval [startTimer] installs. *)
Definition countdownTick (c : string) (r : nat) (callback : TimerCb) (w : World) : World :=
  match heap w !! r with
  | None => w
  | Some g =>
      let t := timer g - 1 in
      let w1 := modify_gs r (set_timer t) w in
      let w2 := emit (ToRoom c) (GameTimer t) w1 in
      if bool_decide (t ≤ 0) then
        let w3 := clearInterval (timerInterval g) w2 in
        let w4 := modify_gs r (set_timerInterval None) w3 in
        runTimerCb callback w4
      else w2
  end.

End GameLogic.

(** ** HTTP routes and socket handlers *)

(** [disconnectedPlayers.set(k, v)]: a [Map] keeps the position of a key
    it already holds and appends a new one. *)
Fixpoint mapSet (k : string) (v : Tracked) (m : list (string * Tracked))
  : list (string * Tracked) :=
  match m with
  | [] => [(k, v)]
  | e :: m' => if bool_decide (e.1 = k) then (k, v) :: m' else e :: mapSet k v m'
  end.

(** [disconnectedPlayers.delete(k)]. *)
Definition mapDelete (k : string) (m : list (string * Tracked)) : list (string * Tracked) :=
  List.filter (λ e, negb (bool_decide (e.1 = k))) m.

(** [gameState && gameState.phase !== 'waiting']. *)
Definition gameActive (c : string) (w : World) : bool :=
  match lookup_gs c w with
  | Some (_, g) => negb (bool_decide (phase g = "waiting"))
  | None => false
  end.

(** [if (gameState.timerInterval) { clearInterval(gameState.timerInterval);
    gameState.timerInterval = null; }]. *)
Definition stopTimer (r : nat) (g : GameState) (w : World) : World :=
  match timerInterval g with
  | Some h => modify_gs r (set_timerInterval None) (clearInterval (Some h) w)
  | None => w
  end.

(** [lobby.participants.forEach(p => { scores[p.username] = 0; })]. *)
Definition seedScores (ps : list Participant) (sc : gmap string jsnum) : gmap string jsnum :=
  foldl (λ acc p, <[username p := Num 0]> acc) sc ps.

(** The participant is marked disconnected and tracked; shared by the
    [leave-lobby] and [disconnect] handlers while a game is active. *)
Definition markDisconnected (c u : string) (l : Lobby) (w : World) : World :=
  let l' := with_participants (setConnected u false (participants l)) l in
  let w1 := set_lobbies (<[c := l']> (lobbies w)) w in
  let w2 := set_disconnectedPlayers
              (mapSet u (mkTracked c (now w)) (disconnectedPlayers w1)) w1 in
  emit (ToRoom c) (LobbyUpdated l') w2.

(** [POST /api/lobby/create]; [c] is what [generateLobbyCode()] returned. *)
Definition httpCreate (c u : string) (w : World) : World :=
  if bool_decide (String.length u < 2)%nat then w
  else
    set_lobbies
      (<[c := mkLobby c u [mkParticipant u true true] (now w) false]> (lobbies w)) w.

(** [POST /api/lobby/join]. *)
Definition httpJoin (c u : string) (w : World) : World :=
  if bool_decide (c = "") || bool_decide (u = "") then w
  else
    match lobbies w !! c with
    | None => w
    | Some l =>
        match findParticipant u (participants l) with
        | Some _ =>
            let l' := with_participants (setConnected u true (participants l)) l in
            set_lobbies (<[c := l']> (lobbies w)) w
        | None =>
            let l' := with_participants
                        (participants l ++ [mkParticipant u false true]) l in
            let w1 := set_lobbies (<[c := l']> (lobbies w)) w in
            match lookup_gs c w1 with
            | Some (r, g) => modify_gs r (set_scores (<[u := Num 0]> (scores g))) w1
            | None => w1
            end
        end
    end.

Definition syncGameStateToPlayer (socketId : nat) (c : string) (w : World) : World :=
  match lookup_gs c w, lobbies w !! c with
  | Some (_, g), Some l =>
      match sockets w !! socketId with
      | None => w
      | Some s =>
          let own (m : gmap string string) :=
            match sock_username s with Some u => m !! u | None => None end in
          let userVote :=
            if bool_decide (phase g = "initial-voting")
               || bool_decide (phase g = "initial-results")
            then own (initialVotes g)
            else if bool_decide (phase g = "confession") then confession g
            else if bool_decide (phase g = "guessing")
                    || bool_decide (phase g = "confession-results")
            then own (guesses g)
            else None in
          emit (ToSocket socketId) (SyncGameState g l userVote) w
      end
  | _, _ => w
  end.

(** [socket.on('join-lobby')]. *)
Definition joinLobby (sid : nat) (c u : string) (w : World) : World :=
  let w0 := set_sockets (<[sid := mkSocket (Some u) (Some c)]> (sockets w)) w in
  match lobbies w0 !! c with
  | None => w0
  | Some l =>
      let l' := with_participants (setConnected u true (participants l)) l in
      let w1 := set_lobbies (<[c := l']> (lobbies w0)) w0 in
      let w2 := if gameActive c w1 then setTimeout (CbSync sid c) 1000 w1 else w1 in
      emit (ToRoom c) (LobbyUpdated l') w2
  end.

(** Both branches of the test [participants.length === 0 || username ===
    lobby.host] after the leaving user was filtered out of the roster;
    [clearTimer] is set by the [disconnect] handler, which clears the
    game's timer before it deletes the records. *)
Definition removeAndMaybeClose (clearTimer : bool) (c u : string) (l : Lobby) (w : World)
  : World :=
  let l' := with_participants (removeParticipant u (participants l)) l in
  let w1 := set_lobbies (<[c := l']> (lobbies w)) w in
  if bool_decide (length (participants l') = 0%nat) || bool_decide (u = host l) then
    let w2 := if clearTimer then
                match lookup_gs c w1 with
                | Some (_, g) => clearInterval (timerInterval g) w1
                | None => w1
                end
              else w1 in
    let w3 := set_lobbies (delete c (lobbies w2)) w2 in
    let w4 := set_gameStates (delete c (gameStates w3)) w3 in
    emit (ToRoom c) LobbyClosed w4
  else emit (ToRoom c) (LobbyUpdated l') w1.

(** [socket.on('leave-lobby')]. *)
Definition leaveLobby (c u : string) (w : World) : World :=
  match lobbies w !! c with
  | None => w
  | Some l =>
      if gameActive c w then
        match findParticipant u (participants l) with
        | Some _ => markDisconnected c u l w
        | None => emit (ToRoom c) (LobbyUpdated l) w
        end
      else removeAndMaybeClose false c u l w
  end.

(** [socket.on('start-game')]. *)
Definition startGame (c u : string) (w : World) : World :=
  match lobbies w !! c with
  | None => w
  | Some l =>
      if bool_decide (host l = u) && bool_decide (2 ≤ length (participants l))%nat then
        let l' := with_gameStarted true l in
        let w1 := set_lobbies (<[c := l']> (lobbies w)) w in
        let g := mkGameState "initial-voting" 1 15 None ∅ None None None ∅
                   (seedScores (participants l') ∅) [] 30 None in
        let r := length (heap w1) in
        let w2 := set_heap (heap w1 ++ [g]) w1 in
        let w3 := set_gameStates (<[c := r]> (gameStates w2)) w2 in
        let w4 := emit (ToRoom c) (GameStarted l' g) w3 in
        setTimeout (CbStartInitialVoting c) 2000 w4
      else w
  end.

(** [socket.on('cast-initial-vote')].  With the game state present the
    lobby is too; where it is not, [lobby.participants] throws after the
    vote was stored. *)
Definition castInitialVote (c u vote : string) (w : World) : World :=
  match lookup_gs c w with
  | Some (r, g) =>
      if bool_decide (phase g = "initial-voting") then
        let votes := <[u := vote]> (initialVotes g) in
        let w1 := modify_gs r (set_initialVotes votes) w in
        match lobbies w !! c with
        | None => w1
        | Some l =>
            let connectedPlayers := List.filter connected (participants l) in
            let allPlayersVoted :=
              forallb (λ p, bool_decide (is_Some (votes !! username p)))
                connectedPlayers in
            if allPlayersVoted then
              let timeElapsed := 30 - timer g in
              let minimumVotingTime := 15 in
              if bool_decide (minimumVotingTime ≤ timeElapsed) then
                let w2 := stopTimer r g w1 in
                setTimeout (CbCalcInitial c) 1000 w2
              else w1
            else w1
        end
      else w
  | None => w
  end.

(** [socket.on('make-confession')]. *)
Definition makeConfession (c u conf : string) (w : World) : World :=
  match lookup_gs c w with
  | Some (r, g) =>
      if bool_decide (phase g = "confession")
         && bool_decide (selectedPlayer g = Some u) then
        let w1 := modify_gs r (set_confession (Some conf)) w in
        let w2 := stopTimer r g w1 in
        setTimeout (CbStartGuessing c) 1000 w2
      else w
  | None => w
  end.

(** [socket.on('make-guess')]. *)
Definition makeGuess (c u guess : string) (w : World) : World :=
  match lookup_gs c w with
  | Some (r, g) =>
      if bool_decide (phase g = "guessing")
         && negb (bool_decide (selectedPlayer g = Some u)) then
        let gs := <[u := guess]> (guesses g) in
        let w1 := modify_gs r (set_guesses gs) w in
        match lobbies w !! c with
        | None => w1
        | Some l =>
            let connectedPlayers := List.filter connected (participants l) in
            let playersWhoCanGuess :=
              List.filter (λ p, negb (bool_decide (selectedPlayer g = Some (username p))))
                connectedPlayers in
            let allPlayersGuessed :=
              forallb (λ p, bool_decide (is_Some (gs !! username p)))
                playersWhoCanGuess in
            if allPlayersGuessed then
              let timeElapsed := 30 - timer g in
              let minimumGuessingTime := 15 in
              if bool_decide (minimumGuessingTime ≤ timeElapsed) then
                let w2 := stopTimer r g w1 in
                setTimeout (CbCalcConfession c) 1000 w2
              else w1
            else w1
        end
      else w
  | None => w
  end.

(** [socket.on('restart-game')]. *)
Definition restartGame (sid : nat) (c : string) (w : World) : World :=
  match lobbies w !! c, lookup_gs c w, sockets w !! sid with
  | Some l, Some (r, g), Some s =>
      if bool_decide (sock_username s = Some (host l)) then
        let g1 :=
          set_timer 30
            (set_usedTopics []
               (set_guesses ∅
                  (set_confession None
                     (set_playerInitialVote None
                        (set_selectedPlayer None
                           (set_initialVotes ∅
                              (set_currentTopic None
                                 (set_roundNumber 1
                                    (set_phase "initial-voting" g))))))))) in
        let g2 := set_scores (seedScores (participants l) (scores g1)) g1 in
        let w1 := modify_gs r (λ _, g2) w in
        let w2 := clearInterval (timerInterval g) w1 in
        let w3 := emit (ToRoom c) (GameStarted l g2) w2 in
        setTimeout (CbStartInitialVoting c) 2000 w3
      else w
  | _, _, _ => w
  end.

(** [socket.on('disconnect')]; the socket leaves the server's socket table. *)
Definition disconnect (sid : nat) (w : World) : World :=
  match sockets w !! sid with
  | None => w
  | Some s =>
      let w0 := set_sockets (delete sid (sockets w)) w in
      match sock_lobbyCode s, sock_username s with
      | Some c, Some u =>
          if bool_decide (c = "") || bool_decide (u = "") then w0
          else
            match lobbies w0 !! c with
            | None => w0
            | Some l =>
                match findParticipant u (participants l) with
                | None => w0
                | Some _ =>
                    if gameActive c w0 then markDisconnected c u l w0
                    else removeAndMaybeClose true c u l w0
                end
            end
      | _, _ => w0
      end
  end.

(** One visit of [disconnectedPlayers.forEach] in the clean-up interval. *)
Definition sweepEntry (w : World) (e : string * Tracked) : World :=
  let timeout := 5 * 60 * 1000 in
  if bool_decide (timeout < now w - t_timestamp e.2) then
    let w1 :=
      match lobbies w !! t_code e.2 with
      | Some l =>
          let l' := with_participants (removeParticipant e.1 (participants l)) l in
          emit (ToRoom (t_code e.2)) (LobbyUpdated l')
            (set_lobbies (<[t_code e.2 := l']> (lobbies w)) w)
      | None => w
      end in
    set_disconnectedPlayers (mapDelete e.1 (disconnectedPlayers w1)) w1
  else w.

(** The clean-up of old disconnected players.  Entries are only deleted
    while the map is traversed, so every entry held at the start is visited. *)
Definition sweep (w : World) : World :=
  foldl sweepEntry w (disconnectedPlayers w).

(** ** The event loop *)

(** What the runtime can hand to the server: a request, a socket event, the
    passing of time, or a timer that has come due. *)
Inductive Event :=
| HttpCreate (c u : string)
| HttpJoin (c u : string)
| Connect (sid : nat)
| JoinLobby (sid : nat) (c u : string)
| LeaveLobby (sid : nat) (c u : string)
| StartGame (sid : nat) (c u : string)
| CastInitialVote (sid : nat) (c u vote : string)
| MakeConfession (sid : nat) (c u conf : string)
| MakeGuess (sid : nat) (c u guess : string)
| RequestSync (sid : nat) (c : string)
| RestartGame (sid : nat) (c : string)
| Disconnect (sid : nat)
| Elapse (dt : Z)
| FireTimeout (id : nat) (rnd : nat)
| FireInterval (id : nat).

Section EventLoop.

Variable neverHaveIEverTopics : list string.

Definition runTimeoutCb (cb : TimeoutCb) (rnd : nat) (w : World) : World :=
  match cb with
  | CbSync sid c => syncGameStateToPlayer sid c w
  | CbStartInitialVoting c => startInitialVotingPhase neverHaveIEverTopics c rnd w
  | CbCalcInitial c => calculateInitialResults c w
  | CbSelectRandomPlayer c => selectRandomPlayer c rnd w
  | CbStartConfession c => startConfessionPhase c w
  | CbStartGuessing c => startGuessingPhase c w
  | CbCalcConfession c => calculateConfessionResults c w
  | CbShowScoreboard c => showScoreboard c w
  | CbScoreboardNext c r => scoreboardNext neverHaveIEverTopics c r w
  end.

Definition runIntervalBody (b : IntervalBody) (w : World) : World :=
  match b with
  | Countdown c r callback => countdownTick c r callback w
  | Sweep => sweep w
  end.

(** A socket event is delivered only for a socket that is connected. *)
Definition onSocket (sid : nat) (w : World) (k : World) : option World :=
  match sockets w !! sid with
  | Some _ => Some k
  | None => None
  end.

(** One turn of the event loop; [None] when the runtime cannot produce
    the event in this state.  A timer runs no earlier than it is due. *)
Definition step (e : Event) (w : World) : option World :=
  match e with
  | HttpCreate c u => Some (httpCreate c u w)
  | HttpJoin c u => Some (httpJoin c u w)
  | Connect sid =>
      match sockets w !! sid with
      | None => Some (set_sockets (<[sid := mkSocket None None]> (sockets w)) w)
      | Some _ => None
      end
  | JoinLobby sid c u => onSocket sid w (joinLobby sid c u w)
  | LeaveLobby sid c u => onSocket sid w (leaveLobby c u w)
  | StartGame sid c u => onSocket sid w (startGame c u w)
  | CastInitialVote sid c u v => onSocket sid w (castInitialVote c u v w)
  | MakeConfession sid c u v => onSocket sid w (makeConfession c u v w)
  | MakeGuess sid c u v => onSocket sid w (makeGuess c u v w)
  | RequestSync sid c => onSocket sid w (syncGameStateToPlayer sid c w)
  | RestartGame sid c => onSocket sid w (restartGame sid c w)
  | Disconnect sid => onSocket sid w (disconnect sid w)
  | Elapse dt => if bool_decide (0 ≤ dt) then Some (set_now (now w + dt) w) else None
  | FireTimeout id rnd =>
      match timeouts w !! id with
      | Some (Some (due, cb)) =>
          if bool_decide (due ≤ now w)
          then Some (runTimeoutCb cb rnd (set_timeouts (<[id := None]> (timeouts w)) w))
          else None
      | _ => None
      end
  | FireInterval id =>
      match intervals w !! id with
      | Some (Some iv) =>
          if bool_decide (iv_due iv ≤ now w) then
            let iv' := mkInterval (iv_due iv + iv_period iv) (iv_period iv) (iv_body iv) in
            Some (runIntervalBody (iv_body iv)
                    (set_intervals (<[id := Some iv']> (intervals w)) w))
          else None
      | _ => None
      end
  end.

(** A run of the event loop over a list of events. *)
Fixpoint run (es : list Event) (w : World) : option World :=
  match es with
  | [] => Some w
  | e :: es' =>
      match step e w with
      | Some w' => run es' w'
      | None => None
      end
  end.

(** *** A punctual scheduler

    [nextTimer] picks the pending timer that is due first (a timeout
    before an interval due at the same instant, then the older handle);
    [runUntil] lets time pass up to [T] and runs every timer the instant
    it is due.  [rnd] is what [Math.random] yields whenever it is asked. *)
Definition earlier (a b : option (Z * Event)) : option (Z * Event) :=
  match a, b with
  | Some (da, _), Some (db, _) => if bool_decide (db < da) then b else a
  | Some _, None => a
  | None, _ => b
  end.

Definition dueTimeouts (rnd : nat) (w : World) : list (option (Z * Event)) :=
  imap (λ i o, match o with
               | Some (due, _) => Some (due, FireTimeout i rnd)
               | None => None
               end) (timeouts w).

Definition dueIntervals (w : World) : list (option (Z * Event)) :=
  imap (λ i o, match o with
               | Some iv => Some (iv_due iv, FireInterval i)
               | None => None
               end) (intervals w).

Definition nextTimer (rnd : nat) (w : World) : option (Z * Event) :=
  foldl earlier None (dueTimeouts rnd w ++ dueIntervals w).

Fixpoint runUntil (fuel : nat) (rnd : nat) (T : Z) (w : World) : option World :=
  match fuel with
  | O => None
  | S fuel' =>
      match nextTimer rnd w with
      | Some (due, e) =>
          if bool_decide (due ≤ T) then
            match run [Elapse (Z.max 0 (due - now w)); e] w with
            | Some w' => runUntil fuel' rnd T w'
            | None => None
            end
          else step (Elapse (T - now w)) w
      | None => step (Elapse (T - now w)) w
      end
  end.

End EventLoop.

(** The server right after start-up: empty registries, the clean-up
    interval installed with its period of 60000 ms. *)
Definition initialWorld : World :=
  mkWorld ∅ ∅ [] [] ∅ [] [Some (mkInterval 60000 60000 Sweep)] 0 [].

(** ** Vocabulary of the properties *)


(** [p] has a recorded initial vote equal to [v]. *)
Definition votedFor (g : GameState) (v : string) (p : Participant) : bool :=
  bool_decide (initialVotes g !! username p = Some v).

(** [p] has a recorded guess equal to [v]. *)
Definition guessed (g : GameState) (v : string) (p : Participant) : bool :=
  bool_decide (guesses g !! username p = Some v).

(** *** How one turn of the event loop may change the server

    [gsEvolves allowed g g']: the game-state object went from [g] to [g']
    keeping its phase or entering one that [allowed] admits, and without
    dropping a key of [scores]. *)
Definition gsEvolves (allowed : string → Prop) (g g' : GameState) : Prop :=
  (phase g' = phase g ∨ allowed (phase g')) ∧ dom (scores g) ⊆ dom (scores g').

(** [evolves allowed allowedCb allowClose w w']: no game-state object is
    lost and each one evolves as above; every pending timeout of [w'] was
    pending in [w] or runs a callback [allowedCb] admits; and, unless
    [allowClose], no lobby of [w] is missing from [w']. *)
Definition evolves (allowed : string → Prop) (allowedCb : TimeoutCb → Prop)
    (allowClose : Prop) (w w' : World) : Prop :=
  (length (heap w) ≤ length (heap w'))%nat
  ∧ (∀ r g g', heap w !! r = Some g → heap w' !! r = Some g' → gsEvolves allowed g g')
  ∧ (∀ id due cb, timeouts w' !! id = Some (Some (due, cb)) →
       timeouts w !! id = Some (Some (due, cb)) ∨ allowedCb cb)
  ∧ (allowClose ∨ dom (lobbies w) ⊆ dom (lobbies w')).

(** The two events that run [calculateInitialResults]: the timeout the
    [cast-initial-vote] handler schedules comes due, or a countdown whose
    callback it is ticks down to zero. *)
Definition entersResults (e : Event) (w : World) : bool :=
  match e with
  | FireTimeout id _ =>
      match timeouts w !! id with
      | Some (Some (_, CbCalcInitial _)) => true
      | _ => false
      end
  | FireInterval id =>
      match intervals w !! id with
      | Some (Some iv) =>
          match iv_body iv with
          | Countdown _ r (TcCalcInitial _) =>
              match heap w !! r with
              | Some g => bool_decide (timer g - 1 ≤ 0)
              | None => false
              end
          | _ => false
          end
      | _ => false
      end
  | _ => false
  end.

(** With the vote [u ↦ vote] recorded, every connected participant of the
    session has voted. *)
Definition allConnectedVoted (c u vote : string) (w : World) : Prop :=
  ∃ r g l, lookup_gs c w = Some (r, g) ∧ lobbies w !! c = Some l
    ∧ ∀ p, p ∈ participants l → connected p = true →
           is_Some (<[u := vote]> (initialVotes g) !! username p).

(** Seconds elapsed on the 30-second voting timer of the session. *)
Definition votingElapsed (c : string) (w : World) : option Z :=
  match lookup_gs c w with
  | Some (_, g) => Some (30 - timer g)
  | None => None
  end.

(** The exit condition of initial voting that does not wait for the timer. *)
Definition earlyExit (c u vote : string) (w : World) : Prop :=
  allConnectedVoted c u vote w ∧ ∃ t, votingElapsed c w = Some t ∧ 15 ≤ t.

(** The exit condition of initial voting in state [w], as the
    specification words it: the timer of session [c] has reached 0, or every
    connected participant has voted and at least 15 seconds have elapsed. *)
Definition exitConditionMet (c : string) (w : World) : Prop :=
  ∃ r g l, lookup_gs c w = Some (r, g) ∧ lobbies w !! c = Some l
    ∧ (timer g ≤ 0
       ∨ ((∀ p, p ∈ participants l → connected p = true →
                is_Some (initialVotes g !! username p))
          ∧ 15 ≤ 30 - timer g)).

(** After the events [es] since start-up, a timeout due at [due] was
    scheduled by a vote for session [c]: the vote was cast in phase
    ["initial-voting"], 1000 ms before [due], and with it every connected
    participant had voted while at least 15 seconds had elapsed. *)
Definition voteScheduled (topics : list string) (es : list Event) (c : string) (due : Z)
  : Prop :=
  ∃ es1 es2 w1 sid u v r g,
    es = es1 ++ CastInitialVote sid c u v :: es2
    ∧ run topics es1 initialWorld = Some w1
    ∧ lookup_gs c w1 = Some (r, g) ∧ phase g = "initial-voting"
    ∧ earlyExit c u v w1 ∧ due = now w1 + 1000.

(** The event is the tick to 0 of a countdown whose callback computes the
    results of the session that game state [r] is registered for. *)
Definition countdownExpires (e : Event) (w : World) (r : nat) : Prop :=
  ∃ id iv c0 r0 c g0,
    e = FireInterval id ∧ intervals w !! id = Some (Some iv)
    ∧ iv_body iv = Countdown c0 r0 (TcCalcInitial c)
    ∧ gameStates w !! c = Some r
    ∧ heap w !! r0 = Some g0 ∧ timer g0 - 1 ≤ 0.

(** The event is the coming due of a timeout that a vote scheduled, for the
    session that game state [r] is registered for. *)
Definition voteTimeoutDue (topics : list string) (es : list Event) (e : Event) (w : World)
    (r : nat) : Prop :=
  ∃ id rnd due c,
    e = FireTimeout id rnd ∧ timeouts w !! id = Some (Some (due, CbCalcInitial c))
    ∧ due ≤ now w ∧ gameStates w !! c = Some r
    ∧ voteScheduled topics es c due.

(** The user and lobby a [leave-lobby] or [disconnect] event takes out of a
    roster; a disconnecting socket counts when it had joined a lobby that
    exists and lists its user. *)
Definition leaving (e : Event) (w : World) : option (string * string) :=
  match e with
  | LeaveLobby _ c u => Some (c, u)
  | Disconnect sid =>
      match sockets w !! sid with
      | Some (mkSocket (Some u) (Some c)) =>
          if bool_decide (c = "") || bool_decide (u = "") then None
          else
            match lobbies w !! c with
            | Some l =>
                match findParticipant u (participants l) with
                | Some _ => Some (c, u)
                | None => None
                end
            | None => None
            end
      | _ => None
      end
  | _ => None
  end.

(** The event closes lobby [c]: user [u] leaves while no game is active
    (there is no game state, or its phase is ["waiting"]), and [u] is the
    host or the roster is empty without [u]. *)
Definition closesLobby (e : Event) (w : World) (c : string) : Prop :=
  ∃ u l, leaving e w = Some (c, u) ∧ lobbies w !! c = Some l
    ∧ gameActive c w = false
    ∧ (removeParticipant u (participants l) = [] ∨ u = host l).

(** The event runs the clean-up of old disconnected players. *)
Definition sweeps (e : Event) (w : World) : Prop :=
  ∃ id iv, e = FireInterval id ∧ intervals w !! id = Some (Some iv) ∧ iv_body iv = Sweep.

(** The event takes a user out of a roster or marks them disconnected. *)
Definition departs (e : Event) : Prop :=
  (∃ sid c u, e = LeaveLobby sid c u) ∨ (∃ sid, e = Disconnect sid).

(** Socket [sid] belongs to the host of lobby [l]. *)
Definition hostSocket (sid : nat) (l : Lobby) (w : World) : Prop :=
  ∃ s, sockets w !! sid = Some s ∧ sock_username s = Some (host l).

(** The countdown intervals of session [c] that are running. *)
Definition isCountdownOf (c : string) (o : option Interval) : bool :=
  match o with
  | Some iv =>
      match iv_body iv with
      | Countdown c' _ _ => bool_decide (c' = c)
      | Sweep => false
      end
  | None => false
  end.

Definition activeCountdowns (c : string) (w : World) : list (option Interval) :=
  List.filter (isCountdownOf c) (intervals w).

(** The ['initial-vote-results'] broadcasts sent to session [c] so far, with
    their tallies, newest first. *)
Definition voteResultsSent (c : string) (w : World) : list (Z * Z) :=
  omap (λ m, match m with
             | (ToRoom c', InitialVoteResults y n _ _) =>
                 if bool_decide (c' = c) then Some (y, n) else None
             | _ => None
             end) (emitted w).

(** The catalog indices whose entries [availableFrom] keeps: the positions
    of [availableTopics] in the catalog. *)
Fixpoint availableIndicesFrom (i : Z) (used : list Z) (ts : list string) : list Z :=
  match ts with
  | [] => []
  | _ :: ts' =>
      if bool_decide (i ∈ used) then availableIndicesFrom (i + 1) used ts'
      else i :: availableIndicesFrom (i + 1) used ts'
  end.

Definition availableIndices (topics : list string) (used : list Z) : list Z :=
  availableIndicesFrom 0 used topics.

(** ** Sample sessions

    Concrete runs of the server, used to exercise the properties below.
    Lobby ["ABCD"] is created by ["ann"]; sockets 1, 2, 3 belong to
    ["ann"], ["bob"], ["cat"]. *)

Definition sampleTopics : list string :=
  ["eaten a bug on purpose"; "gone skinny dipping"; "lied about my age"]%string.

Definition orInitial (o : option World) : World := default initialWorld o.

(** The game state of session [c], for a session that has one. *)
Definition gameStateOf (c : string) (w : World) : GameState :=
  match lookup_gs c w with
  | Some (_, g) => g
  | None => mkGameState "" 0 0 None ∅ None None None ∅ ∅ [] 0 None
  end.

Definition lobbyOf (c : string) (w : World) : Lobby :=
  default (mkLobby c "" [] 0 false) (lobbies w !! c).

Definition threePlayers : list Event :=
  [HttpCreate "ABCD" "ann"; HttpJoin "ABCD" "bob"; HttpJoin "ABCD" "cat";
   Connect 1; Connect 2; Connect 3;
   JoinLobby 1 "ABCD" "ann"; JoinLobby 2 "ABCD" "bob"; JoinLobby 3 "ABCD" "cat";
   StartGame 1 "ABCD" "ann"].

(** Five seconds into the first round ["ann"] and ["bob"] have voted. *)
Definition votedAB : World := Eval vm_compute in
  orInitial (w ← run sampleTopics threePlayers initialWorld;
             w ← runUntil sampleTopics 100 0 5000 w;
             run sampleTopics
               [CastInitialVote 1 "ABCD" "ann" "yes";
                CastInitialVote 2 "ABCD" "bob" "yes"] w).

(** Then ["cat"] votes: the votes are [{ann: yes, bob: yes, cat: no}]. *)
Definition votedABC : World := Eval vm_compute in
  orInitial (step sampleTopics (CastInitialVote 3 "ABCD" "cat" "no") votedAB).

(** The same round later on: ["cat"] was selected and confessed ["false"],
    ["ann"] guessed ["false"] and ["bob"] guessed ["true"]. *)
Definition guessedAB : World := Eval vm_compute in
  orInitial (w ← runUntil sampleTopics 200 2 40000 votedABC;
             w ← step sampleTopics (MakeConfession 3 "ABCD" "cat" "false") w;
             w ← runUntil sampleTopics 200 2 45000 w;
             run sampleTopics
               [MakeGuess 1 "ABCD" "ann" "false";
                MakeGuess 2 "ABCD" "bob" "true"] w).

(** The first round has been scored and shown; the phase is ["waiting"]
    for the three seconds before round 2 starts. *)
Definition betweenRounds : World := Eval vm_compute in
  orInitial (runUntil sampleTopics 200 2 82000 guessedAB).

(** The host leaves during that pause. *)
Definition hostLeftBetweenRounds : World := Eval vm_compute in
  orInitial (step sampleTopics (LeaveLobby 1 "ABCD" "ann") betweenRounds).

(** The host leaves while the votes of the first round are being cast. *)
Definition hostLeftWhileVoting : World := Eval vm_compute in
  orInitial (step sampleTopics (LeaveLobby 1 "ABCD" "ann") votedABC).

(** Forty seconds into the first round: the phase is ["confession"] and
    ["cat"] is the selected player. *)
Definition confessing : World := Eval vm_compute in
  orInitial (runUntil sampleTopics 200 2 40000 votedABC).

(** ["cat"] confesses ["true"], and changes it to ["false"] within the
    second that passes before the guessing phase starts. *)
Definition confessedTrue : World := Eval vm_compute in
  orInitial (step sampleTopics (MakeConfession 3 "ABCD" "cat" "true") confessing).

Definition confessedTwice : World := Eval vm_compute in
  orInitial (run sampleTopics
               [Elapse 500; MakeConfession 3 "ABCD" "cat" "false"] confessedTrue).

(** The host sends [start-game] once more, three seconds after the first
    time, while the countdown of the first round is running; at 6 s the
    votes are cast. *)
Definition startedTwice : World := Eval vm_compute in
  orInitial (w ← run sampleTopics threePlayers initialWorld;
             w ← runUntil sampleTopics 100 0 3000 w;
             w ← step sampleTopics (StartGame 1 "ABCD" "ann") w;
             w ← runUntil sampleTopics 100 0 6000 w;
             run sampleTopics
               [CastInitialVote 1 "ABCD" "ann" "yes";
                CastInitialVote 2 "ABCD" "bob" "yes";
                CastInitialVote 3 "ABCD" "cat" "no"] w).

(** The same session at 35.5 s. *)
Definition startedTwiceLater : World := Eval vm_compute in
  orInitial (runUntil sampleTopics 200 0 35500 startedTwice).

(** ["bob"] loses his connection at 10 s, during the first round. *)
Definition bobDisconnected : World := Eval vm_compute in
  orInitial (w ← runUntil sampleTopics 100 0 10000 votedABC;
             step sampleTopics (Disconnect 2) w).

(** He is back at 20 s, well within the five minutes: the client posts to
    [/api/lobby/join] and sends [join-lobby] on its new socket 4. *)
Definition bobRejoined : World := Eval vm_compute in
  orInitial (w ← runUntil sampleTopics 100 0 20000 bobDisconnected;
             run sampleTopics
               [HttpJoin "ABCD" "bob"; Connect 4; JoinLobby 4 "ABCD" "bob"] w).

Definition everyoneVotes : list Event :=
  [CastInitialVote 1 "ABCD" "ann" "yes";
   CastInitialVote 4 "ABCD" "bob" "yes";
   CastInitialVote 3 "ABCD" "cat" "no"].

(** The game goes on, everyone votes in rounds 2 and 3; this is the
    session at 359 s, in round 3. *)
Definition beforeCleanUp : World := Eval vm_compute in
  orInitial (w ← runUntil sampleTopics 1000 0 145000 bobRejoined;
             w ← run sampleTopics everyoneVotes w;
             w ← runUntil sampleTopics 1000 0 285000 w;
             w ← run sampleTopics everyoneVotes w;
             runUntil sampleTopics 1000 0 359000 w).

(** The clean-up interval runs at 360 s. *)
Definition afterCleanUp : World := Eval vm_compute in
  orInitial (runUntil sampleTopics 100 0 361000 beforeCleanUp).

(** A catalog file that holds the same line twice. *)
Definition dupTopics : list string := ["lied about my age"; "lied about my age"]%string.

(** A game on that catalog where [Math.random] picks the last available
    entry each time: the session one second into round 2. *)
Definition dupRoundTwo : World := Eval vm_compute in
  orInitial (w ← run dupTopics threePlayers initialWorld;
             w ← runUntil dupTopics 100 1 5000 w;
             w ← run dupTopics
                   [CastInitialVote 1 "ABCD" "ann" "yes";
                    CastInitialVote 2 "ABCD" "bob" "yes";
                    CastInitialVote 3 "ABCD" "cat" "no"] w;
             runUntil dupTopics 1000 1 143000 w).

(** A catalog of one prompt, and the session on it after the scoreboard of
    round 1 was shown. *)
Definition oneTopic : list string := ["gone skinny dipping"]%string.

Definition oneTopicScoreboard : World := Eval vm_compute in
  orInitial (w ← run oneTopic threePlayers initialWorld;
             w ← runUntil oneTopic 100 0 5000 w;
             w ← run oneTopic
                   [CastInitialVote 1 "ABCD" "ann" "yes";
                    CastInitialVote 2 "ABCD" "bob" "yes";
                    CastInitialVote 3 "ABCD" "cat" "no"] w;
             runUntil oneTopic 1000 0 138000 w).

Definition oneTopicOver : World := Eval vm_compute in
  orInitial (runUntil oneTopic 100 0 150000 oneTopicScoreboard).

(** The first round up to the votes of ["ann"] and ["bob"] at 5 s, event
    by event. *)
Definition firstVotes : list Event :=
  threePlayers
  ++ [Elapse 2000; FireTimeout 0 0]
  ++ concat (replicate 3 [Elapse 1000; FireInterval 1])
  ++ [CastInitialVote 1 "ABCD" "ann" "yes"; CastInitialVote 2 "ABCD" "bob" "yes"].

(** ["cat"] votes at 20 s, 18 seconds into the countdown: the results are
    scheduled for 21 s. *)
Definition lastVoteLate : list Event :=
  firstVotes
  ++ concat (replicate 15 [Elapse 1000; FireInterval 1])
  ++ [CastInitialVote 3 "ABCD" "cat" "no"].

Definition resultsDue : list Event := lastVoteLate ++ [Elapse 1000].

Definition allVotedLate : World := Eval vm_compute in
  orInitial (run sampleTopics resultsDue initialWorld).

Definition lateResults : World := Eval vm_compute in
  orInitial (step sampleTopics (FireTimeout 1 0) allVotedLate).

(** Instead, the host sends [restart-game] at 20.5 s, within the second
    that passes before the results are computed. *)
Definition restartInDelay : list Event :=
  lastVoteLate ++ [Elapse 500; RestartGame 1 "ABCD"; Elapse 500].

Definition restartedInDelay : World := Eval vm_compute in
  orInitial (run sampleTopics restartInDelay initialWorld).

Definition staleResults : World := Eval vm_compute in
  orInitial (step sampleTopics (FireTimeout 1 0) restartedInDelay).

(** ** Vocabulary of the further properties *)

(** With the guess [u ↦ guess] recorded, every connected participant of
    lobby [l] other than the selected player has guessed. *)
Definition allGuessersGuessed (u guess : string) (g : GameState) (l : Lobby) : Prop :=
  ∀ p, p ∈ participants l → connected p = true →
       selectedPlayer g ≠ Some (username p) →
       is_Some (<[u := guess]> (guesses g) !! username p).

(** Forty-five seconds into the first round: ["cat"] has confessed
    ["false"] and the guessing phase has run for four seconds. *)
Definition guessingStarted : World := Eval vm_compute in
  orInitial (w ← runUntil sampleTopics 200 2 40000 votedABC;
             w ← step sampleTopics (MakeConfession 3 "ABCD" "cat" "false") w;
             runUntil sampleTopics 200 2 45000 w).

(** The three players have joined lobby ["ABCD"]; the game is not started. *)
Definition lobbyReady : World := Eval vm_compute in
  orInitial (run sampleTopics
               [HttpCreate "ABCD" "ann"; HttpJoin "ABCD" "bob"; HttpJoin "ABCD" "cat";
                Connect 1; Connect 2; Connect 3;
                JoinLobby 1 "ABCD" "ann"; JoinLobby 2 "ABCD" "bob";
                JoinLobby 3 "ABCD" "cat"] initialWorld).

(** Participant [p] with the [connected] flag set to [b] if [p] is user [u]. *)
Definition markConnected (u : string) (b : bool) (p : Participant) : Participant :=
  if bool_decide (username p = u) then mkParticipant (username p) (isHost p) b else p.

(** The tracked entry is older than the five minutes the clean-up grants. *)
Definition expired (nw : Z) (e : string * Tracked) : Prop :=
  5 * 60 * 1000 < nw - t_timestamp e.2.

#[global] Instance expired_dec (nw : Z) (e : string * Tracked) : Decision (expired nw e) :=
  Z.lt_dec (5 * 60 * 1000) (nw - t_timestamp e.2).

(** [progresses g g']: the game-state object has not gone backwards: the
    number of rounds is the same, the round number is not lower, the record
    of used prompts was only extended at its end, and every score that was a
    number is a number that is not lower. *)
Definition progresses (g g' : GameState) : Prop :=
  totalRounds g' = totalRounds g
  ∧ roundNumber g ≤ roundNumber g'
  ∧ usedTopics g `prefix_of` usedTopics g'
  ∧ ∀ u z, scores g !! u = Some (Num z) →
           ∃ z', scores g' !! u = Some (Num z') ∧ z ≤ z'.

(** No game-state object is lost and each one has progressed. *)
Definition advances (w w' : World) : Prop :=
  (length (heap w) ≤ length (heap w'))%nat
  ∧ ∀ r g g', heap w !! r = Some g → heap w' !! r = Some g' → progresses g g'.

(** Lobbies, the registry of game states, the tracker of disconnected
    players, the sockets and the clock are the same. *)
Definition sameOutside (w w' : World) : Prop :=
  lobbies w' = lobbies w ∧ gameStates w' = gameStates w
  ∧ disconnectedPlayers w' = disconnectedPlayers w
  ∧ sockets w' = sockets w ∧ now w' = now w.

(** The event is a timeout or a countdown coming due: a turn of the game
    logic, not a request of a client and not the clean-up. *)
Definition gameLogicTurn (e : Event) (w : World) : Prop :=
  match e with
  | FireTimeout _ _ => True
  | FireInterval id =>
      ∃ iv c r cb, intervals w !! id = Some (Some iv) ∧ iv_body iv = Countdown c r cb
  | _ => False
  end.

(** The invariant of the three registries: a session with a game state
    has a lobby, and its game state is an object of the heap; the user names
    of a roster are pairwise distinct; and in a session with a game state
    every participant of the roster has a score that is a number. *)
Definition consistent (w : World) : Prop :=
  (∀ c r, gameStates w !! c = Some r →
          is_Some (lobbies w !! c) ∧ (r < length (heap w))%nat)
  ∧ (∀ c l, lobbies w !! c = Some l → NoDup (username <$> participants l))
  ∧ (∀ c l r g p, lobbies w !! c = Some l → lookup_gs c w = Some (r, g) →
                  p ∈ participants l → ∃ z, scores g !! username p = Some (Num z)).

(** [generateLobbyCode()] returned a code no lobby has. *)
Definition freshCode (e : Event) (w : World) : Prop :=
  ∀ c u, e = HttpCreate c u → lobbies w !! c = None.

(** Every running countdown is the one its game-state object records in
    [timerInterval]. *)
Definition countdownsRecorded (w : World) : Prop :=
  ∀ id iv c r cb,
    intervals w !! id = Some (Some iv) → iv_body iv = Countdown c r cb →
    ∃ g, heap w !! r = Some g ∧ timerInterval g = Some id.

(** No game-state object has two running countdowns. *)
Definition atMostOneCountdown (w : World) : Prop :=
  ∀ id1 id2 iv1 iv2 c1 c2 r cb1 cb2,
    intervals w !! id1 = Some (Some iv1) → iv_body iv1 = Countdown c1 r cb1 →
    intervals w !! id2 = Some (Some iv2) → iv_body iv2 = Countdown c2 r cb2 →
    id1 = id2.

(** Two seconds after [start-game] the first prompt is shown and the
    countdown of the first round is installed. *)
Definition firstPrompt : list Event :=
  threePlayers ++ [Elapse 2000; FireTimeout 0 0].

Definition countingDown : World := Eval vm_compute in
  orInitial (run sampleTopics firstPrompt initialWorld).

(** The eight phase names the server assigns. *)
Definition knownPhase (p : string) : Prop :=
  p = "initial-voting" ∨ p = "initial-results" ∨ p = "player-selection"
  ∨ p = "confession" ∨ p = "guessing" ∨ p = "confession-results"
  ∨ p = "scoreboard" ∨ p = "waiting".

Definition phasesKnown (w : World) : Prop :=
  ∀ r g, heap w !! r = Some g → knownPhase (phase g).
(** * Properties *)

(** ** Registry look-ups *)

Lemma lookup_gs_Some (c : string) (w : World) (r : nat) (g : GameState) :
  lookup_gs c w = Some (r, g) ↔ gameStates w !! c = Some r ∧ heap w !! r = Some g.
Proof.
  unfold lookup_gs. split.
  - destruct (gameStates w !! c) as [r'|]; [|done].
    destruct (heap w !! r') as [g'|] eqn:Hg; [|done]. intros [= <- <-]. done.
  - by intros [-> ->].
Qed.

Lemma lookup_gs_heap (c : string) (w : World) (r : nat) (g : GameState) :
  lookup_gs c w = Some (r, g) → heap w !! r = Some g.
Proof. intros H. by apply lookup_gs_Some in H as [_ ?]. Qed.

Lemma heap_modify_gs_eq (r : nat) (f : GameState → GameState) (w : World) :
  heap (modify_gs r f w) !! r = f <$> heap w !! r.
Proof. apply list_lookup_alter_eq. Qed.

Lemma heap_modify_gs_ne (r r' : nat) (f : GameState → GameState) (w : World) :
  r ≠ r' → heap (modify_gs r f w) !! r' = heap w !! r'.
Proof. intros. by apply list_lookup_alter_ne. Qed.

(** ** Scores *)

Lemma addScore_lookup_eq (k : Z) (u : string) (sc : gmap string jsnum) (z : Z) :
  sc !! u = Some (Num z) → addScore k u sc !! u = Some (Num (z + k)).
Proof. intros H. unfold addScore. by rewrite lookup_insert_eq, H. Qed.

Lemma addScore_lookup_ne (k : Z) (u u' : string) (sc : gmap string jsnum) :
  u ≠ u' → addScore k u sc !! u' = sc !! u'.
Proof. intros H. unfold addScore. by rewrite lookup_insert_ne. Qed.

Lemma addScore_dom (k : Z) (u : string) (sc : gmap string jsnum) :
  dom sc ⊆ dom (addScore k u sc).
Proof. unfold addScore. set_solver. Qed.

Lemma seedScores_lookup_in (ps : list Participant) (sc : gmap string jsnum) (u : string) :
  u ∈ username <$> ps → seedScores ps sc !! u = Some (Num 0).
Proof.
  unfold seedScores. revert sc. induction ps as [|p ps IH] using rev_ind; intros sc Hin.
  - by apply elem_of_nil in Hin.
  - rewrite foldl_app. simpl. rewrite fmap_app in Hin. simpl in Hin.
    destruct (decide (username p = u)) as [->|Hne].
    + by rewrite lookup_insert_eq.
    + rewrite lookup_insert_ne by done. apply IH. set_solver.
Qed.

Lemma seedScores_lookup_notin (ps : list Participant) (sc : gmap string jsnum) (u : string) :
  u ∉ username <$> ps → seedScores ps sc !! u = sc !! u.
Proof.
  unfold seedScores. revert sc. induction ps as [|p ps IH]; intros sc Hin; [done|].
  simpl. rewrite IH by set_solver. rewrite lookup_insert_ne; [done|]. set_solver.
Qed.

Lemma seedScores_dom (ps : list Participant) (sc : gmap string jsnum) :
  dom sc ⊆ dom (seedScores ps sc).
Proof.
  unfold seedScores. revert sc. induction ps as [|p ps IH]; intros sc; [done|].
  simpl. etrans; [|apply IH]. set_solver.
Qed.

(** ** The initial-vote tally and the majority award *)

Lemma foldl_countVote (g : GameState) (ps : list Participant) (acc : Z * Z) :
  foldl (countVote g) acc ps =
    (acc.1 + Z.of_nat (length (List.filter (votedFor g "yes") (List.filter connected ps))),
     acc.2 + Z.of_nat (length (List.filter (votedFor g "no") (List.filter connected ps)))).
Proof.
  revert acc. induction ps as [|p ps IH]; intros [y n]; simpl.
  - f_equal; lia.
  - rewrite IH. unfold countVote, votedFor. destruct (connected p); simpl; [|done].
    destruct (initialVotes g !! username p) as [v|]; simpl.
    + repeat case_bool_decide; simplify_eq; simpl; f_equal; lia.
    + repeat case_bool_decide; simplify_eq; done.
Qed.

Lemma countVotes_connected_only (g : GameState) (ps : list Participant) :
  countVotes g ps =
    (Z.of_nat (length (List.filter (votedFor g "yes") (List.filter connected ps))),
     Z.of_nat (length (List.filter (votedFor g "no") (List.filter connected ps)))).
Proof. unfold countVotes. by rewrite foldl_countVote. Qed.

Lemma foldl_awardVote_notin (g : GameState) (m : string) (ps : list Participant)
    (sc : gmap string jsnum) (u : string) :
  u ∉ username <$> ps → foldl (awardVote g m) sc ps !! u = sc !! u.
Proof.
  revert sc. induction ps as [|p ps IH]; intros sc Hin; [done|].
  simpl. rewrite IH by set_solver. unfold awardVote. case_bool_decide; [|done].
  apply addScore_lookup_ne. set_solver.
Qed.

Lemma foldl_awardVote_in (g : GameState) (m : string) (ps : list Participant)
    (sc : gmap string jsnum) (p : Participant) :
  NoDup (username <$> ps) → p ∈ ps →
  foldl (awardVote g m) sc ps !! username p = awardVote g m sc p !! username p.
Proof.
  revert sc. induction ps as [|q ps IH]; intros sc Hnd Hin.
  - by apply elem_of_nil in Hin.
  - rewrite fmap_cons in Hnd. apply NoDup_cons in Hnd as [Hq Hnd].
    apply elem_of_cons in Hin as [->|Hin]; simpl.
    + by rewrite foldl_awardVote_notin.
    + rewrite IH by done.
      assert (username q ≠ username p) by (intros Heq; apply Hq; rewrite Heq; set_solver).
      unfold awardVote, addScore.
      repeat case_bool_decide; try done;
        by rewrite ?lookup_insert_eq, ?(lookup_insert_ne _ (username q)) by done.
Qed.

Lemma foldl_awardVote_unvoted (g : GameState) (m : string) (ps : list Participant)
    (sc : gmap string jsnum) (u : string) :
  initialVotes g !! u ≠ Some m → foldl (awardVote g m) sc ps !! u = sc !! u.
Proof.
  revert sc. induction ps as [|p ps IH]; intros sc Hv; [done|].
  simpl. rewrite IH by done. unfold awardVote. case_bool_decide; [|done].
  apply addScore_lookup_ne. congruence.
Qed.

Lemma calculateInitialResults_heap (c : string) (w : World) (r : nat) (g : GameState)
    (l : Lobby) :
  lookup_gs c w = Some (r, g) → lobbies w !! c = Some l →
  heap (calculateInitialResults c w) !! r =
    Some (set_phase "initial-results"
            (set_scores
               (awardMajority g (majorityOf (countVotes g (participants l))) (participants l))
               g)).
Proof.
  intros Hg Hl. unfold calculateInitialResults. rewrite Hg, Hl. cbn.
  rewrite !list_lookup_alter_eq, (lookup_gs_heap _ _ _ _ Hg). done.
Qed.

(** C1.  When [calculateInitialResults] closes the initial voting of a
    session, the tally [(yes, no)] counts the votes of connected
    participants only.  If one option has strictly more tallied votes, every
    connected participant of the roster whose recorded vote is that option
    gains exactly 1 point, and whoever did not vote for it keeps their
    score; on a tie the score table is left as it was. *)
Theorem calculateInitialResults_majority_scoring (c : string) (w : World) (r : nat)
    (g : GameState) (l : Lobby) :
  lookup_gs c w = Some (r, g) →
  lobbies w !! c = Some l →
  NoDup (username <$> participants l) →
  let connectedPlayers := List.filter connected (participants l) in
  let yes := Z.of_nat (length (List.filter (votedFor g "yes") connectedPlayers)) in
  let no := Z.of_nat (length (List.filter (votedFor g "no") connectedPlayers)) in
  ∃ g', heap (calculateInitialResults c w) !! r = Some g'
    ∧ countVotes g (participants l) = (yes, no)
    ∧ (∀ m, (m = "yes" ∧ no < yes) ∨ (m = "no" ∧ yes < no) →
         (∀ p z, p ∈ participants l → connected p = true →
                 initialVotes g !! username p = Some m →
                 scores g !! username p = Some (Num z) →
                 scores g' !! username p = Some (Num (z + 1)))
         ∧ (∀ u, initialVotes g !! u ≠ Some m → scores g' !! u = scores g !! u))
    ∧ (yes = no → scores g' = scores g).
Proof.
  intros Hg Hl Hnd connectedPlayers yes no.
  eexists. split; [by apply calculateInitialResults_heap|].
  pose proof (countVotes_connected_only g (participants l)) as Hcount.
  fold connectedPlayers in Hcount. fold yes no in Hcount.
  split; [done|]. rewrite Hcount. cbn [scores set_phase set_scores].
  split.
  - intros m Hm.
    assert (majorityOf (yes, no) = Some m) as ->.
    { unfold majorityOf. cbn [fst snd].
      destruct Hm as [[-> ?]|[-> ?]]; repeat case_bool_decide; done || lia. }
    cbn [awardMajority]. split.
    + intros p z Hp _ Hv Hz. rewrite foldl_awardVote_in by done.
      unfold awardVote. rewrite bool_decide_eq_true_2 by done.
      by apply addScore_lookup_eq.
    + intros u Hu. by apply foldl_awardVote_unvoted.
  - intros Htie. unfold majorityOf. cbn [fst snd].
    repeat case_bool_decide; done || lia.
Qed.

Lemma calculateInitialResults_majority_scoring_witness :
  let g := gameStateOf "ABCD" votedABC in
  ∃ g', heap (calculateInitialResults "ABCD" votedABC) !! 0%nat = Some g'
        ∧ scores g !! "ann" = Some (Num 0) ∧ scores g' !! "ann" = Some (Num 1)
        ∧ scores g !! "bob" = Some (Num 0) ∧ scores g' !! "bob" = Some (Num 1)
        ∧ scores g !! "cat" = Some (Num 0) ∧ scores g' !! "cat" = Some (Num 0).
Proof.
  intros g.
  destruct (calculateInitialResults_majority_scoring "ABCD" votedABC 0 g
              (lobbyOf "ABCD" votedABC))
    as (g' & Hheap & _ & Hmaj & _).
  - vm_compute. reflexivity.
  - vm_compute. reflexivity.
  - apply (bool_decide_unpack _). vm_compute. exact I.
  - exists g'. split; [exact Hheap|].
    destruct (Hmaj "yes") as [Hwin Hrest].
    { left. split; [reflexivity|]. vm_compute. reflexivity. }
    split; [vm_compute; reflexivity|]. split.
    { apply (Hwin (mkParticipant "ann" true true) 0);
        [apply list_elem_of_In; vm_compute; auto 10
        |vm_compute; reflexivity..]. }
    split; [vm_compute; reflexivity|]. split.
    { apply (Hwin (mkParticipant "bob" false true) 0);
        [apply list_elem_of_In; vm_compute; auto 10
        |vm_compute; reflexivity..]. }
    split; [vm_compute; reflexivity|].
    rewrite Hrest; vm_compute; [reflexivity|discriminate].
Defined.

(** ** The guess tally and the award for a correct guess *)

Lemma elem_of_filter_bool {A} (f : A → bool) (l : list A) (x : A) :
  x ∈ List.filter f l ↔ x ∈ l ∧ f x = true.
Proof. rewrite !list_elem_of_In. apply filter_In. Qed.

Lemma foldl_countGuess (g : GameState) (ps : list Participant) (acc : Z * Z) :
  foldl (countGuess g) acc ps =
    (acc.1 + Z.of_nat (length (List.filter (guessed g "true") (List.filter (canGuess g) ps))),
     acc.2 + Z.of_nat (length (List.filter (guessed g "false") (List.filter (canGuess g) ps)))).
Proof.
  revert acc. induction ps as [|p ps IH]; intros [y n]; simpl.
  - f_equal; lia.
  - rewrite IH. unfold countGuess, guessed. destruct (canGuess g p); simpl; [|done].
    destruct (guesses g !! username p) as [v|]; simpl.
    + repeat case_bool_decide; simplify_eq; simpl; f_equal; lia.
    + repeat case_bool_decide; simplify_eq; done.
Qed.

Lemma foldl_awardGuess_other (g : GameState) (a : string) (ps : list Participant)
    (sc : gmap string jsnum) (u : string) :
  (∀ p, p ∈ ps → username p = u → canGuess g p && guessed g a p = false) →
  foldl (awardGuess g a) sc ps !! u = sc !! u.
Proof.
  revert sc. induction ps as [|p ps IH]; intros sc Hno; [done|].
  simpl. rewrite IH by (intros q ?; apply Hno; set_solver).
  unfold awardGuess. destruct (decide (username p = u)) as [Hu|Hu].
  - fold (guessed g a p). rewrite (Hno p) by set_solver. done.
  - destruct (canGuess g p && _); [|done]. by apply addScore_lookup_ne.
Qed.

Lemma foldl_awardGuess_in (g : GameState) (a : string) (ps : list Participant)
    (sc : gmap string jsnum) (p : Participant) :
  NoDup (username <$> ps) → p ∈ ps →
  foldl (awardGuess g a) sc ps !! username p = awardGuess g a sc p !! username p.
Proof.
  revert sc. induction ps as [|q ps IH]; intros sc Hnd Hin.
  - by apply elem_of_nil in Hin.
  - rewrite fmap_cons in Hnd. apply NoDup_cons in Hnd as [Hq Hnd].
    apply elem_of_cons in Hin as [->|Hin]; simpl.
    + apply foldl_awardGuess_other. intros p' Hp' Heq.
      exfalso. apply Hq. rewrite <- Heq. set_solver.
    + rewrite IH by done.
      assert (username q ≠ username p) by (intros Heq; apply Hq; rewrite Heq; set_solver).
      unfold awardGuess, addScore.
      destruct (canGuess g q && _), (canGuess g p && _); try done;
        by rewrite ?lookup_insert_eq, ?(lookup_insert_ne _ (username q)) by done.
Qed.

Lemma calculateConfessionResults_heap (c : string) (w : World) (r : nat) (g : GameState)
    (l : Lobby) :
  lookup_gs c w = Some (r, g) → lobbies w !! c = Some l →
  heap (calculateConfessionResults c w) !! r =
    Some (set_phase "confession-results" (set_scores (awardGuessers g (participants l)) g)).
Proof.
  intros Hg Hl. unfold calculateConfessionResults. rewrite Hg, Hl. cbn.
  rewrite !list_lookup_alter_eq, (lookup_gs_heap _ _ _ _ Hg). done.
Qed.

(** C4.  When [calculateConfessionResults] runs, the actual confession is
    the stored one (a non-empty string), and ["true"] if none was stored.
    The eligible guessers are the connected participants other than the
    selected player: the tally counts their guesses only, each of them
    whose guess equals the actual confession gains exactly 3 points, every
    other score is unchanged, and the selected player, though in the
    roster, is not among them.  The broadcast carries the actual
    confession. *)
Theorem calculateConfessionResults_guess_scoring (c : string) (w : World) (r : nat)
    (g : GameState) (l : Lobby) :
  lookup_gs c w = Some (r, g) →
  lobbies w !! c = Some l →
  NoDup (username <$> participants l) →
  let actual := actualConfessionOf g in
  let eligibleGuessers := List.filter (canGuess g) (participants l) in
  let honest := Z.of_nat (length (List.filter (guessed g "true") eligibleGuessers)) in
  let lied := Z.of_nat (length (List.filter (guessed g "false") eligibleGuessers)) in
  ∃ g', heap (calculateConfessionResults c w) !! r = Some g'
    ∧ (confession g = None → actual = "true")
    ∧ (∀ s, confession g = Some s → s ≠ "" → actual = s)
    ∧ head (emitted (calculateConfessionResults c w)) =
        Some (ToRoom c, ConfessionResults honest lied actual (selectedPlayer g))
    ∧ (∀ p z, p ∈ eligibleGuessers →
              guesses g !! username p = Some actual →
              scores g !! username p = Some (Num z) →
              scores g' !! username p = Some (Num (z + 3)))
    ∧ (∀ u, (∀ p, p ∈ eligibleGuessers → username p = u →
                  guesses g !! u ≠ Some actual) →
            scores g' !! u = scores g !! u)
    ∧ (∀ p, p ∈ participants l → selectedPlayer g = Some (username p) →
            (p ∉ eligibleGuessers) ∧ scores g' !! username p = scores g !! username p).
Proof.
  intros Hg Hl Hnd actual eligibleGuessers honest lied.
  assert (∀ u, (∀ p, p ∈ eligibleGuessers → username p = u →
                     guesses g !! u ≠ Some actual) →
               awardGuessers g (participants l) !! u = scores g !! u) as Hother.
  { intros u Hu. apply foldl_awardGuess_other. intros p Hp Heq.
    destruct (canGuess g p) eqn:Hcan; [|done]. simpl. unfold guessed.
    apply bool_decide_eq_false_2. rewrite Heq. apply (Hu p); [|done].
    by apply elem_of_filter_bool. }
  eexists. split; [by apply calculateConfessionResults_heap|].
  cbn [scores set_phase set_scores].
  split; [|split; [|split; [|split; [|split; [done|]]]]].
  - unfold actual, actualConfessionOf. by intros ->.
  - unfold actual, actualConfessionOf. intros s -> Hs.
    by rewrite bool_decide_eq_false_2.
  - unfold calculateConfessionResults. rewrite Hg, Hl. cbn.
    unfold countGuesses. rewrite foldl_countGuess. done.
  - intros p z Hp Hguess Hz. apply elem_of_filter_bool in Hp as [Hp Hcan].
    unfold awardGuessers. rewrite foldl_awardGuess_in by done.
    unfold awardGuess. fold actual. rewrite Hcan, bool_decide_eq_true_2 by done.
    by apply addScore_lookup_eq.
  - intros p Hp Hsel.
    assert (canGuess g p = false) as Hno.
    { unfold canGuess. rewrite bool_decide_eq_true_2 by done. apply andb_false_r. }
    split.
    + intros Hin. apply elem_of_filter_bool in Hin as [_ Hcan]. congruence.
    + apply Hother. intros q Hq Heq. apply elem_of_filter_bool in Hq as [_ Hcan].
      unfold canGuess in Hcan. rewrite Heq, bool_decide_eq_true_2 in Hcan by done.
      by rewrite andb_false_r in Hcan.
Qed.

Lemma calculateConfessionResults_guess_scoring_witness :
  let g := gameStateOf "ABCD" guessedAB in
  ∃ g', heap (calculateConfessionResults "ABCD" guessedAB) !! 0%nat = Some g'
        ∧ selectedPlayer g = Some "cat" ∧ confession g = Some "false"
        ∧ scores g !! "ann" = Some (Num 1) ∧ scores g' !! "ann" = Some (Num 4)
        ∧ scores g !! "bob" = Some (Num 1) ∧ scores g' !! "bob" = Some (Num 1)
        ∧ scores g !! "cat" = Some (Num 0) ∧ scores g' !! "cat" = Some (Num 0).
Proof.
  intros g.
  destruct (calculateConfessionResults_guess_scoring "ABCD" guessedAB 0 g
              (lobbyOf "ABCD" guessedAB))
    as (g' & Hheap & _ & _ & _ & Hwin & Hrest & Hsel).
  - vm_compute. reflexivity.
  - vm_compute. reflexivity.
  - apply (bool_decide_unpack _). vm_compute. exact I.
  - exists g'. split; [exact Hheap|].
    split; [vm_compute; reflexivity|]. split; [vm_compute; reflexivity|].
    split; [vm_compute; reflexivity|]. split.
    { apply (Hwin (mkParticipant "ann" true true) 1);
        [apply list_elem_of_In; vm_compute; auto 10
        |vm_compute; reflexivity..]. }
    split; [vm_compute; reflexivity|]. split.
    { rewrite (Hrest "bob"); [vm_compute; reflexivity|].
      intros p _ _. vm_compute. discriminate. }
    split; [vm_compute; reflexivity|].
    etrans; [exact (proj2 (Hsel (mkParticipant "cat" false true)
                             ltac:(apply list_elem_of_In; vm_compute; auto 10)
                             ltac:(vm_compute; reflexivity)))|].
    vm_compute. reflexivity.
Defined.

Lemma awardMajority_dom (g : GameState) (mv : option string) (ps : list Participant) :
  dom (scores g) ⊆ dom (awardMajority g mv ps).
Proof.
  unfold awardMajority. destruct mv as [m|]; [|done].
  generalize (scores g). induction ps as [|p ps IH]; intros sc; [done|].
  simpl. etrans; [|apply IH]. unfold awardVote. case_bool_decide; [|done].
  apply addScore_dom.
Qed.

Lemma awardGuessers_dom (g : GameState) (ps : list Participant) :
  dom (scores g) ⊆ dom (awardGuessers g ps).
Proof.
  unfold awardGuessers. generalize (scores g).
  induction ps as [|p ps IH]; intros sc; [done|].
  simpl. etrans; [|apply IH]. unfold awardGuess. destruct (canGuess g p && _); [|done].
  apply addScore_dom.
Qed.

Create HintDb evolves.

(** ** What a turn of the event loop preserves

    The lemmas of this section follow the call graph of [server.js]: one
    lemma per function, each from those of the functions it calls.  They
    are stated for any set of [allowed] phases and callbacks that leaves out
    at most ["initial-results"] and [CbCalcInitial]; the functions that
    enter that phase, schedule that callback or delete a lobby ask for the
    permission. *)
Section Evolution.

Variable allowed : string → Prop.
Variable allowedCb : TimeoutCb → Prop.
Variable allowClose : Prop.
Variable neverHaveIEverTopics : list string.

Hypothesis allowed_other : ∀ p, p ≠ "initial-results" → allowed p.
Hypothesis allowedCb_other : ∀ cb, (∀ c, cb ≠ CbCalcInitial c) → allowedCb cb.

Local Abbreviation gsEv := (gsEvolves allowed).
Local Abbreviation ev := (evolves allowed allowedCb allowClose).

Lemma gsEvolves_refl (g : GameState) : gsEv g g.
Proof. split; [by left|done]. Qed.

Lemma gsEvolves_trans (g1 g2 g3 : GameState) : gsEv g1 g2 → gsEv g2 g3 → gsEv g1 g3.
Proof.
  intros [Hp1 Hs1] [Hp2 Hs2]. split; [|set_solver].
  destruct Hp2 as [Hp2|Hp2]; [|by right].
  rewrite Hp2. done.
Qed.

(** A change that touches neither the phase nor the score table. *)
Lemma gsEvolves_same (g g' : GameState) :
  phase g' = phase g → scores g' = scores g → gsEv g g'.
Proof. intros Hp Hs. split; [by left|by rewrite Hs]. Qed.

Lemma gsEvolves_phase (g : GameState) (p : string) :
  p ≠ "initial-results" → gsEv g (set_phase p g).
Proof. intros Hp. split; [right; by apply allowed_other|done]. Qed.

Lemma evolves_refl (w : World) : ev w w.
Proof.
  split; [done|]. split; [|split; [by left|by right]].
  intros r g g' H1 H2. simplify_eq. apply gsEvolves_refl.
Qed.

Lemma evolves_trans (w1 w2 w3 : World) : ev w1 w2 → ev w2 w3 → ev w1 w3.
Proof.
  intros (Hl1 & Hh1 & Ht1 & Hc1) (Hl2 & Hh2 & Ht2 & Hc2).
  split; [lia|]. split; [|split].
  - intros r g1 g3 H1 H3.
    destruct (lookup_lt_is_Some_2 (heap w2) r) as [g2 H2].
    { apply lookup_lt_Some in H1. lia. }
    eapply gsEvolves_trans; eauto.
  - intros id due cb H3. destruct (Ht2 _ _ _ H3) as [H2|?]; [|by right].
    by apply Ht1.
  - destruct Hc1 as [?|Hc1]; [by left|]. destruct Hc2 as [?|Hc2]; [by left|].
    right. set_solver.
Qed.

(** Nothing the relation looks at has changed. *)
Lemma evolves_same (w w' : World) :
  heap w' = heap w → timeouts w' = timeouts w → lobbies w' = lobbies w → ev w w'.
Proof.
  intros Hh Ht Hl. unfold evolves. rewrite Hh, Ht, Hl.
  apply (evolves_refl w).
Qed.

Lemma evolves_modify_gs (r : nat) (f : GameState → GameState) (w : World) :
  (∀ g, heap w !! r = Some g → gsEv g (f g)) → ev w (modify_gs r f w).
Proof.
  intros Hf. unfold evolves, modify_gs. cbn. rewrite length_alter.
  split; [done|]. split; [|split; [by left|by right]].
  intros r' g g' H1 H2. destruct (decide (r = r')) as [<-|Hne].
  - rewrite list_lookup_alter_eq, H1 in H2. simplify_eq/=. by apply Hf.
  - rewrite list_lookup_alter_ne, H1 in H2 by done. simplify_eq.
    apply gsEvolves_refl.
Qed.

Lemma evolves_setTimeout (cb : TimeoutCb) (delay : Z) (w : World) :
  allowedCb cb → ev w (setTimeout cb delay w).
Proof.
  intros Hcb. unfold evolves, setTimeout. cbn.
  split; [done|]. split; [|split; [|by right]].
  - intros r g g' H1 H2. simplify_eq. apply gsEvolves_refl.
  - intros id due cb' H.
    destruct (decide (id < length (timeouts w))%nat) as [Hlt|Hge].
    + rewrite lookup_app_l in H by done. by left.
    + rewrite lookup_app_r in H by lia.
      destruct (id - length (timeouts w))%nat; simplify_eq/=. by right.
Qed.

(** A timeout that fires leaves the table. *)
Lemma evolves_fire (id : nat) (w : World) :
  ev w (set_timeouts (<[id := None]> (timeouts w)) w).
Proof.
  unfold evolves. cbn. split; [done|]. split; [|split; [|by right]].
  - intros r g g' H1 H2. simplify_eq. apply gsEvolves_refl.
  - intros id' due cb H. left. destruct (decide (id = id')) as [<-|Hne].
    + apply list_lookup_insert_Some in H. naive_solver.
    + by rewrite list_lookup_insert_ne in H.
Qed.

Lemma evolves_alloc (g : GameState) (w : World) : ev w (set_heap (heap w ++ [g]) w).
Proof.
  unfold evolves. cbn. rewrite length_app. split; [lia|].
  split; [|split; [by left|by right]].
  intros r g1 g2 H1 H2. rewrite (lookup_app_l_Some _ _ _ _ H1) in H2.
  simplify_eq. apply gsEvolves_refl.
Qed.

Lemma evolves_insert_lobby (c : string) (l : Lobby) (w : World) :
  ev w (set_lobbies (<[c := l]> (lobbies w)) w).
Proof.
  unfold evolves. cbn. split; [done|]. split; [|split; [by left|right; set_solver]].
  intros r g g' H1 H2. simplify_eq. apply gsEvolves_refl.
Qed.

Lemma evolves_delete_lobby (c : string) (w : World) :
  allowClose → ev w (set_lobbies (delete c (lobbies w)) w).
Proof.
  intros Hc. unfold evolves. cbn. split; [done|]. split; [|split; by left].
  intros r g g' H1 H2. simplify_eq. apply gsEvolves_refl.
Qed.

(** Peels the outermost update off the world on the right-hand side. *)
Ltac ev_same x :=
  apply (evolves_trans _ x); [|by apply evolves_same].

Ltac ev_cb :=
  first [ assumption
        | by (apply allowedCb_other; intros ? ?; discriminate) ].

Ltac ev_gs :=
  first [ by apply gsEvolves_same
        | by (apply gsEvolves_phase; discriminate)
        | by (split; [by right|done])
        | idtac ].

Ltac ev_peel :=
  lazymatch goal with
  | |- evolves _ _ _ ?w ?w => apply evolves_refl
  | |- evolves _ _ _ _ (emit _ _ ?x) => ev_same x
  | |- evolves _ _ _ _ (clearInterval _ ?x) => ev_same x
  | |- evolves _ _ _ _ (set_intervals _ ?x) => ev_same x
  | |- evolves _ _ _ _ (set_sockets _ ?x) => ev_same x
  | |- evolves _ _ _ _ (set_disconnectedPlayers _ ?x) => ev_same x
  | |- evolves _ _ _ _ (set_gameStates _ ?x) => ev_same x
  | |- evolves _ _ _ _ (set_now _ ?x) => ev_same x
  | |- evolves _ _ _ _ (set_emitted _ ?x) => ev_same x
  | |- evolves _ _ _ _ (setTimeout ?cb _ ?x) =>
      apply (evolves_trans _ x); [|apply evolves_setTimeout; ev_cb]
  | |- evolves _ _ _ _ (modify_gs ?r ?f ?x) =>
      apply (evolves_trans _ x); [|apply evolves_modify_gs; intros ? ?; ev_gs]
  | |- evolves _ _ _ _ (set_timeouts (<[_ := None]> (timeouts ?x)) ?x) =>
      apply (evolves_trans _ x); [|apply evolves_fire]
  | |- evolves _ _ _ _ (set_heap (heap ?x ++ [_]) ?x) =>
      apply (evolves_trans _ x); [|apply evolves_alloc]
  | |- evolves _ _ _ _ (set_lobbies (<[_ := _]> (lobbies ?x)) ?x) =>
      apply (evolves_trans _ x); [|apply evolves_insert_lobby]
  | |- evolves _ _ _ _ (set_lobbies (delete _ (lobbies ?x)) ?x) =>
      apply (evolves_trans _ x); [|apply evolves_delete_lobby]
  | |- evolves _ _ _ _ (?F ?x) =>
      apply (evolves_trans _ x); [|solve [eauto 3 with evolves]]
  end.

Ltac ev_go := cbv zeta; repeat ev_peel.

Lemma endGame_evolves (c : string) (w : World) : ev w (endGame c w).
Proof. unfold endGame. repeat case_match; ev_go. Qed.
Hint Resolve endGame_evolves : evolves.

Lemma startTimer_evolves (c : string) (s : Z) (cb : TimerCb) (w : World) :
  ev w (startTimer c s cb w).
Proof. unfold startTimer, setInterval. repeat case_match; simplify_eq; ev_go. Qed.
Hint Resolve startTimer_evolves : evolves.

Lemma showScoreboard_evolves (c : string) (w : World) : ev w (showScoreboard c w).
Proof. unfold showScoreboard. repeat case_match; ev_go. Qed.
Hint Resolve showScoreboard_evolves : evolves.

Lemma scoreboardNext_evolves (c : string) (r : nat) (w : World) :
  ev w (scoreboardNext neverHaveIEverTopics c r w).
Proof. unfold scoreboardNext. repeat case_match; ev_go. Qed.
Hint Resolve scoreboardNext_evolves : evolves.

Lemma calculateConfessionResults_evolves (c : string) (w : World) :
  ev w (calculateConfessionResults c w).
Proof.
  unfold calculateConfessionResults.
  destruct (lookup_gs c w) as [[r g]|] eqn:Hg; [|ev_go].
  destruct (lookup_gs_Some c w r g) as [[_ Hh] _]; [done|].
  case_match; ev_go.
  simplify_eq. split; [by left|apply awardGuessers_dom].
Qed.
Hint Resolve calculateConfessionResults_evolves : evolves.

Lemma startGuessingPhase_evolves (c : string) (w : World) : ev w (startGuessingPhase c w).
Proof. unfold startGuessingPhase. repeat case_match; ev_go. Qed.
Hint Resolve startGuessingPhase_evolves : evolves.

Lemma startConfessionPhase_evolves (c : string) (w : World) :
  ev w (startConfessionPhase c w).
Proof. unfold startConfessionPhase. repeat case_match; ev_go. Qed.
Hint Resolve startConfessionPhase_evolves : evolves.

Lemma selectRandomPlayer_evolves (c : string) (rnd : nat) (w : World) :
  ev w (selectRandomPlayer c rnd w).
Proof. unfold selectRandomPlayer. repeat case_match; ev_go. Qed.
Hint Resolve selectRandomPlayer_evolves : evolves.

Lemma calculateInitialResults_evolves (c : string) (w : World) :
  allowed "initial-results" → ev w (calculateInitialResults c w).
Proof.
  intros Hres. unfold calculateInitialResults.
  destruct (lookup_gs c w) as [[r g]|] eqn:Hg; [|ev_go].
  destruct (lookup_gs_Some c w r g) as [[_ Hh] _]; [done|].
  case_match; ev_go.
  simplify_eq. split; [by left|apply awardMajority_dom].
Qed.

Lemma startInitialVotingPhase_evolves (c : string) (rnd : nat) (w : World) :
  ev w (startInitialVotingPhase neverHaveIEverTopics c rnd w).
Proof.
  unfold startInitialVotingPhase.
  destruct (lookup_gs c w) as [[r g]|] eqn:Hg; [|ev_go].
  destruct (lookup_gs_Some c w r g) as [[_ Hh] _]; [done|].
  repeat case_match; ev_go.
  simplify_eq. split; [right; apply allowed_other; discriminate|done].
Qed.
Hint Resolve startInitialVotingPhase_evolves : evolves.

Lemma runTimerCb_evolves (cb : TimerCb) (w : World) :
  allowed "initial-results" ∨ (∀ c, cb ≠ TcCalcInitial c) → ev w (runTimerCb cb w).
Proof.
  intros Hres. destruct cb as [c|c r|c]; simpl.
  - destruct Hres as [?|Hne]; [by apply calculateInitialResults_evolves|].
    by destruct (Hne c).
  - ev_go. destruct (confession _); by apply gsEvolves_same.
  - apply calculateConfessionResults_evolves.
Qed.

Lemma countdownTick_evolves (c : string) (r : nat) (cb : TimerCb) (w : World) :
  allowed "initial-results" ∨ (∀ c, cb ≠ TcCalcInitial c)
  ∨ (∀ g, heap w !! r = Some g → 0 < timer g - 1) →
  ev w (countdownTick c r cb w).
Proof.
  intros Hres. unfold countdownTick.
  destruct (heap w !! r) as [g|] eqn:Hg; [|ev_go].
  case_bool_decide as Ht; [|ev_go].
  cbv zeta. eapply evolves_trans; [|apply runTimerCb_evolves]; [ev_go|].
  destruct Hres as [?|[?|Hpos]]; [by left|by right|].
  specialize (Hpos g eq_refl). lia.
Qed.

Lemma httpCreate_evolves (c u : string) (w : World) : ev w (httpCreate c u w).
Proof. unfold httpCreate. repeat case_match; ev_go. Qed.
Hint Resolve httpCreate_evolves : evolves.

Lemma httpJoin_evolves (c u : string) (w : World) : ev w (httpJoin c u w).
Proof.
  unfold httpJoin. repeat case_match; ev_go.
  match goal with H : lookup_gs _ _ = Some _ |- _ => apply lookup_gs_heap in H end.
  simplify_eq/=. split; [by left|]. cbn. set_solver.
Qed.
Hint Resolve httpJoin_evolves : evolves.

Lemma syncGameStateToPlayer_evolves (sid : nat) (c : string) (w : World) :
  ev w (syncGameStateToPlayer sid c w).
Proof. unfold syncGameStateToPlayer. repeat case_match; ev_go. Qed.
Hint Resolve syncGameStateToPlayer_evolves : evolves.

Lemma joinLobby_evolves (sid : nat) (c u : string) (w : World) :
  ev w (joinLobby sid c u w).
Proof. unfold joinLobby. repeat case_match; ev_go. Qed.
Hint Resolve joinLobby_evolves : evolves.

Lemma markDisconnected_evolves (c u : string) (l : Lobby) (w : World) :
  ev w (markDisconnected c u l w).
Proof. unfold markDisconnected. ev_go. Qed.
Hint Resolve markDisconnected_evolves : evolves.

Lemma removeAndMaybeClose_evolves (b : bool) (c u : string) (l : Lobby) (w : World) :
  allowClose → ev w (removeAndMaybeClose b c u l w).
Proof. intros Hc. unfold removeAndMaybeClose. repeat case_match; ev_go; done. Qed.
Hint Resolve removeAndMaybeClose_evolves : evolves.

Lemma leaveLobby_evolves (c u : string) (w : World) :
  allowClose → ev w (leaveLobby c u w).
Proof.
  intros Hc. unfold leaveLobby. repeat case_match; ev_go.
Qed.

Lemma startGame_evolves (c u : string) (w : World) : ev w (startGame c u w).
Proof. unfold startGame. repeat case_match; ev_go. Qed.
Hint Resolve startGame_evolves : evolves.

Lemma stopTimer_evolves (r : nat) (g : GameState) (w : World) : ev w (stopTimer r g w).
Proof. unfold stopTimer. repeat case_match; ev_go. Qed.
Hint Resolve stopTimer_evolves : evolves.

Lemma castInitialVote_evolves (c u v : string) (w : World) :
  allowedCb (CbCalcInitial c) → ev w (castInitialVote c u v w).
Proof. intros Hcb. unfold castInitialVote. repeat case_match; ev_go. Qed.

Lemma makeConfession_evolves (c u v : string) (w : World) : ev w (makeConfession c u v w).
Proof. unfold makeConfession. repeat case_match; ev_go. Qed.
Hint Resolve makeConfession_evolves : evolves.

Lemma makeGuess_evolves (c u v : string) (w : World) : ev w (makeGuess c u v w).
Proof. unfold makeGuess. repeat case_match; ev_go. Qed.
Hint Resolve makeGuess_evolves : evolves.

Lemma restartGame_evolves (sid : nat) (c : string) (w : World) :
  ev w (restartGame sid c w).
Proof.
  unfold restartGame.
  destruct (lobbies w !! c) as [l|]; [|ev_go].
  destruct (lookup_gs c w) as [[r g]|] eqn:Hg; [|ev_go].
  apply lookup_gs_heap in Hg. repeat case_match; ev_go.
  simplify_eq. split; [right; apply allowed_other; discriminate|].
  cbn. apply seedScores_dom.
Qed.
Hint Resolve restartGame_evolves : evolves.

Lemma disconnect_evolves (sid : nat) (w : World) :
  allowClose ∨ leaving (Disconnect sid) w = None → ev w (disconnect sid w).
Proof.
  intros Hc. unfold disconnect. unfold leaving in Hc.
  destruct (sockets w !! sid) as [[[u|] [c|]]|];
    cbn [sock_lobbyCode sock_username]; try by ev_go.
  destruct (bool_decide (c = "") || bool_decide (u = "")); [ev_go|].
  cbn [lobbies set_sockets].
  destruct (lobbies w !! c) as [l|]; [|ev_go].
  destruct (findParticipant u (participants l)); [|ev_go].
  destruct Hc as [Hc|Hc]; [|by cbn in Hc].
  case_match; ev_go.
Qed.

Lemma sweepEntry_evolves (w : World) (e : string * Tracked) : ev w (sweepEntry w e).
Proof. unfold sweepEntry. repeat case_match; ev_go. Qed.

Lemma sweep_evolves (w : World) : ev w (sweep w).
Proof.
  unfold sweep. generalize (disconnectedPlayers w). intros es. revert w.
  induction es as [|e es IH]; intros w; [apply evolves_refl|].
  simpl. eapply evolves_trans; [apply sweepEntry_evolves|apply IH].
Qed.
Hint Resolve sweep_evolves : evolves.

Lemma runTimeoutCb_evolves (cb : TimeoutCb) (rnd : nat) (w : World) :
  allowed "initial-results" ∨ (∀ c, cb ≠ CbCalcInitial c) →
  ev w (runTimeoutCb neverHaveIEverTopics cb rnd w).
Proof.
  intros Hres. destruct cb; simpl; eauto with evolves.
  destruct Hres as [?|Hne]; [by apply calculateInitialResults_evolves|].
  by destruct (Hne c).
Qed.

(** Every turn of the event loop, given the permissions its event needs. *)
Lemma step_evolves (e : Event) (w w' : World) :
  step neverHaveIEverTopics e w = Some w' →
  allowed "initial-results" ∨ entersResults e w = false →
  (∀ c, allowedCb (CbCalcInitial c)) ∨ (∀ sid c u v, e ≠ CastInitialVote sid c u v) →
  allowClose ∨ leaving e w = None →
  ev w w'.
Proof.
  intros Hstep Hres Hcb Hclose.
  destruct e; simpl in Hstep; unfold onSocket in Hstep;
    repeat case_match; simplify_eq; eauto with evolves.
  - (* connect *) ev_go.
  - (* leave-lobby *) destruct Hclose as [?|?]; [|done]. by apply leaveLobby_evolves.
  - (* cast-initial-vote *)
    destruct Hcb as [?|Hne]; [by apply castInitialVote_evolves|].
    by edestruct Hne.
  - (* disconnect *) by apply disconnect_evolves.
  - (* time passes *) ev_go.
  - (* a timeout fires *)
    eapply evolves_trans; [apply evolves_fire|]. apply runTimeoutCb_evolves.
    destruct Hres as [?|Hres]; [by left|right].
    intros c' ->. simpl in Hres.
    match goal with H : timeouts _ !! _ = _ |- _ => rewrite H in Hres end. done.
  - (* an interval fires *)
    match goal with |- ev _ (runIntervalBody (iv_body ?iv) ?x) =>
      apply (evolves_trans _ x); [by apply evolves_same|];
      destruct (iv_body iv) as [c r cb|] eqn:Hbody end; simpl; [|apply sweep_evolves].
    apply countdownTick_evolves.
    destruct Hres as [?|Hres]; [by left|right].
    simpl in Hres.
    match goal with H : intervals _ !! _ = _ |- _ => rewrite H, Hbody in Hres end.
    destruct cb; [|left; intros ? ?; discriminate..].
    right. intros g Hg. cbn in Hg. rewrite Hg in Hres.
    apply bool_decide_eq_false_1 in Hres. lia.
Qed.

End Evolution.

(** ** The score table *)

Lemma leaveLobby_heap (c u : string) (w : World) : heap (leaveLobby c u w) = heap w.
Proof.
  unfold leaveLobby, markDisconnected, removeAndMaybeClose.
  repeat case_match; reflexivity.
Qed.

Lemma disconnect_heap (sid : nat) (w : World) : heap (disconnect sid w) = heap w.
Proof.
  unfold disconnect, markDisconnected, removeAndMaybeClose.
  repeat case_match; reflexivity.
Qed.

Lemma sweep_heap (w : World) : heap (sweep w) = heap w.
Proof.
  unfold sweep. generalize (disconnectedPlayers w). intros es. revert w.
  induction es as [|e es IH]; intros w; [done|].
  simpl. rewrite IH. unfold sweepEntry. repeat case_match; reflexivity.
Qed.

Lemma restartGame_scores (sid : nat) (c : string) (w : World) (l : Lobby) (r : nat)
    (g : GameState) :
  lobbies w !! c = Some l → lookup_gs c w = Some (r, g) → hostSocket sid l w →
  ∃ g', heap (restartGame sid c w) !! r = Some g'
        ∧ ∀ u, scores g' !! u =
                 if bool_decide (u ∈ username <$> participants l)
                 then Some (Num 0) else scores g !! u.
Proof.
  intros Hl Hg (s & Hs & Hhost). unfold restartGame. rewrite Hl, Hg, Hs.
  rewrite bool_decide_eq_true_2 by done. cbn.
  rewrite list_lookup_alter_eq, (lookup_gs_heap _ _ _ _ Hg). cbn.
  eexists. split; [done|]. cbn. intros u. case_bool_decide.
  - by apply seedScores_lookup_in.
  - by apply seedScores_lookup_notin.
Qed.

(** C10.  Under any turn of the event loop, no [GameState] object loses a
    key of [scores].  A leave, a disconnect and the clean-up of old
    disconnected players leave every game state as it is, although they may
    take the user out of the roster; an accepted [restart-game] sets the
    score of each user in the roster to 0 and keeps every other entry, so
    the entries of users who left stay. *)
Theorem scores_keys_never_shrink (topics : list string) (e : Event) (w w' : World) :
  step topics e w = Some w' →
  (∀ r g, heap w !! r = Some g →
          ∃ g', heap w' !! r = Some g' ∧ dom (scores g) ⊆ dom (scores g'))
  ∧ (departs e ∨ sweeps e w → heap w' = heap w)
  ∧ (∀ sid c l r g,
       e = RestartGame sid c → lobbies w !! c = Some l → lookup_gs c w = Some (r, g) →
       hostSocket sid l w →
       ∃ g', heap w' !! r = Some g'
             ∧ ∀ u, scores g' !! u =
                      if bool_decide (u ∈ username <$> participants l)
                      then Some (Num 0) else scores g !! u).
Proof.
  intros Hstep. split; [|split].
  - assert (evolves (λ _, True) (λ _, True) True w w') as (Hlen & Hheap & _).
    { eapply step_evolves; eauto. }
    intros r g Hg.
    destruct (lookup_lt_is_Some_2 (heap w') r) as [g' Hg'].
    { apply lookup_lt_Some in Hg. lia. }
    exists g'. split; [done|]. by destruct (Hheap r g g' Hg Hg').
  - intros [[(sid & c & u & ->)|(sid & ->)]|(id & iv & -> & Hiv & Hbody)];
      simpl in Hstep; unfold onSocket in Hstep; repeat case_match; simplify_eq.
    + apply leaveLobby_heap.
    + apply disconnect_heap.
    + rewrite Hbody. simpl. by rewrite sweep_heap.
  - intros sid c l r g -> Hl Hg Hhost. simpl in Hstep. unfold onSocket in Hstep.
    case_match; simplify_eq. by apply restartGame_scores.
Qed.

Lemma scores_keys_never_shrink_witness :
  ∃ w' g', step sampleTopics (RestartGame 1 "ABCD") votedABC = Some w'
           ∧ heap w' !! 0%nat = Some g'
           ∧ dom (scores (gameStateOf "ABCD" votedABC)) ⊆ dom (scores g').
Proof.
  eexists.
  destruct (scores_keys_never_shrink sampleTopics (RestartGame 1 "ABCD") votedABC _
              eq_refl) as [Hkeys _].
  destruct (Hkeys 0%nat (gameStateOf "ABCD" votedABC)) as (g' & Hg' & Hdom).
  { vm_compute. reflexivity. }
  exists g'. split; [reflexivity|]. split; [exact Hg'|exact Hdom].
Defined.

(** ** Leaving the initial-voting phase *)

Lemma allPlayersVoted_spec (votes : gmap string string) (ps : list Participant) :
  forallb (λ p, bool_decide (is_Some (votes !! username p))) (List.filter connected ps)
    = true
  ↔ ∀ p, p ∈ ps → connected p = true → is_Some (votes !! username p).
Proof.
  rewrite forallb_forall. split.
  - intros H p Hp Hc. eapply bool_decide_eq_true_1, H, filter_In.
    split; [by apply list_elem_of_In|done].
  - intros H p Hp. apply filter_In in Hp as [Hp Hc].
    apply bool_decide_eq_true_2, H; [by apply list_elem_of_In|done].
Qed.

Lemma earlyExit_spec (c u v : string) (w : World) (r : nat) (g : GameState) (l : Lobby) :
  lookup_gs c w = Some (r, g) → lobbies w !! c = Some l →
  earlyExit c u v w
  ↔ forallb (λ p, bool_decide (is_Some (<[u := v]> (initialVotes g) !! username p)))
      (List.filter connected (participants l)) = true
    ∧ 15 ≤ 30 - timer g.
Proof.
  intros Hg Hl. unfold earlyExit, allConnectedVoted, votingElapsed.
  rewrite Hg, allPlayersVoted_spec. split.
  - intros [(r' & g' & l' & ? & ? & Hall) (t & ? & ?)]. simplify_eq. done.
  - intros [Hall Ht]. split; [by exists r, g, l|]. by exists (30 - timer g).
Qed.

Lemma castInitialVote_exit (c u v : string) (w : World) (r : nat) (g : GameState) :
  lookup_gs c w = Some (r, g) → phase g = "initial-voting" → is_Some (lobbies w !! c) →
  let w' := castInitialVote c u v w in
  (∃ g', heap w' !! r = Some g' ∧ phase g' = "initial-voting"
         ∧ initialVotes g' = <[u := v]> (initialVotes g))
  ∧ (earlyExit c u v w →
       timeouts w' = timeouts w ++ [Some (now w + 1000, CbCalcInitial c)])
  ∧ (¬ earlyExit c u v w → timeouts w' = timeouts w ∧ intervals w' = intervals w).
Proof.
  intros Hg Hph [l Hl] w'. subst w'. unfold castInitialVote.
  rewrite Hg, Hl, bool_decide_eq_true_2 by done. cbv zeta.
  pose proof (earlyExit_spec c u v w r g l Hg Hl) as Hexit.
  pose proof (lookup_gs_heap _ _ _ _ Hg) as Hh.
  destruct (forallb _ _) eqn:Hall.
  - case_bool_decide as Ht.
    + split; [|split].
      * unfold stopTimer. destruct (timerInterval g); cbn;
          rewrite ?list_lookup_alter_eq, Hh; cbn; eauto.
      * intros _. unfold stopTimer. by destruct (timerInterval g).
      * intros Hno. destruct Hno. by apply Hexit.
    + split; [|split].
      * cbn. rewrite list_lookup_alter_eq, Hh. cbn. eauto.
      * intros [_ ?]%Hexit. lia.
      * done.
  - split; [|split].
    + cbn. rewrite list_lookup_alter_eq, Hh. cbn. eauto.
    + intros [? _]%Hexit. done.
    + done.
Qed.

Lemma castInitialVote_timeouts (c u v : string) (w : World) (id : nat) (due : Z)
    (c' : string) :
  timeouts (castInitialVote c u v w) !! id = Some (Some (due, CbCalcInitial c')) →
  timeouts w !! id = Some (Some (due, CbCalcInitial c'))
  ∨ (c' = c ∧ earlyExit c u v w ∧ due = now w + 1000
     ∧ ∃ r g, lookup_gs c w = Some (r, g) ∧ phase g = "initial-voting").
Proof.
  unfold castInitialVote.
  destruct (lookup_gs c w) as [[r g]|] eqn:Hg; [|by left].
  case_bool_decide as Hph; [|by left].
  destruct (lobbies w !! c) as [l|] eqn:Hl; [|by left].
  pose proof (earlyExit_spec c u v w r g l Hg Hl) as Hexit. cbv zeta.
  destruct (forallb _ _) eqn:Hall; [|by left].
  case_bool_decide as Ht; [|by left].
  assert (timeouts (setTimeout (CbCalcInitial c) 1000
                      (stopTimer r g (modify_gs r
                         (set_initialVotes (<[u:=v]> (initialVotes g))) w)))
          = timeouts w ++ [Some (now w + 1000, CbCalcInitial c)]) as ->.
  { unfold stopTimer. by destruct (timerInterval g). }
  intros Hid. destruct (decide (id < length (timeouts w))%nat).
  - rewrite lookup_app_l in Hid by done. by left.
  - rewrite lookup_app_r in Hid by lia.
    destruct (id - length (timeouts w))%nat; simplify_eq/=.
    right. split; [done|]. split; [by apply Hexit|]. eauto.
Qed.

(** Where a pending timeout that computes the results comes from. *)
Lemma results_timeout_origin (topics : list string) (e : Event) (w w' : World) (id : nat)
    (due : Z) (c : string) :
  step topics e w = Some w' →
  timeouts w' !! id = Some (Some (due, CbCalcInitial c)) →
  timeouts w !! id = Some (Some (due, CbCalcInitial c))
  ∨ ∃ sid u v r g, e = CastInitialVote sid c u v
      ∧ lookup_gs c w = Some (r, g) ∧ phase g = "initial-voting"
      ∧ earlyExit c u v w ∧ due = now w + 1000.
Proof.
  intros Hstep Hid.
  assert ((∃ sid c0 u v, e = CastInitialVote sid c0 u v)
          ∨ (∀ sid c0 u v, e ≠ CastInitialVote sid c0 u v))
    as [(sid & c0 & u & v & ->)|Hother]
    by (destruct e; eauto 6; right; intros; discriminate).
  - simpl in Hstep. unfold onSocket in Hstep. case_match; simplify_eq.
    apply castInitialVote_timeouts in Hid as [?|(-> & ? & ? & r & g & ? & ?)]; [by left|].
    right. eauto 10.
  - assert (evolves (λ _, True) (λ cb, ∀ c, cb ≠ CbCalcInitial c) True w w')
      as (_ & _ & Htime & _).
    { eapply step_evolves; eauto. }
    destruct (Htime id due _ Hid) as [?|Hne]; [by left|]. by destruct (Hne c).
Qed.

Lemma run_snoc (topics : list string) (es : list Event) (e : Event) (w : World) :
  run topics (es ++ [e]) w = run topics es w ≫= step topics e.
Proof.
  revert w. induction es as [|e' es IH]; intros w; simpl.
  - by destruct (step topics e w).
  - destruct (step topics e' w); [apply IH|done].
Qed.

(** Every pending timeout that computes the results was scheduled by a
    vote that met the exit condition. *)
Lemma pending_results_timeout_scheduled (topics : list string) (es : list Event)
    (w : World) (id : nat) (due : Z) (c : string) :
  run topics es initialWorld = Some w →
  timeouts w !! id = Some (Some (due, CbCalcInitial c)) →
  voteScheduled topics es c due.
Proof.
  revert w id. induction es as [|e es IH] using rev_ind; intros w id Hrun Hid.
  - simpl in Hrun. by simplify_eq.
  - rewrite run_snoc in Hrun.
    destruct (run topics es initialWorld) as [w0|] eqn:Hrun0; [|done]. simpl in Hrun.
    destruct (results_timeout_origin _ _ _ _ _ _ _ Hrun Hid)
      as [Hold|(sid & u & v & r & g & -> & Hg & Hph & Hexit & Hdue)].
    + destruct (IH w0 id eq_refl Hold)
        as (es1 & es2 & w1 & sid & u & v & r & g & -> & H).
      exists es1, (es2 ++ [e]), w1, sid, u, v, r, g.
      split; [|done]. by rewrite <- app_assoc.
    + exists es, [], w0, sid, u, v, r, g. done.
Qed.

(** [calculateInitialResults] changes the phase of no game state but the
    one registered for its session. *)
Lemma calculateInitialResults_own_phase (c : string) (w : World) (r : nat)
    (g g' : GameState) :
  heap w !! r = Some g → heap (calculateInitialResults c w) !! r = Some g' →
  phase g' ≠ phase g → gameStates w !! c = Some r.
Proof.
  intros Hg Hg' Hne. unfold calculateInitialResults in Hg'.
  destruct (lookup_gs c w) as [[r0 g0]|] eqn:Hc; [|congruence].
  destruct (lobbies w !! c); [|congruence].
  apply lookup_gs_Some in Hc as [Hr _].
  destruct (decide (r0 = r)) as [->|Hr0]; [done|].
  cbn in Hg'. rewrite !list_lookup_alter_ne in Hg' by done. congruence.
Qed.

(** C2, as the code has it.  In any turn of the event loop of a running
    server:
    - a game state goes from ["initial-voting"] to ["initial-results"] only
      when a countdown whose callback computes the results of its session
      reaches 0, or when a timeout comes due that a vote for its session
      scheduled one second earlier, in phase ["initial-voting"], at a moment
      when with that vote every connected participant had voted and at
      least 15 of the 30 seconds had elapsed;
    - a timeout that computes the results is scheduled by such a vote and
      by nothing else;
    - a vote cast during initial voting is recorded and leaves the phase
      as it is; when the exit condition is not met, for instance because
      fewer than 15 seconds have elapsed, nothing is scheduled and the
      countdown keeps running. *)
Theorem initial_voting_exit_condition (topics : list string) (es : list Event)
    (e : Event) (w w' : World) :
  run topics es initialWorld = Some w →
  step topics e w = Some w' →
  (∀ r g g', heap w !! r = Some g → heap w' !! r = Some g' →
             phase g = "initial-voting" → phase g' = "initial-results" →
             countdownExpires e w r ∨ voteTimeoutDue topics es e w r)
  ∧ (∀ id due c, timeouts w' !! id = Some (Some (due, CbCalcInitial c)) →
       timeouts w !! id = Some (Some (due, CbCalcInitial c))
       ∨ ∃ sid u v r g, e = CastInitialVote sid c u v
           ∧ lookup_gs c w = Some (r, g) ∧ phase g = "initial-voting"
           ∧ earlyExit c u v w ∧ due = now w + 1000)
  ∧ (∀ sid c u v r g,
       e = CastInitialVote sid c u v → lookup_gs c w = Some (r, g) →
       phase g = "initial-voting" → is_Some (lobbies w !! c) →
       (∃ g', heap w' !! r = Some g' ∧ phase g' = "initial-voting"
              ∧ initialVotes g' = <[u := v]> (initialVotes g))
       ∧ (earlyExit c u v w →
            timeouts w' = timeouts w ++ [Some (now w + 1000, CbCalcInitial c)])
       ∧ (¬ earlyExit c u v w → timeouts w' = timeouts w ∧ intervals w' = intervals w)).
Proof.
  intros Hrun Hstep. split; [|split].
  - intros r g g' Hg Hg' Hph Hph'.
    assert (phase g' ≠ phase g) as Hne by (rewrite Hph, Hph'; discriminate).
    destruct (entersResults e w) eqn:Htrig; cycle 1.
    { exfalso.
      assert (evolves (λ p, p ≠ "initial-results") (λ _, True) True w w')
        as (_ & Hheap & _).
      { eapply step_evolves; eauto. }
      destruct (Hheap r g g' Hg Hg') as [[Heq|Hno] _]; congruence. }
    destruct e; try discriminate; simpl in Htrig, Hstep.
    + (* the timeout of a vote comes due *)
      destruct (timeouts w !! id) as [[[due cb]|]|] eqn:Hid; try discriminate.
      destruct cb; try discriminate.
      case_bool_decide as Hdue; [|done]. simplify_eq. simpl in Hg'.
      right. exists id, rnd, due, c. split; [done|]. split; [done|]. split; [done|].
      split; [|by eapply pending_results_timeout_scheduled].
      by eapply (calculateInitialResults_own_phase c
                   (set_timeouts (<[id:=None]> (timeouts w)) w)).
    + (* a countdown reaches 0 *)
      destruct (intervals w !! id) as [[iv|]|] eqn:Hid; try discriminate.
      destruct (iv_body iv) as [c0 r0 cb|] eqn:Hbody; try discriminate.
      destruct cb as [c| |]; try discriminate.
      destruct (heap w !! r0) as [g0|] eqn:Hg0; try discriminate.
      apply bool_decide_eq_true_1 in Htrig.
      case_bool_decide as Hdue; [|done]. simplify_eq.
      left. exists id, iv, c0, r0, c, g0. split_and!; try done.
      cbn [runIntervalBody] in Hg'. unfold countdownTick in Hg'.
      cbn [heap set_intervals] in Hg'. rewrite Hg0 in Hg'. cbv zeta in Hg'.
      rewrite bool_decide_eq_true_2 in Hg' by done. cbn [runTimerCb] in Hg'.
      match type of Hg' with
      | heap (calculateInitialResults c ?x) !! r = _ =>
          assert (∃ g1, heap x !! r = Some g1 ∧ phase g1 = phase g) as (g1 & Hg1 & Hp1)
      end.
      { cbn. destruct (decide (r0 = r)) as [->|Hr].
        - rewrite !list_lookup_alter_eq, Hg. cbn. eauto.
        - rewrite !list_lookup_alter_ne by done. eauto. }
      eapply (calculateInitialResults_own_phase c) in Hg'; [exact Hg'|exact Hg1|].
      by rewrite Hp1.
  - intros id due c Hid. by eapply results_timeout_origin.
  - intros sid c u v r g -> Hg Hph Hl. simpl in Hstep. unfold onSocket in Hstep.
    case_match; simplify_eq. by apply castInitialVote_exit.
Qed.

Lemma initial_voting_exit_condition_witness :
  voteTimeoutDue sampleTopics resultsDue (FireTimeout 1 0) allVotedLate 0
  ∧ allConnectedVoted "ABCD" "cat" "no" votedAB
  ∧ votingElapsed "ABCD" votedAB = Some 3
  ∧ timeouts votedABC = timeouts votedAB
  ∧ intervals votedABC = intervals votedAB
  ∧ ∃ g', heap votedABC !! 0%nat = Some g' ∧ phase g' = "initial-voting".
Proof.
  split.
  { destruct (initial_voting_exit_condition sampleTopics resultsDue (FireTimeout 1 0)
                allVotedLate lateResults) as (Hexit & _);
      [vm_compute; reflexivity..|].
    destruct (Hexit 0%nat (gameStateOf "ABCD" allVotedLate)
                (gameStateOf "ABCD" lateResults))
      as [(id & iv & c0 & r0 & c & g0 & He & _)|Hvote];
      [vm_compute; reflexivity..|discriminate He|exact Hvote]. }
  assert (step sampleTopics (CastInitialVote 3 "ABCD" "cat" "no") votedAB
          = Some votedABC) as Hstep by (vm_compute; reflexivity).
  assert (votingElapsed "ABCD" votedAB = Some 3) as Helapsed
    by (vm_compute; reflexivity).
  assert (run sampleTopics firstVotes initialWorld = Some votedAB) as Hrun
    by (vm_compute; reflexivity).
  destruct (initial_voting_exit_condition sampleTopics firstVotes _ votedAB votedABC
              Hrun Hstep) as (_ & _ & Hvote).
  destruct (Hvote 3%nat "ABCD" "cat" "no" 0%nat (gameStateOf "ABCD" votedAB))
    as ((g' & Hg' & Hph & _) & _ & Hfloor).
  { reflexivity. }
  { vm_compute. reflexivity. }
  { vm_compute. reflexivity. }
  { vm_compute. eauto. }
  destruct Hfloor as [Ht Hi].
  { intros (_ & t & Ht & Hle). rewrite Helapsed in Ht. injection Ht as <-. lia. }
  split.
  { exists 0%nat, (gameStateOf "ABCD" votedAB), (lobbyOf "ABCD" votedAB).
    split; [vm_compute; reflexivity|]. split; [vm_compute; reflexivity|].
    intros p Hp _. apply list_elem_of_In in Hp. vm_compute in Hp.
    destruct Hp as [<-|[<-|[<-|[]]]]; vm_compute; eauto. }
  split; [exact Helapsed|]. split; [exact Ht|]. split; [exact Hi|].
  exists g'. split; [exact Hg'|exact Hph].
Defined.

(** C2, as the spec has it, fails.  All three players have voted by 20 s,
    18 seconds into the countdown, so the results are scheduled for 21 s; at
    20.5 s the host restarts the game.  At 21 s the session is in
    ["initial-voting"] with the timer at 30, no vote cast and no countdown
    running, so the exit condition is not met; the timeout of the earlier
    vote comes due all the same and the phase becomes
    ["initial-results"]. *)
Lemma results_computed_after_restart_without_votes :
  run sampleTopics restartInDelay initialWorld = Some restartedInDelay
  ∧ step sampleTopics (FireTimeout 1 0) restartedInDelay = Some staleResults
  ∧ phase (gameStateOf "ABCD" restartedInDelay) = "initial-voting"
  ∧ timer (gameStateOf "ABCD" restartedInDelay) = 30
  ∧ initialVotes (gameStateOf "ABCD" restartedInDelay) = ∅
  ∧ connected <$> participants (lobbyOf "ABCD" restartedInDelay) = [true; true; true]
  ∧ activeCountdowns "ABCD" restartedInDelay = []
  ∧ ¬ exitConditionMet "ABCD" restartedInDelay
  ∧ lookup_gs "ABCD" staleResults
    = Some (0%nat, set_phase "initial-results" (gameStateOf "ABCD" restartedInDelay)).
Proof.
  split_and!; try (vm_compute; reflexivity).
  intros (r & g & l & Hg & _ & Hcond).
  assert (timer g = 30) as Ht.
  { vm_compute in Hg. by simplify_eq. }
  rewrite Ht in Hcond. destruct Hcond as [?|[_ ?]]; lia.
Qed.

(** ** The life of a lobby *)

Lemma markDisconnected_lobbies (c0 u : string) (l0 : Lobby) (w : World) (c : string) :
  is_Some (lobbies w !! c) → is_Some (lobbies (markDisconnected c0 u l0 w) !! c).
Proof.
  intros Hc. unfold markDisconnected. cbn.
  destruct (decide (c0 = c)) as [->|Hne].
  - rewrite lookup_insert_eq. eauto.
  - by rewrite lookup_insert_ne.
Qed.

Lemma removeAndMaybeClose_lobbies (b : bool) (c0 u : string) (l0 : Lobby) (w : World)
    (c : string) :
  is_Some (lobbies w !! c) →
  lobbies (removeAndMaybeClose b c0 u l0 w) !! c = None
  ↔ c = c0 ∧ (removeParticipant u (participants l0) = [] ∨ u = host l0).
Proof.
  intros [l Hl]. unfold removeAndMaybeClose. cbv zeta. cbn [participants with_participants].
  destruct (bool_decide (length _ = 0%nat) || bool_decide (u = host l0)) eqn:Hclose.
  - assert (removeParticipant u (participants l0) = [] ∨ u = host l0) as Hcond.
    { apply orb_true_iff in Hclose as [H|H]; apply bool_decide_eq_true_1 in H.
      - left. by apply length_zero_iff_nil.
      - by right. }
    assert (∀ w1, lobbies (if b then match lookup_gs c0 w1 with
                                     | Some (_, g) => clearInterval (timerInterval g) w1
                                     | None => w1
                                     end else w1) = lobbies w1) as Hclear.
    { intros w1. destruct b; [|done]. by repeat case_match. }
    cbn. rewrite Hclear. cbn. destruct (decide (c0 = c)) as [->|Hne].
    + rewrite lookup_delete_eq. naive_solver.
    + rewrite lookup_delete_ne, lookup_insert_ne, Hl by done. naive_solver.
  - apply orb_false_iff in Hclose as [H1 H2].
    apply bool_decide_eq_false_1 in H1, H2. cbn.
    split; [|intros [_ [Hnil| ->]]; [by rewrite Hnil in H1|done]].
    destruct (decide (c0 = c)) as [->|Hne].
    + by rewrite lookup_insert_eq.
    + by rewrite lookup_insert_ne, Hl.
Qed.

Lemma leaveLobby_closes (c0 u : string) (w : World) (c : string) (l : Lobby) :
  lobbies w !! c = Some l →
  lobbies (leaveLobby c0 u w) !! c = None
  ↔ c = c0 ∧ gameActive c w = false
    ∧ (removeParticipant u (participants l) = [] ∨ u = host l).
Proof.
  intros Hl. unfold leaveLobby.
  destruct (lobbies w !! c0) as [l0|] eqn:Hl0.
  - destruct (gameActive c0 w) eqn:Hact.
    + assert (is_Some (lobbies (match findParticipant u (participants l0) with
                                | Some _ => markDisconnected c0 u l0 w
                                | None => emit (ToRoom c0) (LobbyUpdated l0) w
                                end) !! c)) as [l' Hl'].
      { case_match; [apply markDisconnected_lobbies|cbn]; eauto. }
      rewrite Hl'. split; [done|]. intros (-> & ? & _). congruence.
    + rewrite removeAndMaybeClose_lobbies by eauto. split.
      * intros [-> ?]. simplify_eq. done.
      * intros (-> & _ & ?). simplify_eq. done.
  - rewrite Hl. split; [done|]. intros (-> & _). congruence.
Qed.

Lemma disconnect_closes (sid : nat) (w : World) (c0 u : string) (c : string) (l : Lobby) :
  leaving (Disconnect sid) w = Some (c0, u) →
  lobbies w !! c = Some l →
  lobbies (disconnect sid w) !! c = None
  ↔ c = c0 ∧ gameActive c w = false
    ∧ (removeParticipant u (participants l) = [] ∨ u = host l).
Proof.
  intros Hleave Hl. unfold disconnect. unfold leaving in Hleave.
  destruct (sockets w !! sid) as [[[u'|] [c'|]]|]; try done.
  cbn [sock_lobbyCode sock_username].
  destruct (bool_decide (c' = "") || bool_decide (u' = "")); [done|].
  cbn [lobbies set_sockets].
  destruct (lobbies w !! c') as [l0|] eqn:Hl0; [|done].
  destruct (findParticipant u' (participants l0)); [|done].
  simplify_eq.
  change (gameActive c0 (set_sockets (delete sid (sockets w)) w)) with (gameActive c0 w).
  destruct (gameActive c0 w) eqn:Hact.
  - destruct (markDisconnected_lobbies c0 u l0
                (set_sockets (delete sid (sockets w)) w) c) as [l' Hl']; [by eauto|].
    rewrite Hl'. split; [done|]. intros (-> & ? & _). congruence.
  - rewrite removeAndMaybeClose_lobbies by eauto. split.
    + intros [-> ?]. simplify_eq. done.
    + intros (-> & _ & ?). simplify_eq. done.
Qed.

(** C7, as the code has it.  In any turn of the event loop, a lobby is
    deleted exactly when a user leaves it or disconnects from it while no
    game is active in it (it has no game state, or the phase of its game
    state is ["waiting"], as it is between two rounds) and the roster is
    empty without that user or the user is the host.  While the game state
    is in any other phase, no leave or disconnect, of the host or of anyone
    else, deletes the lobby. *)
Theorem lobby_deleted_iff (topics : list string) (e : Event) (w w' : World) (c : string)
    (l : Lobby) :
  step topics e w = Some w' →
  lobbies w !! c = Some l →
  (lobbies w' !! c = None ↔ closesLobby e w c)
  ∧ (gameActive c w = true → is_Some (lobbies w' !! c)).
Proof.
  intros Hstep Hl.
  assert (lobbies w' !! c = None ↔ closesLobby e w c) as Hiff.
  { unfold closesLobby. destruct (leaving e w) as [[c0 u]|] eqn:Hleave.
    - assert (lobbies w' !! c = None
              ↔ c = c0 ∧ gameActive c w = false
                ∧ (removeParticipant u (participants l) = [] ∨ u = host l)) as ->.
      { destruct e; try done; simpl in Hstep; unfold onSocket in Hstep;
          case_match; simplify_eq.
        - simpl in Hleave. simplify_eq. by apply leaveLobby_closes.
        - by apply disconnect_closes. }
      split.
      + intros (-> & ? & ?). exists u, l. done.
      + intros (u' & l' & ? & ? & ? & ?). simplify_eq. done.
    - split; [|by intros (? & ? & ? & _)]. intros Hnone. exfalso.
      assert (evolves (λ _, True) (λ _, True) False w w') as (_ & _ & _ & [[]|Hdom]).
      { eapply step_evolves; eauto. }
      assert (c ∈ dom (lobbies w')) as Hin by (apply Hdom, elem_of_dom; eauto).
      apply elem_of_dom in Hin as [? ?]. congruence. }
  split; [done|]. intros Hact.
  destruct (decide (lobbies w' !! c = None)) as [Hw'|Hw'].
  - apply Hiff in Hw' as (? & ? & _ & _ & ? & _). congruence.
  - by destruct (lobbies w' !! c); eauto.
Qed.

Lemma lobby_deleted_iff_witness :
  step sampleTopics (LeaveLobby 1 "ABCD" "ann") votedABC = Some hostLeftWhileVoting
  ∧ is_Some (lobbies hostLeftWhileVoting !! "ABCD").
Proof.
  assert (step sampleTopics (LeaveLobby 1 "ABCD" "ann") votedABC
          = Some hostLeftWhileVoting) as Hstep by (vm_compute; reflexivity).
  split; [exact Hstep|].
  apply (proj2 (lobby_deleted_iff sampleTopics _ _ _ "ABCD" (lobbyOf "ABCD" votedABC)
                  Hstep ltac:(vm_compute; reflexivity))).
  vm_compute. reflexivity.
Defined.

(** C7, as the spec has it, fails: the game of lobby ["ABCD"] is running
    (started, in round 2, in the pause between two rounds) when the host
    leaves; two participants remain, and the lobby is deleted with its
    game state. *)
Lemma lobby_deleted_while_game_runs :
  gameStarted (lobbyOf "ABCD" betweenRounds) = true
  ∧ host (lobbyOf "ABCD" betweenRounds) = "ann"
  ∧ phase (gameStateOf "ABCD" betweenRounds) = "waiting"
  ∧ roundNumber (gameStateOf "ABCD" betweenRounds) = 2
  ∧ username <$> removeParticipant "ann" (participants (lobbyOf "ABCD" betweenRounds))
    = ["bob"; "cat"]
  ∧ step sampleTopics (LeaveLobby 1 "ABCD" "ann") betweenRounds
    = Some hostLeftBetweenRounds
  ∧ lobbies hostLeftBetweenRounds !! "ABCD" = None
  ∧ gameStates hostLeftBetweenRounds !! "ABCD" = None.
Proof. repeat split; vm_compute; reflexivity. Qed.

(** ** Confessions *)

Lemma lookup_gs_modify_gs (c : string) (r : nat) (f : GameState → GameState) (w : World)
    (g : GameState) :
  lookup_gs c w = Some (r, g) → lookup_gs c (modify_gs r f w) = Some (r, f g).
Proof.
  intros [Hr Hg]%lookup_gs_Some. apply lookup_gs_Some. split; [done|].
  by rewrite heap_modify_gs_eq, Hg.
Qed.

Lemma lookup_gs_stopTimer (c : string) (r : nat) (g0 g : GameState) (w : World) :
  lookup_gs c w = Some (r, g) →
  ∃ g', lookup_gs c (stopTimer r g0 w) = Some (r, g')
        ∧ phase g' = phase g ∧ confession g' = confession g
        ∧ selectedPlayer g' = selectedPlayer g.
Proof.
  intros Hg. unfold stopTimer. destruct (timerInterval g0); [|eauto].
  eexists. split; [apply lookup_gs_modify_gs; exact Hg|done].
Qed.

Lemma startTimer_gs (c : string) (s : Z) (cb : TimerCb) (w : World) (r : nat)
    (g : GameState) :
  lookup_gs c w = Some (r, g) →
  ∃ g', lookup_gs c (startTimer c s cb w) = Some (r, g')
        ∧ phase g' = phase g ∧ confession g' = confession g.
Proof.
  intros Hg. unfold startTimer, setInterval. rewrite Hg. cbv zeta.
  eexists. split; [|split].
  - apply lookup_gs_modify_gs.
    apply (lookup_gs_modify_gs c r (set_timer s)) in Hg. exact Hg.
  - done.
  - done.
Qed.

Lemma startGuessingPhase_gs (c : string) (w : World) (r : nat) (g : GameState) :
  lookup_gs c w = Some (r, g) →
  ∃ g', lookup_gs c (startGuessingPhase c w) = Some (r, g')
        ∧ phase g' = "guessing" ∧ confession g' = confession g.
Proof.
  intros Hg. unfold startGuessingPhase. rewrite Hg. cbv zeta.
  edestruct (startTimer_gs c 30 (TcCalcConfession c)) as (g' & Hg' & Hph & Hconf);
    [|exists g'; split; [exact Hg'|]].
  - change (lookup_gs c (emit ?d ?m ?x)) with (lookup_gs c x).
    do 3 apply lookup_gs_modify_gs. exact Hg.
  - by rewrite Hph, Hconf.
Qed.

Lemma makeConfession_ignored (c u v : string) (w : World) :
  (∀ r g, lookup_gs c w = Some (r, g) →
          ¬ (phase g = "confession" ∧ selectedPlayer g = Some u)) →
  makeConfession c u v w = w.
Proof.
  intros Hno. unfold makeConfession.
  destruct (lookup_gs c w) as [[r g]|]; [|done].
  destruct (bool_decide _ && bool_decide _) eqn:Hacc; [|done].
  apply andb_true_iff in Hacc as [?%bool_decide_eq_true_1 ?%bool_decide_eq_true_1].
  by destruct (Hno r g).
Qed.

(** C3, as the code has it.  A confess submission is accepted only from
    the selected player and only while the phase is ["confession"]; any
    other submission, and any submission for a session without a game state,
    leaves the whole server state as it was.  An accepted submission stores
    its value over whatever was stored, keeps the phase and the selected
    player, and schedules the guessing phase one second later; so until that
    phase starts a further submission of the selected player is accepted as
    well.  When the guessing phase starts, the stored confession is kept and
    from then on every confess submission is ignored. *)
Theorem makeConfession_last_write_until_guessing (c u v : string) (w : World) :
  ((∀ r g, lookup_gs c w = Some (r, g) →
           ¬ (phase g = "confession" ∧ selectedPlayer g = Some u)) →
   makeConfession c u v w = w)
  ∧ (∀ r g, lookup_gs c w = Some (r, g) →
            phase g = "confession" → selectedPlayer g = Some u →
            ∃ g', lookup_gs c (makeConfession c u v w) = Some (r, g')
                  ∧ confession g' = Some v
                  ∧ phase g' = "confession" ∧ selectedPlayer g' = Some u
                  ∧ timeouts (makeConfession c u v w)
                    = timeouts w ++ [Some (now w + 1000, CbStartGuessing c)])
  ∧ (∀ r g, lookup_gs c w = Some (r, g) →
            ∃ g', lookup_gs c (startGuessingPhase c w) = Some (r, g')
                  ∧ phase g' = "guessing" ∧ confession g' = confession g
                  ∧ ∀ u' v', makeConfession c u' v' (startGuessingPhase c w)
                             = startGuessingPhase c w).
Proof.
  split; [apply makeConfession_ignored|]. split.
  - intros r g Hg Hph Hsel. unfold makeConfession.
    rewrite Hg, !bool_decide_eq_true_2 by done. cbn [andb]. cbv zeta.
    destruct (lookup_gs_stopTimer c r g (set_confession (Some v) g)
                (modify_gs r (set_confession (Some v)) w))
      as (g' & Hg' & Hph' & Hconf' & Hsel'); [by apply lookup_gs_modify_gs|].
    exists g'. split; [exact Hg'|]. rewrite Hph', Hconf', Hsel'.
    repeat split; try done.
    unfold stopTimer. by destruct (timerInterval g).
  - intros r g Hg. destruct (startGuessingPhase_gs c w r g Hg) as (g' & Hg' & Hph & Hconf).
    exists g'. repeat split; try done.
    intros u' v'. apply makeConfession_ignored.
    intros r0 g0 Hg0 [Hph0 _]. simplify_eq. congruence.
Qed.

(** C3, as the spec has it, fails: the selected player ["cat"] confesses
    ["true"] and, half a second later, ["false"]; the second submission is
    accepted, replaces the stored confession and schedules the guessing
    phase once more. *)
Lemma confession_overwritten_by_second_submission :
  phase (gameStateOf "ABCD" confessing) = "confession"
  ∧ selectedPlayer (gameStateOf "ABCD" confessing) = Some "cat"
  ∧ step sampleTopics (MakeConfession 3 "ABCD" "cat" "true") confessing
    = Some confessedTrue
  ∧ confession (gameStateOf "ABCD" confessedTrue) = Some "true"
  ∧ run sampleTopics [Elapse 500; MakeConfession 3 "ABCD" "cat" "false"] confessedTrue
    = Some confessedTwice
  ∧ confession (gameStateOf "ABCD" confessedTwice) = Some "false"
  ∧ timeouts confessedTwice
    = timeouts confessedTrue ++ [Some (40500 + 1000, CbStartGuessing "ABCD")].
Proof. repeat split; vm_compute; reflexivity. Qed.

(** ** Countdown timers *)

(** [startTimer] cancels the interval recorded in the game state and
    records the one it installs. *)
Lemma startTimer_supersedes (c : string) (s : Z) (cb : TimerCb) (w : World) (r : nat)
    (g : GameState) :
  lookup_gs c w = Some (r, g) →
  let w' := startTimer c s cb w in
  let h := length (intervals w) in
  (∃ g', lookup_gs c w' = Some (r, g') ∧ timerInterval g' = Some h ∧ timer g' = s)
  ∧ intervals w' !! h = Some (Some (mkInterval (now w + 1000) 1000 (Countdown c r cb)))
  ∧ (∀ h0, timerInterval g = Some h0 → (h0 < h)%nat → intervals w' !! h0 = Some None)
  ∧ (∀ i, (i < h)%nat → timerInterval g ≠ Some i → intervals w' !! i = intervals w !! i).
Proof.
  intros Hg w' h. subst w' h. unfold startTimer, setInterval. rewrite Hg. cbv zeta.
  split; [|split; [|split]].
  - eexists. split.
    + apply lookup_gs_modify_gs.
      change (lookup_gs c (set_intervals ?i (clearInterval ?h ?x)))
        with (lookup_gs c x).
      apply lookup_gs_modify_gs. exact Hg.
    + cbn. destruct (timerInterval g); cbn; by rewrite ?length_insert.
  - cbn. destruct (timerInterval g); cbn.
    + rewrite lookup_app_r; rewrite length_insert; [|done].
      by rewrite Nat.sub_diag.
    + rewrite lookup_app_r by done. by rewrite Nat.sub_diag.
  - intros h0 -> Hlt. cbn. rewrite lookup_app_l by (by rewrite length_insert).
    by apply list_lookup_insert_eq.
  - intros i Hlt Hne. cbn. destruct (timerInterval g) as [h0|]; cbn.
    + rewrite lookup_app_l by (by rewrite length_insert).
      apply list_lookup_insert_ne. congruence.
    + by rewrite lookup_app_l.
Qed.

(** An interval that was cleared does not run again. *)
Lemma cleared_interval_does_not_fire (topics : list string) (id : nat) (w : World) :
  intervals w !! id = Some None → step topics (FireInterval id) w = None.
Proof. intros H. simpl. by rewrite H. Qed.

(** C5 fails on the code.  The host sends [start-game] a second time while
    the countdown of the first round runs.  The handler stores a fresh game
    state and leaves the running interval alone: the session then has two
    active countdowns.  Both reach zero, at 32 s and at 35 s, each runs
    [calculateInitialResults] on the new game state, and the one round of
    votes is scored twice. *)
Theorem second_start_game_leaves_two_countdowns :
  (w ← run sampleTopics threePlayers initialWorld;
   w ← runUntil sampleTopics 100 0 3000 w;
   w ← step sampleTopics (StartGame 1 "ABCD" "ann") w;
   w ← runUntil sampleTopics 100 0 6000 w;
   run sampleTopics
     [CastInitialVote 1 "ABCD" "ann" "yes";
      CastInitialVote 2 "ABCD" "bob" "yes";
      CastInitialVote 3 "ABCD" "cat" "no"] w) = Some startedTwice
  ∧ activeCountdowns "ABCD" startedTwice
    = [Some (mkInterval 7000 1000 (Countdown "ABCD" 0 (TcCalcInitial "ABCD")));
       Some (mkInterval 7000 1000 (Countdown "ABCD" 1 (TcCalcInitial "ABCD")))]
  ∧ gameStates startedTwice !! "ABCD" = Some 1%nat
  ∧ runUntil sampleTopics 200 0 35500 startedTwice = Some startedTwiceLater
  ∧ voteResultsSent "ABCD" startedTwiceLater = [(2, 1); (2, 1)]
  ∧ roundNumber (gameStateOf "ABCD" startedTwiceLater) = 1
  ∧ scores (gameStateOf "ABCD" startedTwiceLater) !! "ann" = Some (Num 2).
Proof. repeat split; vm_compute; reflexivity. Qed.

(** ** Reconnection and the clean-up of disconnected players *)

(** C6 fails on the code.  ["bob"] disconnects at 10 s during an active
    game and rejoins at 20 s.  The rejoin sets his [connected] flag again
    and leaves his score and his place in the roster alone, but neither
    [/api/lobby/join] nor [join-lobby] deletes his entry of
    [disconnectedPlayers].  He stays connected and plays on; at 360 s the
    clean-up finds the entry older than five minutes and removes him from
    the roster. *)
Theorem rejoined_player_evicted_by_clean_up :
  (w ← runUntil sampleTopics 100 0 10000 votedABC;
   step sampleTopics (Disconnect 2) w) = Some bobDisconnected
  ∧ participants (lobbyOf "ABCD" bobDisconnected) !! 1%nat
    = Some (mkParticipant "bob" false false)
  ∧ (w ← runUntil sampleTopics 100 0 20000 bobDisconnected;
     run sampleTopics [HttpJoin "ABCD" "bob"; Connect 4; JoinLobby 4 "ABCD" "bob"] w)
    = Some bobRejoined
  ∧ participants (lobbyOf "ABCD" bobRejoined) !! 1%nat
    = Some (mkParticipant "bob" false true)
  ∧ scores (gameStateOf "ABCD" bobRejoined) !! "bob"
    = scores (gameStateOf "ABCD" bobDisconnected) !! "bob"
  ∧ disconnectedPlayers bobRejoined = [("bob", mkTracked "ABCD" 10000)]
  ∧ (w ← runUntil sampleTopics 1000 0 145000 bobRejoined;
     w ← run sampleTopics everyoneVotes w;
     w ← runUntil sampleTopics 1000 0 285000 w;
     w ← run sampleTopics everyoneVotes w;
     runUntil sampleTopics 1000 0 359000 w) = Some beforeCleanUp
  ∧ participants (lobbyOf "ABCD" beforeCleanUp) !! 1%nat
    = Some (mkParticipant "bob" false true)
  ∧ roundNumber (gameStateOf "ABCD" beforeCleanUp) = 3
  ∧ phase (gameStateOf "ABCD" beforeCleanUp) = "confession"
  ∧ runUntil sampleTopics 100 0 361000 beforeCleanUp = Some afterCleanUp
  ∧ participants (lobbyOf "ABCD" afterCleanUp)
    = [mkParticipant "ann" true true; mkParticipant "cat" false true]
  ∧ is_Some (sockets afterCleanUp !! 4%nat).
Proof. repeat split; try (vm_compute; reflexivity). vm_compute. eauto. Qed.

(** ** Prompt selection *)

(** C8 fails on the code when the catalog holds a text twice.  The entry
    picked in round 1 is the one at index 1, but [indexOf] finds its text at
    index 0 and that is what [usedTopics] gets.  In round 2 index 1 is the
    only entry left, is picked again and is again recorded as 0: index 0 is
    recorded twice, index 1 is chosen twice and stays selectable. *)
Theorem duplicate_prompt_recorded_under_first_index :
  availableIndices dupTopics [] !! 1%nat = Some 1
  ∧ availableTopics dupTopics [] !! 1%nat = Some "lied about my age"
  ∧ indexOf dupTopics "lied about my age" = 0
  ∧ (w ← run dupTopics threePlayers initialWorld;
     w ← runUntil dupTopics 100 1 5000 w;
     w ← run dupTopics
           [CastInitialVote 1 "ABCD" "ann" "yes";
            CastInitialVote 2 "ABCD" "bob" "yes";
            CastInitialVote 3 "ABCD" "cat" "no"] w;
     runUntil dupTopics 1000 1 143000 w) = Some dupRoundTwo
  ∧ roundNumber (gameStateOf "ABCD" dupRoundTwo) = 2
  ∧ usedTopics (gameStateOf "ABCD" dupRoundTwo) = [0; 0]
  ∧ availableIndices dupTopics [0] = [1]
  ∧ availableIndices dupTopics [0; 0] = [1].
Proof. repeat split; vm_compute; reflexivity. Qed.

(** ** The end of the game *)

Lemma availableFrom_nil_used (i : Z) (used : list Z) (ts : list string) :
  availableFrom i used ts = [] → ∀ j, i ≤ j < i + Z.of_nat (length ts) → j ∈ used.
Proof.
  revert i. induction ts as [|t ts IH]; intros i Hnil j Hj; simpl in *; [lia|].
  case_bool_decide as Hi; [|done].
  destruct (decide (j = i)) as [->|Hne]; [done|].
  apply (IH (i + 1)); [done|lia].
Qed.

(** When no prompt is left unused, at least as many indices were recorded
    as the catalog has entries. *)
Lemma availableTopics_nil_length (topics : list string) (used : list Z) :
  availableTopics topics used = [] → (length topics ≤ length used)%nat.
Proof.
  intros Hnil.
  assert (seqZ 0 (Z.of_nat (length topics)) ⊆+ used) as Hsub.
  { apply NoDup_submseteq; [apply NoDup_seqZ|].
    intros j Hj%elem_of_seqZ. apply (availableFrom_nil_used 0 used topics Hnil). lia. }
  apply submseteq_length in Hsub. rewrite length_seqZ in Hsub. lia.
Qed.

(** C9, as the code has it.  When the callback that follows the scoreboard
    finds the incremented round number above [totalRounds], or as many
    recorded prompts as the catalog has entries (which is the case when no
    prompt is left unused), it runs [endGame]: the final scores are
    broadcast in ['game-ended'], the interval recorded in the game state is
    cleared, nothing further is scheduled, and the phase stays what it was:
    no phase ["ended"] is stored. *)
Theorem scoreboardNext_ends_game (topics : list string) (c : string) (r : nat) (w : World)
    (g : GameState) :
  gameStates w !! c = Some r →
  heap w !! r = Some g →
  totalRounds g < roundNumber g + 1
  ∨ (length topics ≤ length (usedTopics g))%nat
  ∨ availableTopics topics (usedTopics g) = [] →
  let w' := scoreboardNext topics c r w in
  emitted w' = (ToRoom c, GameEnded (scores g)) :: emitted w
  ∧ intervals w' = intervals (clearInterval (timerInterval g) w)
  ∧ (∀ h, timerInterval g = Some h → (h < length (intervals w))%nat →
          intervals w' !! h = Some None)
  ∧ timeouts w' = timeouts w
  ∧ ∃ g', heap w' !! r = Some g' ∧ phase g' = phase g
          ∧ roundNumber g' = roundNumber g + 1 ∧ scores g' = scores g.
Proof.
  intros Hr Hg Hcond w'. subst w'. unfold scoreboardNext. rewrite Hg. cbv zeta.
  assert (bool_decide (totalRounds g < roundNumber g + 1)
          || bool_decide (length topics ≤ length (usedTopics g))%nat = true) as ->.
  { apply orb_true_iff. destruct Hcond as [?|[?|?%availableTopics_nil_length]];
      [left|right|right]; by apply bool_decide_eq_true_2. }
  unfold endGame.
  rewrite (lookup_gs_modify_gs c r _ w g) by (by apply lookup_gs_Some).
  cbn. rewrite list_lookup_alter_eq, Hg. cbn.
  repeat split; eauto.
  intros h -> Hlt. by apply list_lookup_insert_eq.
Qed.

Lemma scoreboardNext_ends_game_witness :
  let w' := scoreboardNext oneTopic "ABCD" 0 oneTopicScoreboard in
  emitted w'
  = (ToRoom "ABCD", GameEnded (scores (gameStateOf "ABCD" oneTopicScoreboard)))
      :: emitted oneTopicScoreboard
  ∧ timeouts w' = timeouts oneTopicScoreboard.
Proof.
  intros w'.
  destruct (scoreboardNext_ends_game oneTopic "ABCD" 0 oneTopicScoreboard
              (gameStateOf "ABCD" oneTopicScoreboard))
    as (Hemit & _ & _ & Htime & _).
  - vm_compute. reflexivity.
  - vm_compute. reflexivity.
  - right. left. vm_compute. lia.
  - split; [exact Hemit|exact Htime].
Defined.

(** C9, as the spec has it, fails: after the only prompt of the catalog
    was played, the callback that follows the scoreboard ends the game and
    broadcasts the final scores, yet the phase of the game state is still
    ["scoreboard"], not ["ended"]. *)
Lemma phase_stays_scoreboard_after_game_ended :
  phase (gameStateOf "ABCD" oneTopicScoreboard) = "scoreboard"
  ∧ availableTopics oneTopic (usedTopics (gameStateOf "ABCD" oneTopicScoreboard)) = []
  ∧ runUntil oneTopic 100 0 150000 oneTopicScoreboard = Some oneTopicOver
  ∧ head (emitted oneTopicOver)
    = Some (ToRoom "ABCD", GameEnded (scores (gameStateOf "ABCD" oneTopicOver)))
  ∧ timeouts oneTopicOver = [None; None; None; None; None]
  ∧ activeCountdowns "ABCD" oneTopicOver = []
  ∧ phase (gameStateOf "ABCD" oneTopicOver) = "scoreboard"
  ∧ phase (gameStateOf "ABCD" oneTopicOver) ≠ "ended".
Proof. repeat split; try (vm_compute; reflexivity). vm_compute. discriminate. Qed.

(** * Further properties of the handlers and the game logic *)

(** ** Guesses *)

Lemma allPlayersGuessed_spec (gs : gmap string string) (sel : option string)
    (ps : list Participant) :
  forallb (λ p, bool_decide (is_Some (gs !! username p)))
    (List.filter (λ p, negb (bool_decide (sel = Some (username p))))
       (List.filter connected ps)) = true
  ↔ ∀ p, p ∈ ps → connected p = true → sel ≠ Some (username p) →
         is_Some (gs !! username p).
Proof.
  rewrite forallb_forall. split.
  - intros H p Hp Hc Hsel. eapply bool_decide_eq_true_1, H.
    apply filter_In. split; [apply filter_In; split; [by apply list_elem_of_In|done]|].
    by rewrite bool_decide_eq_false_2.
  - intros H p [[Hp Hc]%filter_In Hsel]%filter_In.
    apply negb_true_iff, bool_decide_eq_false_1 in Hsel.
    apply bool_decide_eq_true_2, H; [by apply list_elem_of_In|done..].
Qed.

(** X1.  The [make-guess] handler.  A guess of the selected player, or one sent
    outside the guessing phase, changes nothing.  Any other guess is stored
    over the sender's earlier one and leaves phase and scores alone; the
    results are scheduled one second later, and the countdown is stopped, only
    if with this guess every connected participant other than the selected
    player has guessed and at least 15 of the 30 seconds have elapsed;
    otherwise the timers stay as they are. *)
Theorem makeGuess_handler (c u v : string) (w : World) (r : nat) (g : GameState)
    (l : Lobby) :
  lookup_gs c w = Some (r, g) →
  lobbies w !! c = Some l →
  let w' := makeGuess c u v w in
  let early := allGuessersGuessed u v g l ∧ 15 ≤ 30 - timer g in
  (phase g ≠ "guessing" ∨ selectedPlayer g = Some u → w' = w)
  ∧ (phase g = "guessing" → selectedPlayer g ≠ Some u →
       (∃ g', heap w' !! r = Some g' ∧ guesses g' = <[u := v]> (guesses g)
              ∧ phase g' = "guessing" ∧ scores g' = scores g
              ∧ confession g' = confession g)
       ∧ (early →
            timeouts w' = timeouts w ++ [Some (now w + 1000, CbCalcConfession c)]
            ∧ ∀ h, timerInterval g = Some h → (h < length (intervals w))%nat →
                   intervals w' !! h = Some None)
       ∧ (¬ early → timeouts w' = timeouts w ∧ intervals w' = intervals w)).
Proof.
  intros Hg Hl w' early. subst w'. unfold makeGuess. rewrite Hg.
  pose proof (lookup_gs_heap _ _ _ _ Hg) as Hh. split.
  - intros [Hph|Hsel].
    + by rewrite (bool_decide_eq_false_2 _ Hph).
    + rewrite (bool_decide_eq_true_2 _ Hsel). by rewrite andb_false_r.
  - intros Hph Hsel.
    rewrite (bool_decide_eq_true_2 _ Hph), (bool_decide_eq_false_2 _ Hsel), Hl.
    cbn [andb negb]. cbv zeta.
    pose proof (allPlayersGuessed_spec (<[u:=v]> (guesses g)) (selectedPlayer g)
                  (participants l)) as Hall.
    destruct (forallb _ _) eqn:Hb.
    + assert (allGuessersGuessed u v g l) as Hyes by exact (proj1 Hall eq_refl).
      case_bool_decide as Ht.
      * split; [|split].
        -- unfold stopTimer. destruct (timerInterval g); cbn;
             rewrite ?list_lookup_alter_eq, Hh; cbn; eauto 10.
        -- intros _. unfold stopTimer. destruct (timerInterval g) as [h0|]; cbn.
           ++ split; [done|]. intros h [= <-] Hlt. by apply list_lookup_insert_eq.
           ++ done.
        -- intros Hno. destruct Hno. done.
      * split; [|split].
        -- cbn. rewrite list_lookup_alter_eq, Hh. cbn. eauto 10.
        -- intros [_ ?]. lia.
        -- done.
    + split; [|split].
      * cbn. rewrite list_lookup_alter_eq, Hh. cbn. eauto 10.
      * intros [Hyes _]. pose proof (proj2 Hall Hyes). congruence.
      * done.
Qed.

Lemma makeGuess_handler_witness :
  let g := gameStateOf "ABCD" guessingStarted in
  let w' := makeGuess "ABCD" "ann" "false" guessingStarted in
  (∃ g', heap w' !! 0%nat = Some g' ∧ guesses g' = <[ "ann" := "false" ]> (guesses g)
         ∧ phase g' = "guessing" ∧ scores g' = scores g
         ∧ confession g' = confession g)
  ∧ makeGuess "ABCD" "cat" "true" guessingStarted = guessingStarted.
Proof.
  intros g w'.
  destruct (makeGuess_handler "ABCD" "ann" "false" guessingStarted 0 g
              (lobbyOf "ABCD" guessingStarted)) as [_ Hacc];
    [vm_compute; reflexivity..|].
  destruct (makeGuess_handler "ABCD" "cat" "true" guessingStarted 0 g
              (lobbyOf "ABCD" guessingStarted)) as [Hrej _];
    [vm_compute; reflexivity..|].
  split.
  - apply Hacc; vm_compute; [reflexivity|discriminate].
  - apply Hrej. right. vm_compute. reflexivity.
Defined.

(** ** Selection of the confessing player *)

(** X2.  [selectRandomPlayer] selects a connected participant of the roster who
    has voted, records that participant's vote as [playerInitialVote],
    moves to ["player-selection"] without touching the scores and schedules
    the confession phase three seconds later.  When no connected participant
    has voted it ends the game instead and selects nobody. *)
Theorem selectRandomPlayer_selects_connected_voter (c : string) (rnd : nat) (w : World)
    (r : nat) (g : GameState) (l : Lobby) :
  lookup_gs c w = Some (r, g) →
  lobbies w !! c = Some l →
  let w' := selectRandomPlayer c rnd w in
  let anyEligible :=
    ∃ p, p ∈ participants l ∧ connected p = true
         ∧ is_Some (initialVotes g !! username p) in
  (¬ anyEligible → w' = endGame c w ∧ heap w' = heap w
                   ∧ head (emitted w') = Some (ToRoom c, GameEnded (scores g)))
  ∧ (anyEligible →
       ∃ p g', p ∈ participants l ∧ connected p = true
               ∧ is_Some (initialVotes g !! username p)
               ∧ heap w' !! r = Some g'
               ∧ selectedPlayer g' = Some (username p)
               ∧ playerInitialVote g' = initialVotes g !! username p
               ∧ phase g' = "player-selection"
               ∧ scores g' = scores g ∧ initialVotes g' = initialVotes g
               ∧ timeouts w' = timeouts w ++ [Some (now w + 3000, CbStartConfession c)]).
Proof.
  intros Hg Hl w' anyEligible. subst w'. unfold selectRandomPlayer. rewrite Hg, Hl.
  cbv zeta. pose proof (lookup_gs_heap _ _ _ _ Hg) as Hh.
  set (eligible := List.filter _ (participants l)).
  assert (∀ p, p ∈ eligible ↔ p ∈ participants l ∧ connected p = true
                               ∧ is_Some (initialVotes g !! username p)) as Hel.
  { intros p. unfold eligible. rewrite elem_of_filter_bool, andb_true_iff.
    rewrite bool_decide_eq_true. tauto. }
  destruct (eligible !! (rnd `mod` length eligible)%nat) as [p|] eqn:Hp.
  - split.
    + intros Hno. destruct Hno. exists p. apply Hel.
      by eapply list_elem_of_lookup_2.
    + intros _. apply list_elem_of_lookup_2, Hel in Hp as (Hin & Hc & Hv).
      exists p. eexists. do 3 (split; [done|]). split.
      { cbn. rewrite !list_lookup_alter_eq, Hh. done. }
      done.
  - split.
    + intros _. split; [done|]. unfold endGame. rewrite Hg. done.
    + intros (p & Hp'). apply Hel in Hp'. exfalso.
      apply lookup_ge_None in Hp. destruct eligible as [|q qs]; [by apply elem_of_nil in Hp'|].
      pose proof (Nat.mod_upper_bound rnd (length (q :: qs))). simpl in *. lia.
Qed.

Lemma selectRandomPlayer_selects_connected_voter_witness :
  let w := calculateInitialResults "ABCD" votedABC in
  ∃ p g', p ∈ participants (lobbyOf "ABCD" votedABC) ∧ connected p = true
          ∧ heap (selectRandomPlayer "ABCD" 2 w) !! 0%nat = Some g'
          ∧ selectedPlayer g' = Some (username p)
          ∧ phase g' = "player-selection".
Proof.
  intros w.
  destruct (selectRandomPlayer_selects_connected_voter "ABCD" 2 w 0
              (gameStateOf "ABCD" w) (lobbyOf "ABCD" votedABC)) as [_ Hsel];
    [vm_compute; reflexivity..|].
  destruct Hsel as (p & g' & Hin & Hc & _ & Hh & Hs & _ & Hph & _).
  { exists (mkParticipant "ann" true true).
    split; [apply list_elem_of_In; vm_compute; auto|].
    split; [reflexivity|]. vm_compute. eauto. }
  exists p, g'. repeat split; assumption.
Defined.

(** ** State synchronisation *)

(** X3.  [syncGameStateToPlayer] changes nothing but the list of sent messages,
    and adds at most one message, addressed to the requesting socket alone.
    For a socket that has joined under user name [u] the snapshot carries
    that user's own vote during initial voting and its results, the stored
    confession during the confession phase, that user's own guess during
    guessing and its results, and nothing in any other phase.  Without a game
    state, a lobby or a live socket nothing is sent. *)
Theorem syncGameStateToPlayer_unicast (sid : nat) (c : string) (w : World) :
  let w' := syncGameStateToPlayer sid c w in
  (lobbies w' = lobbies w ∧ gameStates w' = gameStates w ∧ heap w' = heap w
   ∧ disconnectedPlayers w' = disconnectedPlayers w ∧ sockets w' = sockets w
   ∧ timeouts w' = timeouts w ∧ intervals w' = intervals w ∧ now w' = now w)
  ∧ (emitted w' = emitted w
     ∨ ∃ g l v, emitted w' = (ToSocket sid, SyncGameState g l v) :: emitted w)
  ∧ (lookup_gs c w = None ∨ lobbies w !! c = None ∨ sockets w !! sid = None → w' = w)
  ∧ (∀ r g l s u,
       lookup_gs c w = Some (r, g) → lobbies w !! c = Some l →
       sockets w !! sid = Some s → sock_username s = Some u →
       ∃ v, emitted w' = (ToSocket sid, SyncGameState g l v) :: emitted w
            ∧ (phase g = "initial-voting" ∨ phase g = "initial-results" →
               v = initialVotes g !! u)
            ∧ (phase g = "confession" → v = confession g)
            ∧ (phase g = "guessing" ∨ phase g = "confession-results" →
               v = guesses g !! u)
            ∧ (phase g ≠ "initial-voting" → phase g ≠ "initial-results" →
               phase g ≠ "confession" → phase g ≠ "guessing" →
               phase g ≠ "confession-results" → v = None)).
Proof.
  intros w'. subst w'. unfold syncGameStateToPlayer.
  split; [by repeat case_match|]. split; [repeat case_match; cbn; eauto|].
  split.
  - intros [H|[H|H]]; repeat case_match; simplify_eq; done.
  - intros r g l s u -> -> -> Hu. rewrite Hu. eexists. split; [reflexivity|].
    repeat split.
    + intros [Hph|Hph]; rewrite Hph; done.
    + intros Hph. rewrite Hph. done.
    + intros [Hph|Hph]; rewrite Hph; done.
    + intros H1 H2 H3 H4 H5.
      by rewrite !bool_decide_eq_false_2.
Qed.

(** ** Starting a game *)

(** X4.  The [start-game] handler.  A request that does not name the host, or
    that comes while fewer than two participants are in the roster, changes
    nothing.  An accepted request creates a fresh game state for the
    session: first round, voting phase, 15 rounds, no prompt used, and a
    score of 0 for exactly the users of the roster; the objects already on
    the heap are left as they are, the lobby is marked started with its
    roster unchanged, and the first round is scheduled two seconds later. *)
Theorem startGame_fresh_state (c u : string) (w : World) (l : Lobby) :
  lobbies w !! c = Some l →
  let w' := startGame c u w in
  (host l ≠ u ∨ (length (participants l) < 2)%nat → w' = w)
  ∧ (host l = u → (2 ≤ length (participants l))%nat →
       (∃ g, lookup_gs c w' = Some (length (heap w), g)
             ∧ phase g = "initial-voting" ∧ roundNumber g = 1 ∧ totalRounds g = 15
             ∧ usedTopics g = [] ∧ initialVotes g = ∅ ∧ guesses g = ∅
             ∧ timerInterval g = None
             ∧ ∀ x, scores g !! x =
                      if bool_decide (x ∈ username <$> participants l)
                      then Some (Num 0) else None)
       ∧ (∀ r g0, heap w !! r = Some g0 → heap w' !! r = Some g0)
       ∧ lobbies w' !! c = Some (with_gameStarted true l)
       ∧ timeouts w' = timeouts w ++ [Some (now w + 2000, CbStartInitialVoting c)]
       ∧ intervals w' = intervals w).
Proof.
  intros Hl w'. subst w'. unfold startGame. rewrite Hl. split.
  - intros [Hh|Hlen].
    + by rewrite (bool_decide_eq_false_2 _ Hh).
    + rewrite (bool_decide_eq_false_2 (2 ≤ _)%nat) by lia. by rewrite andb_false_r.
  - intros Hh Hlen. rewrite !bool_decide_eq_true_2 by done. cbn [andb]. cbv zeta.
    split; [|split; [|split; [|done]]].
    + eexists. split.
      * apply lookup_gs_Some. cbn. rewrite lookup_insert_eq. split; [done|].
        rewrite lookup_app_r by done. by rewrite Nat.sub_diag.
      * cbn. repeat split. intros x. case_bool_decide.
        -- by apply seedScores_lookup_in.
        -- etrans; [by apply seedScores_lookup_notin|]. apply lookup_empty.
    + intros r g0 Hr. cbn. by apply lookup_app_l_Some.
    + cbn. by rewrite lookup_insert_eq.
Qed.

Lemma startGame_fresh_state_witness :
  (∃ g, lookup_gs "ABCD" (startGame "ABCD" "ann" lobbyReady) = Some (0%nat, g)
        ∧ scores g !! "bob" = Some (Num 0) ∧ scores g !! "dan" = None)
  ∧ startGame "ABCD" "bob" lobbyReady = lobbyReady.
Proof.
  destruct (startGame_fresh_state "ABCD" "ann" lobbyReady (lobbyOf "ABCD" lobbyReady))
    as [_ Hok]; [vm_compute; reflexivity|].
  destruct (startGame_fresh_state "ABCD" "bob" lobbyReady (lobbyOf "ABCD" lobbyReady))
    as [Hno _]; [vm_compute; reflexivity|].
  split.
  - destruct Hok as ((g & Hg & _ & _ & _ & _ & _ & _ & _ & Hsc) & _);
      [vm_compute; reflexivity|vm_compute; lia|].
    exists g. split; [exact Hg|]. split; rewrite Hsc; vm_compute; reflexivity.
  - apply Hno. left. vm_compute. discriminate.
Defined.

(** ** The roster *)

Lemma findParticipant_is_Some (u : string) (ps : list Participant) :
  is_Some (findParticipant u ps) ↔ u ∈ username <$> ps.
Proof.
  unfold findParticipant. induction ps as [|p ps IH]; csimpl.
  - split; [by intros [? ?]|by intros ?%elem_of_nil].
  - case_bool_decide as Hp.
    + split; [intros _; rewrite Hp; by left|eauto].
    + rewrite IH. split; [by right|]. intros [?|?]%elem_of_cons; [congruence|done].
Qed.

Lemma findParticipant_None (u : string) (ps : list Participant) :
  findParticipant u ps = None ↔ u ∉ username <$> ps.
Proof.
  rewrite <- findParticipant_is_Some, <- eq_None_not_Some. done.
Qed.

Lemma setConnected_usernames (u : string) (b : bool) (ps : list Participant) :
  username <$> setConnected u b ps = username <$> ps.
Proof.
  induction ps as [|p ps IH]; csimpl; [done|].
  case_bool_decide; csimpl; [done|]. by rewrite IH.
Qed.

Lemma setConnected_notin (u : string) (b : bool) (ps : list Participant) :
  u ∉ username <$> ps → setConnected u b ps = ps.
Proof.
  induction ps as [|p ps IH]; csimpl; [done|]. intros Hn.
  rewrite bool_decide_eq_false_2 by set_solver. rewrite IH by set_solver. done.
Qed.

(** With pairwise distinct user names, [setConnected] changes the flag of
    user [u] and nothing else. *)
Lemma setConnected_NoDup (u : string) (b : bool) (ps : list Participant) :
  NoDup (username <$> ps) → setConnected u b ps = markConnected u b <$> ps.
Proof.
  induction ps as [|p ps IH]; csimpl; [done|]. intros [Hp Hnd]%NoDup_cons.
  unfold markConnected at 1. case_bool_decide as Hu.
  - f_equal. rewrite <- (setConnected_notin u b ps) at 1 by (by rewrite <- Hu).
    by apply IH.
  - f_equal. by apply IH.
Qed.

Lemma setConnected_idemp (u : string) (b : bool) (ps : list Participant) :
  setConnected u b (setConnected u b ps) = setConnected u b ps.
Proof.
  induction ps as [|p ps IH]; csimpl; [done|].
  case_bool_decide as Hu; csimpl.
  - by rewrite bool_decide_eq_true_2.
  - rewrite bool_decide_eq_false_2 by done. by rewrite IH.
Qed.

Lemma setConnected_snoc_new (u : string) (ps : list Participant) :
  u ∉ username <$> ps →
  setConnected u true (ps ++ [mkParticipant u false true])
  = ps ++ [mkParticipant u false true].
Proof.
  induction ps as [|p ps IH]; csimpl; intros Hn.
  - by rewrite bool_decide_eq_true_2.
  - rewrite bool_decide_eq_false_2 by set_solver. rewrite IH by set_solver. done.
Qed.

Lemma set_lobbies_id (w : World) (m : gmap string Lobby) :
  m = lobbies w → set_lobbies m w = w.
Proof. intros ->. by destruct w. Qed.

(** X5.  [POST /api/lobby/join] for a lobby that exists whose roster has
    pairwise distinct user names.  A user already in the roster is marked
    connected in place and nothing else changes, game states included.  A new
    user is appended to the roster as a connected non-host, and gets a score
    of 0 in the game state of the session if there is one.  In both cases
    the user names of the roster stay pairwise distinct, and the other
    lobbies are untouched. *)
Theorem httpJoin_roster (c u : string) (w : World) (l : Lobby) :
  lobbies w !! c = Some l →
  NoDup (username <$> participants l) →
  c ≠ "" → u ≠ "" →
  let w' := httpJoin c u w in
  (u ∈ username <$> participants l →
     lobbies w' !! c
     = Some (with_participants (markConnected u true <$> participants l) l)
     ∧ heap w' = heap w)
  ∧ (u ∉ username <$> participants l →
       lobbies w' !! c
       = Some (with_participants (participants l ++ [mkParticipant u false true]) l)
       ∧ (∀ r g, lookup_gs c w = Some (r, g) →
                 lookup_gs c w' = Some (r, set_scores (<[u := Num 0]> (scores g)) g))
       ∧ (lookup_gs c w = None → heap w' = heap w))
  ∧ (∃ l', lobbies w' !! c = Some l' ∧ NoDup (username <$> participants l')
           ∧ u ∈ username <$> participants l' ∧ host l' = host l)
  ∧ (∀ c', c' ≠ c → lobbies w' !! c' = lobbies w !! c')
  ∧ gameStates w' = gameStates w ∧ timeouts w' = timeouts w.
Proof.
  intros Hl Hnd Hc Hu w'. subst w'. unfold httpJoin.
  rewrite (bool_decide_eq_false_2 _ Hc), (bool_decide_eq_false_2 _ Hu), Hl. cbn [orb].
  destruct (findParticipant u (participants l)) as [p|] eqn:Hfind.
  - assert (u ∈ username <$> participants l) as Hin
      by (apply findParticipant_is_Some; eauto).
    cbn. rewrite lookup_insert_eq, setConnected_NoDup by done.
    split; [done|]. split; [done|]. split; [|split; [|done]].
    + eexists. split; [done|]. cbn.
      rewrite <- setConnected_NoDup, setConnected_usernames by done. done.
    + intros c' Hne. by rewrite lookup_insert_ne.
  - assert (u ∉ username <$> participants l) as Hnin
      by (by apply findParticipant_None).
    cbv zeta.
    assert (∀ w1, lobbies (match lookup_gs c w1 with
                           | Some (r, g) =>
                               modify_gs r (set_scores (<[u:=Num 0]> (scores g))) w1
                           | None => w1
                           end) = lobbies w1
                  ∧ gameStates (match lookup_gs c w1 with
                           | Some (r, g) =>
                               modify_gs r (set_scores (<[u:=Num 0]> (scores g))) w1
                           | None => w1
                           end) = gameStates w1
                  ∧ timeouts (match lookup_gs c w1 with
                           | Some (r, g) =>
                               modify_gs r (set_scores (<[u:=Num 0]> (scores g))) w1
                           | None => w1
                           end) = timeouts w1) as Hframe.
    { intros w1. by repeat case_match. }
    destruct (Hframe (set_lobbies (<[c:=with_participants
                 (participants l ++ [mkParticipant u false true]) l]> (lobbies w)) w))
      as (-> & -> & ->).
    cbn. rewrite lookup_insert_eq.
    split; [done|]. split; [|split; [|split; [|done]]].
    + intros _. split; [done|].
      change (lookup_gs c (set_lobbies ?m w)) with (lookup_gs c w). split.
      * intros r g Hg. rewrite Hg.
        rewrite (lookup_gs_modify_gs c r _ (set_lobbies _ w) g Hg). done.
      * intros ->. done.
    + eexists. split; [done|]. cbn. rewrite fmap_app. cbn.
      split; [|split; [set_solver|done]].
      apply NoDup_app. split; [done|]. split; [set_solver|apply NoDup_singleton].
    + intros c' Hne. by rewrite lookup_insert_ne.
Qed.

Lemma httpJoin_roster_witness :
  let w' := httpJoin "ABCD" "dan" votedABC in
  (∃ l', lobbies w' !! "ABCD" = Some l'
         ∧ username <$> participants l' = ["ann"; "bob"; "cat"; "dan"])
  ∧ ∃ g', lookup_gs "ABCD" w' = Some (0%nat, g') ∧ scores g' !! "dan" = Some (Num 0).
Proof.
  intros w'.
  destruct (httpJoin_roster "ABCD" "dan" votedABC (lobbyOf "ABCD" votedABC))
    as (_ & Hnew & _); [vm_compute; reflexivity| |discriminate..|].
  { apply (bool_decide_unpack _). vm_compute. exact I. }
  destruct Hnew as (Hl & Hg & _).
  { apply (bool_decide_unpack _). vm_compute. exact I. }
  split.
  - eexists. split; [exact Hl|]. vm_compute. reflexivity.
  - eexists. split; [apply (Hg 0%nat (gameStateOf "ABCD" votedABC)); vm_compute;
                     reflexivity|].
    vm_compute. reflexivity.
Defined.

(** X6.  Joining is idempotent: a second [POST /api/lobby/join] with the same
    code and user name changes nothing more.  A request with an empty code or
    user name, or for a lobby that does not exist, changes nothing at all. *)
Theorem httpJoin_idempotent (c u : string) (w : World) :
  (c = "" ∨ u = "" ∨ lobbies w !! c = None → httpJoin c u w = w)
  ∧ httpJoin c u (httpJoin c u w) = httpJoin c u w.
Proof.
  split.
  - unfold httpJoin. intros [->|[->|Hl]].
    + done.
    + by rewrite orb_true_r.
    + rewrite Hl. by case_match.
  - unfold httpJoin at 2 3.
    destruct (bool_decide (c = "") || bool_decide (u = "")) eqn:Hrej.
    { unfold httpJoin. by rewrite Hrej. }
    destruct (lobbies w !! c) as [l|] eqn:Hl.
    2: { unfold httpJoin. by rewrite Hrej, Hl. }
    destruct (findParticipant u (participants l)) as [p|] eqn:Hfind.
    + unfold httpJoin. rewrite Hrej. cbn [lobbies set_lobbies].
      rewrite lookup_insert_eq. cbn [participants with_participants].
      assert (is_Some (findParticipant u (setConnected u true (participants l))))
        as [q ->].
      { apply findParticipant_is_Some. rewrite setConnected_usernames.
        apply findParticipant_is_Some. eauto. }
      rewrite setConnected_idemp. cbn. by rewrite insert_insert_eq.
    + apply findParticipant_None in Hfind. cbv zeta.
      set (l' := with_participants (participants l ++ [mkParticipant u false true]) l).
      set (w1 := set_lobbies (<[c:=l']> (lobbies w)) w).
      set (w2 := match lookup_gs c w1 with
                 | Some (r, g) => modify_gs r (set_scores (<[u:=Num 0]> (scores g))) w1
                 | None => w1
                 end).
      assert (lobbies w2 = <[c:=l']> (lobbies w)) as Hl2
        by (unfold w2; by repeat case_match).
      unfold httpJoin. rewrite Hrej, Hl2, lookup_insert_eq.
      assert (is_Some (findParticipant u (participants l'))) as [q ->].
      { apply findParticipant_is_Some. cbn. rewrite fmap_app. set_solver. }
      cbn [participants l' with_participants].
      rewrite setConnected_snoc_new by done.
      apply set_lobbies_id. rewrite Hl2. by rewrite insert_insert_eq.
Qed.

(** ** The clean-up of old disconnected players *)

Lemma sweepEntry_frame (w : World) (e : string * Tracked) :
  heap (sweepEntry w e) = heap w ∧ gameStates (sweepEntry w e) = gameStates w
  ∧ sockets (sweepEntry w e) = sockets w ∧ timeouts (sweepEntry w e) = timeouts w
  ∧ intervals (sweepEntry w e) = intervals w ∧ now (sweepEntry w e) = now w.
Proof. unfold sweepEntry. by repeat case_match. Qed.

Lemma sweepEntry_lobbies (w : World) (e : string * Tracked) (c : string) :
  lobbies (sweepEntry w e) !! c
  = if bool_decide (expired (now w) e ∧ t_code e.2 = c)
    then (λ l, with_participants (removeParticipant e.1 (participants l)) l)
           <$> lobbies w !! c
    else lobbies w !! c.
Proof.
  unfold sweepEntry, expired. cbv zeta. case_bool_decide as Hexp.
  - destruct (lobbies w !! t_code e.2) as [l|] eqn:Hl; cbn.
    + destruct (decide (t_code e.2 = c)) as [<-|Hne].
      * rewrite lookup_insert_eq, bool_decide_eq_true_2, Hl by done. done.
      * rewrite lookup_insert_ne, bool_decide_eq_false_2 by tauto. done.
    + case_bool_decide as Hc; [|done]. destruct Hc as [_ <-]. by rewrite Hl.
  - rewrite bool_decide_eq_false_2 by tauto. done.
Qed.

Lemma sweepEntry_tracked (w : World) (e : string * Tracked) :
  disconnectedPlayers (sweepEntry w e)
  = if bool_decide (expired (now w) e)
    then mapDelete e.1 (disconnectedPlayers w) else disconnectedPlayers w.
Proof.
  assert (bool_decide (expired (now w) e)
          = bool_decide (5 * 60 * 1000 < now w - t_timestamp e.2)) as -> by reflexivity.
  unfold sweepEntry. cbv zeta. case_bool_decide.
  - rewrite bool_decide_eq_true_2 by done. by case_match.
  - by rewrite bool_decide_eq_false_2.
Qed.

Lemma elem_of_removeParticipant (u : string) (ps : list Participant) (p : Participant) :
  p ∈ removeParticipant u ps ↔ p ∈ ps ∧ username p ≠ u.
Proof.
  unfold removeParticipant. rewrite elem_of_filter_bool, negb_true_iff.
  by rewrite bool_decide_eq_false.
Qed.

Lemma elem_of_mapDelete (k : string) (m : list (string * Tracked)) (e : string * Tracked) :
  e ∈ mapDelete k m ↔ e ∈ m ∧ e.1 ≠ k.
Proof.
  unfold mapDelete. rewrite elem_of_filter_bool, negb_true_iff.
  by rewrite bool_decide_eq_false.
Qed.

Lemma foldl_sweepEntry_now (es : list (string * Tracked)) (w : World) :
  now (foldl sweepEntry w es) = now w.
Proof.
  revert w. induction es as [|e es IH]; intros w; [done|].
  simpl. rewrite IH. apply sweepEntry_frame.
Qed.

Lemma foldl_sweepEntry_keeps (es : list (string * Tracked)) (w : World) (c : string)
    (l : Lobby) (p : Participant) :
  lobbies w !! c = Some l → p ∈ participants l →
  (∀ e, e ∈ es → e.1 = username p → t_code e.2 = c → ¬ expired (now w) e) →
  ∃ l', lobbies (foldl sweepEntry w es) !! c = Some l' ∧ p ∈ participants l'.
Proof.
  revert w l. induction es as [|e es IH]; intros w l Hl Hp Hno; [eauto|].
  simpl. pose proof (sweepEntry_lobbies w e c) as Hstep. rewrite Hl in Hstep.
  case_bool_decide as Hexp.
  - eapply IH; [exact Hstep| |].
    + cbn. apply elem_of_removeParticipant. split; [done|].
      intros Heq. destruct Hexp as [Hexp Hc]. by apply (Hno e); [left|..].
    + intros e' He'. destruct (sweepEntry_frame w e) as (_ & _ & _ & _ & _ & ->).
      apply Hno. by right.
  - eapply IH; [exact Hstep|done|].
    intros e' He'. destruct (sweepEntry_frame w e) as (_ & _ & _ & _ & _ & ->).
    apply Hno. by right.
Qed.

(** The clean-up only ever shortens a roster. *)
Lemma foldl_sweepEntry_shrinks (es : list (string * Tracked)) (w : World) (c : string)
    (l' : Lobby) :
  lobbies (foldl sweepEntry w es) !! c = Some l' →
  ∃ l, lobbies w !! c = Some l ∧ host l' = host l
       ∧ ∀ p, p ∈ participants l' → p ∈ participants l.
Proof.
  revert w l'. induction es as [|e es IH]; intros w l' Hl'; [eauto|].
  simpl in Hl'. apply IH in Hl' as (l1 & Hl1 & Hhost & Hsub).
  rewrite sweepEntry_lobbies in Hl1. case_bool_decide.
  - destruct (lobbies w !! c) as [l|]; [|done]. simplify_eq/=.
    exists l. split; [done|]. split; [done|].
    intros p Hp. by apply Hsub, elem_of_removeParticipant in Hp as [? _].
  - eauto.
Qed.

Lemma foldl_sweepEntry_exists (es : list (string * Tracked)) (w : World) (c : string) :
  is_Some (lobbies (foldl sweepEntry w es) !! c) ↔ is_Some (lobbies w !! c).
Proof.
  revert w. induction es as [|e es IH]; intros w; [done|].
  simpl. rewrite IH, sweepEntry_lobbies. case_bool_decide; [|done].
  by rewrite fmap_is_Some.
Qed.

Lemma foldl_sweepEntry_evicts (es : list (string * Tracked)) (w : World)
    (e : string * Tracked) (l' : Lobby) :
  e ∈ es → expired (now w) e →
  lobbies (foldl sweepEntry w es) !! t_code e.2 = Some l' →
  e.1 ∉ username <$> participants l'.
Proof.
  revert w. induction es as [|e0 es IH]; intros w Hin Hexp Hl'.
  - by apply elem_of_nil in Hin.
  - simpl in Hl'. apply elem_of_cons in Hin as [<-|Hin].
    + apply foldl_sweepEntry_shrinks in Hl' as (l1 & Hl1 & _ & Hsub).
      rewrite sweepEntry_lobbies, bool_decide_eq_true_2 in Hl1 by done.
      destruct (lobbies w !! t_code e.2) as [l|]; [|done]. simplify_eq/=.
      intros (p & Hu & Hp)%list_elem_of_fmap.
      apply Hsub, elem_of_removeParticipant in Hp as [_ Hne]. done.
    + eapply IH; [done| |exact Hl'].
      by destruct (sweepEntry_frame w e0) as (_ & _ & _ & _ & _ & ->).
Qed.

Lemma foldl_sweepEntry_tracked_sub (es : list (string * Tracked)) (w : World)
    (e : string * Tracked) :
  e ∈ disconnectedPlayers (foldl sweepEntry w es) → e ∈ disconnectedPlayers w.
Proof.
  revert w. induction es as [|e0 es IH]; intros w He; [done|].
  simpl in He. apply IH in He. rewrite sweepEntry_tracked in He.
  case_bool_decide; [|done]. by apply elem_of_mapDelete in He as [? _].
Qed.

Lemma foldl_sweepEntry_deletes (es : list (string * Tracked)) (w : World)
    (e : string * Tracked) :
  e ∈ es → expired (now w) e → e.1 ∉ (fst <$> disconnectedPlayers (foldl sweepEntry w es)).
Proof.
  revert w. induction es as [|e0 es IH]; intros w Hin Hexp.
  - by apply elem_of_nil in Hin.
  - simpl. apply elem_of_cons in Hin as [<-|Hin].
    + intros (e' & Hk & He')%list_elem_of_fmap.
      apply foldl_sweepEntry_tracked_sub in He'.
      rewrite sweepEntry_tracked, bool_decide_eq_true_2 in He' by done.
      apply elem_of_mapDelete in He' as [_ Hne]. done.
    + apply IH; [done|].
      by destruct (sweepEntry_frame w e0) as (_ & _ & _ & _ & _ & ->).
Qed.

Lemma foldl_sweepEntry_retains (es : list (string * Tracked)) (w : World)
    (e : string * Tracked) :
  e ∈ disconnectedPlayers w →
  (∀ e', e' ∈ es → e'.1 = e.1 → ¬ expired (now w) e') →
  e ∈ disconnectedPlayers (foldl sweepEntry w es).
Proof.
  revert w. induction es as [|e0 es IH]; intros w He Hno; [done|].
  simpl. apply IH.
  - rewrite sweepEntry_tracked. case_bool_decide as Hexp; [|done].
    apply elem_of_mapDelete. split; [done|]. intros Heq.
    by apply (Hno e0); [left|..].
  - intros e' He'. destruct (sweepEntry_frame w e0) as (_ & _ & _ & _ & _ & ->).
    apply Hno. by right.
Qed.

(** X7.  The clean-up of old disconnected players touches only rosters and the
    tracker.  It neither creates nor deletes a lobby.  A participant stays in
    the roster unless the tracker holds an entry for that user and that
    lobby that is older than five minutes; the user of every such entry is
    gone from the roster of its lobby afterwards and the entry is deleted.
    A tracked user none of whose entries is that old stays tracked. *)
Theorem sweep_evicts_expired_only (w : World) :
  let w' := sweep w in
  (heap w' = heap w ∧ gameStates w' = gameStates w ∧ sockets w' = sockets w
   ∧ timeouts w' = timeouts w ∧ intervals w' = intervals w ∧ now w' = now w)
  ∧ (∀ c, is_Some (lobbies w' !! c) ↔ is_Some (lobbies w !! c))
  ∧ (∀ c l p, lobbies w !! c = Some l → p ∈ participants l →
       (∀ e, e ∈ disconnectedPlayers w → e.1 = username p → t_code e.2 = c →
             ¬ expired (now w) e) →
       ∃ l', lobbies w' !! c = Some l' ∧ p ∈ participants l')
  ∧ (∀ e l', e ∈ disconnectedPlayers w → expired (now w) e →
             lobbies w' !! t_code e.2 = Some l' → e.1 ∉ username <$> participants l')
  ∧ (∀ e, e ∈ disconnectedPlayers w → expired (now w) e →
          e.1 ∉ (fst <$> disconnectedPlayers w'))
  ∧ (∀ e, e ∈ disconnectedPlayers w →
          (∀ e', e' ∈ disconnectedPlayers w → e'.1 = e.1 → ¬ expired (now w) e') →
          e ∈ disconnectedPlayers w').
Proof.
  intros w'. subst w'. unfold sweep. split; [|split; [|split; [|split; [|split]]]].
  - generalize (disconnectedPlayers w) as es. intros es. revert w.
    induction es as [|e es IH]; intros w; [done|]. simpl.
    destruct (IH (sweepEntry w e)) as (-> & -> & -> & -> & -> & ->).
    apply sweepEntry_frame.
  - intros c. apply foldl_sweepEntry_exists.
  - intros c l p. apply foldl_sweepEntry_keeps.
  - intros e l'. apply foldl_sweepEntry_evicts.
  - intros e. apply foldl_sweepEntry_deletes.
  - intros e. apply foldl_sweepEntry_retains.
Qed.

(** ** The countdown *)

Lemma countdownTick_running (c : string) (r : nat) (cb : TimerCb) (w : World)
    (g : GameState) :
  heap w !! r = Some g → 1 < timer g →
  countdownTick c r cb w
  = emit (ToRoom c) (GameTimer (timer g - 1)) (modify_gs r (set_timer (timer g - 1)) w).
Proof.
  intros Hg Ht. unfold countdownTick. rewrite Hg. cbv zeta.
  by rewrite bool_decide_eq_false_2 by lia.
Qed.

Lemma countdown_ticks_before_zero (c : string) (r : nat) (cb : TimerCb) (w : World)
    (g : GameState) (n : nat) :
  heap w !! r = Some g → Z.of_nat n < timer g →
  let w' := Nat.iter n (countdownTick c r cb) w in
  heap w' !! r = Some (set_timer (timer g - Z.of_nat n) g)
  ∧ (∀ r', r' ≠ r → heap w' !! r' = heap w !! r')
  ∧ timeouts w' = timeouts w ∧ intervals w' = intervals w
  ∧ lobbies w' = lobbies w ∧ gameStates w' = gameStates w
  ∧ emitted w'
    = ((λ k, (ToRoom c, GameTimer (timer g - Z.of_nat k))) <$> reverse (seq 1 n))
        ++ emitted w.
Proof.
  intros Hg. induction n as [|n IH]; intros Hn w'; subst w'.
  - simpl. rewrite Z.sub_0_r. split; [by destruct g|]. done.
  - destruct IH as (Hh & Hother & Ht & Hi & Hl & Hgs & He); [lia|].
    simpl Nat.iter. set (wn := Nat.iter n (countdownTick c r cb) w) in *.
    rewrite (countdownTick_running c r cb wn _ Hh) by (cbn; lia).
    cbn -[seq reverse]. rewrite list_lookup_alter_eq, Hh. cbn -[seq reverse].
    split; [unfold set_timer; cbn; do 2 f_equal; lia|]. split.
    { intros r' Hne. rewrite list_lookup_alter_ne by done. by apply Hother. }
    do 4 (split; [done|]).
    rewrite He, seq_S, reverse_app. cbn. do 3 f_equal. lia.
Qed.

(** X8.  A countdown that reads [s] runs its callback on the [s]-th tick and on
    no earlier one.  Each of the first [s - 1] ticks only lowers the timer by
    one and broadcasts the new value: no timer is set or cleared and no other
    game state changes.  The [s]-th tick broadcasts 0, clears the interval
    recorded in the game state, resets the handle and then runs the
    callback. *)
Theorem countdown_runs_callback_on_last_tick (c : string) (r : nat) (cb : TimerCb)
    (w : World) (g : GameState) (n : nat) :
  heap w !! r = Some g →
  Z.of_nat n < timer g →
  let w' := Nat.iter n (countdownTick c r cb) w in
  (heap w' !! r = Some (set_timer (timer g - Z.of_nat n) g)
   ∧ (∀ r', r' ≠ r → heap w' !! r' = heap w !! r')
   ∧ timeouts w' = timeouts w ∧ intervals w' = intervals w
   ∧ lobbies w' = lobbies w ∧ gameStates w' = gameStates w
   ∧ emitted w'
     = ((λ k, (ToRoom c, GameTimer (timer g - Z.of_nat k))) <$> reverse (seq 1 n))
         ++ emitted w)
  ∧ (timer g = Z.of_nat (S n) →
       ∃ w0, countdownTick c r cb w' = runTimerCb cb w0
             ∧ heap w0 !! r = Some (set_timerInterval None (set_timer 0 g))
             ∧ intervals w0 = intervals (clearInterval (timerInterval g) w)
             ∧ timeouts w0 = timeouts w
             ∧ emitted w0 = (ToRoom c, GameTimer 0) :: emitted w').
Proof.
  intros Hg Hn w'.
  pose proof (countdown_ticks_before_zero c r cb w g n Hg Hn) as Hticks.
  split; [exact Hticks|].
  destruct Hticks as (Hh & _ & Ht & Hi & _ & _ & _). fold w' in Hh, Ht, Hi.
  intros Hlast. unfold countdownTick. rewrite Hh. cbv zeta.
  cbn [timer set_timer]. rewrite bool_decide_eq_true_2 by lia.
  eexists. split; [reflexivity|]. cbn.
  rewrite !list_lookup_alter_eq, Hh, Hi, Ht. cbn.
  replace (timer g - Z.of_nat n - 1) with 0 by lia. done.
Qed.

Lemma countdown_runs_callback_on_last_tick_witness :
  let g := gameStateOf "ABCD" votedABC in
  let w' := Nat.iter 26 (countdownTick "ABCD" 0 (TcCalcInitial "ABCD")) votedABC in
  timer g = 27
  ∧ heap w' !! 0%nat = Some (set_timer 1 g)
  ∧ timeouts w' = timeouts votedABC
  ∧ ∃ w0, countdownTick "ABCD" 0 (TcCalcInitial "ABCD") w'
          = calculateInitialResults "ABCD" w0
          ∧ intervals w0 !! 1%nat = Some None.
Proof.
  intros g w'.
  destruct (countdown_runs_callback_on_last_tick "ABCD" 0 (TcCalcInitial "ABCD")
              votedABC g 26) as ((Hh & _ & Ht & _) & Hlast);
    [vm_compute; reflexivity..|].
  split; [vm_compute; reflexivity|]. split; [exact Hh|]. split; [exact Ht|].
  destruct Hlast as (w0 & Hrun & _ & Hi & _); [vm_compute; reflexivity|].
  exists w0. split; [exact Hrun|]. rewrite Hi. vm_compute. reflexivity.
Defined.

(** ** The confession phase *)

Lemma startTimer_gs_eq (c : string) (s : Z) (cb : TimerCb) (w : World) (r : nat)
    (g : GameState) :
  lookup_gs c w = Some (r, g) →
  lookup_gs c (startTimer c s cb w)
  = Some (r, set_timerInterval (Some (length (intervals w))) (set_timer s g))
  ∧ intervals (startTimer c s cb w)
    = intervals (clearInterval (timerInterval g) w)
        ++ [Some (mkInterval (now w + 1000) 1000 (Countdown c r cb))]
  ∧ timeouts (startTimer c s cb w) = timeouts w
  ∧ emitted (startTimer c s cb w) = emitted w.
Proof.
  intros Hg. unfold startTimer, setInterval. rewrite Hg. cbv zeta.
  split; [|done].
  erewrite (lookup_gs_modify_gs c r).
  2: { change (lookup_gs c (set_intervals ?i (clearInterval ?h ?x)))
         with (lookup_gs c x).
       apply lookup_gs_modify_gs. exact Hg. }
  cbn. destruct (timerInterval g); cbn; by rewrite ?length_insert.
Qed.

(** X9.  The confession phase.  [startConfessionPhase] clears the stored
    confession, keeps the selected player and the scores, and starts a
    60-second countdown.  When that countdown expires, a confession that is
    still missing is stored as ["true"] and one that was made is kept; the
    guessing phase then starts with no guesses and a fresh 30-second
    countdown whose expiry computes the results. *)
Theorem confession_timeout_defaults_to_true (c : string) (w : World) (r : nat)
    (g : GameState) :
  lookup_gs c w = Some (r, g) →
  (∃ g', lookup_gs c (startConfessionPhase c w) = Some (r, g')
         ∧ phase g' = "confession" ∧ confession g' = None ∧ timer g' = 60
         ∧ selectedPlayer g' = selectedPlayer g ∧ scores g' = scores g
         ∧ timerInterval g' = Some (length (intervals w))
         ∧ intervals (startConfessionPhase c w) !! length (intervals w)
           = Some (Some (mkInterval (now w + 1000) 1000
                           (Countdown c r (TcConfessionTimeout c r)))))
  ∧ (∃ g', lookup_gs c (runTimerCb (TcConfessionTimeout c r) w) = Some (r, g')
           ∧ confession g' = Some (default "true" (confession g))
           ∧ phase g' = "guessing" ∧ guesses g' = ∅ ∧ timer g' = 30
           ∧ selectedPlayer g' = selectedPlayer g ∧ scores g' = scores g
           ∧ intervals (runTimerCb (TcConfessionTimeout c r) w) !! length (intervals w)
             = Some (Some (mkInterval (now w + 1000) 1000
                             (Countdown c r (TcCalcConfession c))))).
Proof.
  intros Hg. split.
  - unfold startConfessionPhase. rewrite Hg. cbv zeta.
    edestruct (startTimer_gs_eq c 60 (TcConfessionTimeout c r)) as (-> & -> & _).
    { change (lookup_gs c (emit ?d ?m ?x)) with (lookup_gs c x).
      do 3 apply lookup_gs_modify_gs. exact Hg. }
    eexists. split; [reflexivity|]. cbn. repeat split.
    destruct (timerInterval g); cbn;
      rewrite lookup_app_r; rewrite ?length_insert; try done;
      by rewrite Nat.sub_diag.
  - cbn [runTimerCb]. unfold startGuessingPhase.
    erewrite (lookup_gs_modify_gs c r) by exact Hg. cbv zeta.
    edestruct (startTimer_gs_eq c 30 (TcCalcConfession c)) as (-> & -> & _).
    { change (lookup_gs c (emit ?d ?m ?x)) with (lookup_gs c x).
      do 4 apply lookup_gs_modify_gs. exact Hg. }
    eexists. split; [reflexivity|]. cbn.
    destruct (confession g) as [s|] eqn:Hconf; cbn; (split; [done|]);
      repeat split;
      destruct (timerInterval g); cbn;
        rewrite lookup_app_r; rewrite ?length_insert; try done;
        by rewrite Nat.sub_diag.
Qed.

Lemma confession_timeout_defaults_to_true_witness :
  let w' := runTimerCb (TcConfessionTimeout "ABCD" 0) confessing in
  confession (gameStateOf "ABCD" confessing) = None
  ∧ ∃ g', lookup_gs "ABCD" w' = Some (0%nat, g') ∧ confession g' = Some "true"
          ∧ phase g' = "guessing".
Proof.
  intros w'.
  destruct (confession_timeout_defaults_to_true "ABCD" confessing 0
              (gameStateOf "ABCD" confessing)) as (_ & g' & Hg' & Hc & Hph & _);
    [vm_compute; reflexivity|].
  split; [vm_compute; reflexivity|]. exists g'. split; [exact Hg'|].
  split; [|exact Hph]. rewrite Hc. vm_compute. reflexivity.
Defined.

(** ** Prompt selection on a catalog without repeated texts *)

Lemma availableFrom_lookup (i : Z) (used : list Z) (ts : list string) (k : nat)
    (t : string) :
  availableFrom i used ts !! k = Some t →
  ∃ n, ts !! n = Some t ∧ i + Z.of_nat n ∉ used.
Proof.
  revert i k. induction ts as [|t0 ts IH]; intros i k Hk; simpl in Hk; [done|].
  case_bool_decide as Hi.
  - apply IH in Hk as (n & Hn & Hu). exists (S n). split; [done|].
    by replace (i + Z.of_nat (S n)) with (i + 1 + Z.of_nat n) by lia.
  - destruct k as [|k]; simpl in Hk.
    + simplify_eq. exists 0%nat. split; [done|]. by rewrite Z.add_0_r.
    + apply IH in Hk as (n & Hn & Hu). exists (S n). split; [done|].
      by replace (i + Z.of_nat (S n)) with (i + 1 + Z.of_nat n) by lia.
Qed.

Lemma indexOfFrom_NoDup (i : Z) (ts : list string) (n : nat) (t : string) :
  NoDup ts → ts !! n = Some t → indexOfFrom i t ts = i + Z.of_nat n.
Proof.
  revert i n. induction ts as [|t0 ts IH]; intros i n Hnd Hn; [done|].
  apply NoDup_cons in Hnd as [Ht0 Hnd]. simpl. destruct n as [|n]; simpl in Hn.
  - simplify_eq. rewrite bool_decide_eq_true_2 by done. lia.
  - rewrite bool_decide_eq_false_2.
    + rewrite (IH (i + 1) n) by done. lia.
    + intros ->. apply Ht0. by eapply list_elem_of_lookup_2.
Qed.

(** X10.  [startInitialVotingPhase] on a catalog whose texts are pairwise
    distinct.  If no prompt is left unused the game is ended.  Otherwise the
    prompt of the round is a catalog entry whose index was not recorded
    before, that index is what is appended to [usedTopics] (which therefore
    stays free of repetitions), the votes, guesses, selected player and
    confession of the previous round are cleared, the timer is set to 30 and
    scores and round number are kept. *)
Theorem startInitialVotingPhase_records_chosen_index (topics : list string) (c : string)
    (rnd : nat) (w : World) (r : nat) (g : GameState) (l : Lobby) :
  NoDup topics →
  lookup_gs c w = Some (r, g) →
  lobbies w !! c = Some l →
  let w' := startInitialVotingPhase topics c rnd w in
  (availableTopics topics (usedTopics g) = [] → w' = endGame c w)
  ∧ (availableTopics topics (usedTopics g) ≠ [] →
       ∃ (i : nat) t g',
         topics !! i = Some t ∧ (Z.of_nat i ∉ usedTopics g)
         ∧ lookup_gs c w' = Some (r, g')
         ∧ currentTopic g' = Some t
         ∧ usedTopics g' = usedTopics g ++ [Z.of_nat i]
         ∧ (NoDup (usedTopics g) → NoDup (usedTopics g'))
         ∧ phase g' = "initial-voting" ∧ initialVotes g' = ∅ ∧ guesses g' = ∅
         ∧ selectedPlayer g' = None ∧ confession g' = None ∧ timer g' = 30
         ∧ scores g' = scores g ∧ roundNumber g' = roundNumber g).
Proof.
  intros Hnd Hg Hl w'. subst w'. unfold startInitialVotingPhase. rewrite Hg, Hl.
  cbv zeta. set (available := availableTopics topics (usedTopics g)).
  destruct (available !! (rnd `mod` length available)%nat) as [t|] eqn:Ht.
  - split.
    { intros Hnil. rewrite Hnil in Ht. done. }
    intros _. apply availableFrom_lookup in Ht as (i & Hi & Hu).
    rewrite Z.add_0_l in Hu.
    unfold indexOf. rewrite (indexOfFrom_NoDup 0 topics i t Hnd Hi), Z.add_0_l.
    edestruct (startTimer_gs_eq c 30 (TcCalcInitial c)) as (-> & _).
    { change (lookup_gs c (emit ?d ?m ?x)) with (lookup_gs c x).
      change (lookup_gs c (emit ?d ?m ?x)) with (lookup_gs c x).
      change (lookup_gs c (clearInterval ?h ?x)) with (lookup_gs c x).
      apply lookup_gs_modify_gs. exact Hg. }
    exists i, t. eexists. do 3 (split; [done|]). cbn.
    do 2 (split; [done|]). split; [|done].
    intros Hused. apply NoDup_app. split; [done|].
    split; [|apply NoDup_singleton]. intros x Hx ->%list_elem_of_singleton. done.
  - split; [done|]. intros Hne. exfalso.
    apply lookup_ge_None in Ht. destruct available as [|a av]; [done|].
    pose proof (Nat.mod_upper_bound rnd (length (a :: av))). simpl in *. lia.
Qed.

Lemma startInitialVotingPhase_records_chosen_index_witness :
  let w := startGame "ABCD" "ann" lobbyReady in
  ∃ (i : nat) t g',
    sampleTopics !! i = Some t
    ∧ lookup_gs "ABCD" (startInitialVotingPhase sampleTopics "ABCD" 1 w)
      = Some (0%nat, g')
    ∧ currentTopic g' = Some t ∧ usedTopics g' = [Z.of_nat i].
Proof.
  intros w.
  destruct (startInitialVotingPhase_records_chosen_index sampleTopics "ABCD" 1 w 0
              (gameStateOf "ABCD" w) (lobbyOf "ABCD" w)) as [_ Hpick].
  - apply (bool_decide_unpack _). vm_compute. exact I.
  - vm_compute. reflexivity.
  - vm_compute. reflexivity.
  - destruct Hpick as (i & t & g' & Hi & _ & Hg' & Ht & Hu & _);
      [vm_compute; discriminate|].
    exists i, t, g'. split; [exact Hi|]. split; [exact Hg'|]. split; [exact Ht|].
    exact Hu.
Defined.

(** ** Progress of a game *)

Lemma progresses_refl (g : GameState) : progresses g g.
Proof. repeat split; [lia|done|eauto with lia]. Qed.

Lemma progresses_trans (g1 g2 g3 : GameState) :
  progresses g1 g2 → progresses g2 g3 → progresses g1 g3.
Proof.
  intros (Ht1 & Hr1 & Hu1 & Hs1) (Ht2 & Hr2 & Hu2 & Hs2).
  split; [congruence|]. split; [lia|]. split; [by etrans|].
  intros u z Hz. destruct (Hs1 u z Hz) as (z1 & Hz1 & ?).
  destruct (Hs2 u z1 Hz1) as (z2 & Hz2 & ?). exists z2. split; [done|lia].
Qed.

(** A change of other fields than the four [progresses] looks at. *)
Lemma progresses_same (g g' : GameState) :
  totalRounds g' = totalRounds g → roundNumber g' = roundNumber g →
  usedTopics g' = usedTopics g → scores g' = scores g → progresses g g'.
Proof.
  intros Ht Hr Hu Hs. unfold progresses. rewrite Ht, Hr, Hu, Hs.
  apply progresses_refl.
Qed.

Lemma addScore_numeric (k : Z) (u : string) (sc : gmap string jsnum) (x : string)
    (z : Z) :
  0 ≤ k → sc !! x = Some (Num z) →
  ∃ z', addScore k u sc !! x = Some (Num z') ∧ z ≤ z'.
Proof.
  intros Hk Hx. unfold addScore. destruct (decide (u = x)) as [->|Hne].
  - rewrite lookup_insert_eq, Hx. eexists. split; [done|lia].
  - rewrite lookup_insert_ne by done. eexists. split; [done|lia].
Qed.

Lemma awardMajority_numeric (g : GameState) (mv : option string) (ps : list Participant)
    (u : string) (z : Z) :
  scores g !! u = Some (Num z) →
  ∃ z', awardMajority g mv ps !! u = Some (Num z') ∧ z ≤ z'.
Proof.
  unfold awardMajority. destruct mv as [m|]; [|eauto with lia].
  generalize (scores g). revert z.
  induction ps as [|p ps IH]; intros z sc Hz; simpl; [eauto with lia|].
  unfold awardVote at 2. case_bool_decide.
  - destruct (addScore_numeric 1 (username p) sc u z) as (z1 & Hz1 & ?); [lia|done|].
    destruct (IH z1 _ Hz1) as (z2 & ? & ?). exists z2. split; [done|lia].
  - by apply IH.
Qed.

Lemma awardGuessers_numeric (g : GameState) (ps : list Participant) (u : string)
    (z : Z) :
  scores g !! u = Some (Num z) →
  ∃ z', awardGuessers g ps !! u = Some (Num z') ∧ z ≤ z'.
Proof.
  unfold awardGuessers. generalize (scores g). revert z.
  induction ps as [|p ps IH]; intros z sc Hz; simpl; [eauto with lia|].
  unfold awardGuess at 2. destruct (canGuess g p && _).
  - destruct (addScore_numeric 3 (username p) sc u z) as (z1 & Hz1 & ?); [lia|done|].
    destruct (IH z1 _ Hz1) as (z2 & ? & ?). exists z2. split; [done|lia].
  - by apply IH.
Qed.

Lemma advances_refl (w : World) : advances w w.
Proof. split; [done|]. intros r g g' ? ?. simplify_eq. apply progresses_refl. Qed.

Lemma advances_trans (w1 w2 w3 : World) :
  advances w1 w2 → advances w2 w3 → advances w1 w3.
Proof.
  intros [Hl1 Hh1] [Hl2 Hh2]. split; [lia|]. intros r g1 g3 H1 H3.
  destruct (lookup_lt_is_Some_2 (heap w2) r) as [g2 H2].
  { apply lookup_lt_Some in H1. lia. }
  eapply progresses_trans; eauto.
Qed.

Lemma advances_same_heap (w w' : World) : heap w' = heap w → advances w w'.
Proof. intros Hh. unfold advances. rewrite Hh. apply (advances_refl w). Qed.

Lemma advances_modify_gs (r : nat) (f : GameState → GameState) (w : World) :
  (∀ g, heap w !! r = Some g → progresses g (f g)) → advances w (modify_gs r f w).
Proof.
  intros Hf. unfold advances, modify_gs. cbn. rewrite length_alter. split; [done|].
  intros r' g g' H1 H2. destruct (decide (r = r')) as [<-|Hne].
  - rewrite list_lookup_alter_eq, H1 in H2. simplify_eq/=. by apply Hf.
  - rewrite list_lookup_alter_ne, H1 in H2 by done. simplify_eq.
    apply progresses_refl.
Qed.

Lemma advances_alloc (g : GameState) (w : World) :
  advances w (set_heap (heap w ++ [g]) w).
Proof.
  unfold advances. cbn. rewrite length_app. split; [lia|].
  intros r g1 g2 H1 H2. rewrite (lookup_app_l_Some _ _ _ _ H1) in H2.
  simplify_eq. apply progresses_refl.
Qed.

Lemma sameOutside_refl (w : World) : sameOutside w w.
Proof. by repeat split. Qed.

Lemma sameOutside_trans (w1 w2 w3 : World) :
  sameOutside w1 w2 → sameOutside w2 w3 → sameOutside w1 w3.
Proof.
  intros (? & ? & ? & ? & ?) (? & ? & ? & ? & ?). repeat split; congruence.
Qed.

Create HintDb advances.
Create HintDb outside.

(** Peels the outermost update off the world on the right-hand side. *)
Ltac adv_peel :=
  lazymatch goal with
  | |- advances ?w ?w => apply advances_refl
  | |- advances _ (modify_gs ?r ?f ?x) =>
      apply (advances_trans _ x);
      [|apply advances_modify_gs; intros ? ?; try (by apply progresses_same)]
  | |- advances _ (set_heap (heap ?x ++ [_]) ?x) =>
      apply (advances_trans _ x); [|apply advances_alloc]
  | |- advances _ (emit _ _ ?x) =>
      apply (advances_trans _ x); [|by apply advances_same_heap]
  | |- advances _ (setTimeout _ _ ?x) =>
      apply (advances_trans _ x); [|by apply advances_same_heap]
  | |- advances _ (clearInterval _ ?x) =>
      apply (advances_trans _ x); [|by apply advances_same_heap]
  | |- advances _ (set_intervals _ ?x) =>
      apply (advances_trans _ x); [|by apply advances_same_heap]
  | |- advances _ (set_timeouts _ ?x) =>
      apply (advances_trans _ x); [|by apply advances_same_heap]
  | |- advances _ (set_lobbies _ ?x) =>
      apply (advances_trans _ x); [|by apply advances_same_heap]
  | |- advances _ (set_gameStates _ ?x) =>
      apply (advances_trans _ x); [|by apply advances_same_heap]
  | |- advances _ (set_sockets _ ?x) =>
      apply (advances_trans _ x); [|by apply advances_same_heap]
  | |- advances _ (set_disconnectedPlayers _ ?x) =>
      apply (advances_trans _ x); [|by apply advances_same_heap]
  | |- advances _ (set_now _ ?x) =>
      apply (advances_trans _ x); [|by apply advances_same_heap]
  | |- advances _ (?F ?x) =>
      apply (advances_trans _ x); [|solve [eauto 3 with advances]]
  end.

Ltac adv_go := cbv zeta; repeat adv_peel.

Ltac out_peel :=
  lazymatch goal with
  | |- sameOutside ?w ?w => apply sameOutside_refl
  | |- sameOutside _ (modify_gs _ _ ?x) => apply (sameOutside_trans _ x); [|done]
  | |- sameOutside _ (emit _ _ ?x) => apply (sameOutside_trans _ x); [|done]
  | |- sameOutside _ (setTimeout _ _ ?x) => apply (sameOutside_trans _ x); [|done]
  | |- sameOutside _ (clearInterval _ ?x) => apply (sameOutside_trans _ x); [|done]
  | |- sameOutside _ (set_intervals _ ?x) => apply (sameOutside_trans _ x); [|done]
  | |- sameOutside _ (set_timeouts _ ?x) => apply (sameOutside_trans _ x); [|done]
  | |- sameOutside _ (?F ?x) =>
      apply (sameOutside_trans _ x); [|solve [eauto 3 with outside]]
  end.

Ltac out_go := cbv zeta; repeat out_peel.

Lemma endGame_advances (c : string) (w : World) : advances w (endGame c w).
Proof. unfold endGame. repeat case_match; adv_go. Qed.
#[global] Hint Resolve endGame_advances : advances.

Lemma endGame_outside (c : string) (w : World) : sameOutside w (endGame c w).
Proof. unfold endGame. repeat case_match; out_go. Qed.
#[global] Hint Resolve endGame_outside : outside.

Lemma startTimer_advances (c : string) (s : Z) (cb : TimerCb) (w : World) :
  advances w (startTimer c s cb w).
Proof. unfold startTimer, setInterval. repeat case_match; simplify_eq; adv_go. Qed.
#[global] Hint Resolve startTimer_advances : advances.

Lemma startTimer_outside (c : string) (s : Z) (cb : TimerCb) (w : World) :
  sameOutside w (startTimer c s cb w).
Proof. unfold startTimer, setInterval. repeat case_match; simplify_eq; out_go. Qed.
#[global] Hint Resolve startTimer_outside : outside.

Lemma showScoreboard_advances (c : string) (w : World) : advances w (showScoreboard c w).
Proof. unfold showScoreboard. repeat case_match; adv_go. Qed.
#[global] Hint Resolve showScoreboard_advances : advances.

Lemma showScoreboard_outside (c : string) (w : World) :
  sameOutside w (showScoreboard c w).
Proof. unfold showScoreboard. repeat case_match; out_go. Qed.
#[global] Hint Resolve showScoreboard_outside : outside.

Lemma scoreboardNext_advances (topics : list string) (c : string) (r : nat) (w : World) :
  advances w (scoreboardNext topics c r w).
Proof.
  unfold scoreboardNext. destruct (heap w !! r) as [g|] eqn:Hg; [|adv_go].
  case_match; adv_go; simplify_eq; repeat split; cbn; eauto with lia.
Qed.
#[global] Hint Resolve scoreboardNext_advances : advances.

Lemma scoreboardNext_outside (topics : list string) (c : string) (r : nat) (w : World) :
  sameOutside w (scoreboardNext topics c r w).
Proof. unfold scoreboardNext. repeat case_match; out_go. Qed.
#[global] Hint Resolve scoreboardNext_outside : outside.

Lemma calculateConfessionResults_advances (c : string) (w : World) :
  advances w (calculateConfessionResults c w).
Proof.
  unfold calculateConfessionResults.
  destruct (lookup_gs c w) as [[r g]|] eqn:Hg; [|adv_go].
  apply lookup_gs_heap in Hg. case_match; adv_go.
  simplify_eq. repeat split; cbn; [lia|done|]. apply awardGuessers_numeric.
Qed.
#[global] Hint Resolve calculateConfessionResults_advances : advances.

Lemma calculateConfessionResults_outside (c : string) (w : World) :
  sameOutside w (calculateConfessionResults c w).
Proof. unfold calculateConfessionResults. repeat case_match; out_go. Qed.
#[global] Hint Resolve calculateConfessionResults_outside : outside.

Lemma startGuessingPhase_advances (c : string) (w : World) :
  advances w (startGuessingPhase c w).
Proof. unfold startGuessingPhase. repeat case_match; adv_go. Qed.
#[global] Hint Resolve startGuessingPhase_advances : advances.

Lemma startGuessingPhase_outside (c : string) (w : World) :
  sameOutside w (startGuessingPhase c w).
Proof. unfold startGuessingPhase. repeat case_match; out_go. Qed.
#[global] Hint Resolve startGuessingPhase_outside : outside.

Lemma startConfessionPhase_advances (c : string) (w : World) :
  advances w (startConfessionPhase c w).
Proof. unfold startConfessionPhase. repeat case_match; adv_go. Qed.
#[global] Hint Resolve startConfessionPhase_advances : advances.

Lemma startConfessionPhase_outside (c : string) (w : World) :
  sameOutside w (startConfessionPhase c w).
Proof. unfold startConfessionPhase. repeat case_match; out_go. Qed.
#[global] Hint Resolve startConfessionPhase_outside : outside.

Lemma selectRandomPlayer_advances (c : string) (rnd : nat) (w : World) :
  advances w (selectRandomPlayer c rnd w).
Proof. unfold selectRandomPlayer. repeat case_match; adv_go. Qed.
#[global] Hint Resolve selectRandomPlayer_advances : advances.

Lemma selectRandomPlayer_outside (c : string) (rnd : nat) (w : World) :
  sameOutside w (selectRandomPlayer c rnd w).
Proof. unfold selectRandomPlayer. repeat case_match; out_go. Qed.
#[global] Hint Resolve selectRandomPlayer_outside : outside.

Lemma calculateInitialResults_advances (c : string) (w : World) :
  advances w (calculateInitialResults c w).
Proof.
  unfold calculateInitialResults.
  destruct (lookup_gs c w) as [[r g]|] eqn:Hg; [|adv_go].
  apply lookup_gs_heap in Hg. case_match; adv_go.
  simplify_eq. repeat split; cbn; [lia|done|]. apply awardMajority_numeric.
Qed.
#[global] Hint Resolve calculateInitialResults_advances : advances.

Lemma calculateInitialResults_outside (c : string) (w : World) :
  sameOutside w (calculateInitialResults c w).
Proof. unfold calculateInitialResults. repeat case_match; out_go. Qed.
#[global] Hint Resolve calculateInitialResults_outside : outside.

Lemma startInitialVotingPhase_advances (topics : list string) (c : string) (rnd : nat)
    (w : World) :
  advances w (startInitialVotingPhase topics c rnd w).
Proof.
  unfold startInitialVotingPhase.
  destruct (lookup_gs c w) as [[r g]|] eqn:Hg; [|adv_go].
  apply lookup_gs_heap in Hg. repeat case_match; adv_go.
  simplify_eq. repeat split; cbn; [lia|by apply prefix_app_r|eauto with lia].
Qed.
#[global] Hint Resolve startInitialVotingPhase_advances : advances.

Lemma startInitialVotingPhase_outside (topics : list string) (c : string) (rnd : nat)
    (w : World) :
  sameOutside w (startInitialVotingPhase topics c rnd w).
Proof. unfold startInitialVotingPhase. repeat case_match; out_go. Qed.
#[global] Hint Resolve startInitialVotingPhase_outside : outside.

Lemma runTimerCb_advances (cb : TimerCb) (w : World) : advances w (runTimerCb cb w).
Proof.
  destruct cb; simpl; eauto with advances. adv_go.
  destruct (confession _); by apply progresses_same.
Qed.
#[global] Hint Resolve runTimerCb_advances : advances.

Lemma runTimerCb_outside (cb : TimerCb) (w : World) : sameOutside w (runTimerCb cb w).
Proof. destruct cb; simpl; eauto with outside. out_go. Qed.
#[global] Hint Resolve runTimerCb_outside : outside.

Lemma countdownTick_advances (c : string) (r : nat) (cb : TimerCb) (w : World) :
  advances w (countdownTick c r cb w).
Proof. unfold countdownTick. repeat case_match; adv_go. Qed.
#[global] Hint Resolve countdownTick_advances : advances.

Lemma countdownTick_outside (c : string) (r : nat) (cb : TimerCb) (w : World) :
  sameOutside w (countdownTick c r cb w).
Proof. unfold countdownTick. repeat case_match; out_go. Qed.
#[global] Hint Resolve countdownTick_outside : outside.

Lemma syncGameStateToPlayer_advances (sid : nat) (c : string) (w : World) :
  advances w (syncGameStateToPlayer sid c w).
Proof. unfold syncGameStateToPlayer. repeat case_match; adv_go. Qed.
#[global] Hint Resolve syncGameStateToPlayer_advances : advances.

Lemma syncGameStateToPlayer_outside (sid : nat) (c : string) (w : World) :
  sameOutside w (syncGameStateToPlayer sid c w).
Proof. unfold syncGameStateToPlayer. repeat case_match; out_go. Qed.
#[global] Hint Resolve syncGameStateToPlayer_outside : outside.

Lemma runTimeoutCb_advances (topics : list string) (cb : TimeoutCb) (rnd : nat)
    (w : World) :
  advances w (runTimeoutCb topics cb rnd w).
Proof. destruct cb; simpl; eauto with advances. Qed.

Lemma runTimeoutCb_outside (topics : list string) (cb : TimeoutCb) (rnd : nat)
    (w : World) :
  sameOutside w (runTimeoutCb topics cb rnd w).
Proof. destruct cb; simpl; eauto with outside. Qed.

Lemma stopTimer_advances (r : nat) (g : GameState) (w : World) :
  advances w (stopTimer r g w).
Proof. unfold stopTimer. repeat case_match; adv_go. Qed.
#[global] Hint Resolve stopTimer_advances : advances.

Lemma handlers_advance (w : World) :
  (∀ c u, advances w (httpCreate c u w))
  ∧ (∀ sid c u, advances w (joinLobby sid c u w))
  ∧ (∀ c u, advances w (leaveLobby c u w))
  ∧ (∀ c u, advances w (startGame c u w))
  ∧ (∀ c u v, advances w (castInitialVote c u v w))
  ∧ (∀ c u v, advances w (makeConfession c u v w))
  ∧ (∀ c u v, advances w (makeGuess c u v w))
  ∧ (∀ sid, advances w (disconnect sid w)).
Proof.
  split_and!; intros.
  - unfold httpCreate. repeat case_match; adv_go.
  - unfold joinLobby. repeat case_match; adv_go.
  - apply advances_same_heap, leaveLobby_heap.
  - unfold startGame. repeat case_match; adv_go.
  - unfold castInitialVote. repeat case_match; adv_go.
  - unfold makeConfession. repeat case_match; adv_go.
  - unfold makeGuess. repeat case_match; adv_go.
  - apply advances_same_heap, disconnect_heap.
Qed.

(** X11.  A game never goes backwards.  In every turn of the event loop other
    than [restart-game] and a join over HTTP, no game-state object is lost,
    its number of rounds is unchanged, its round number does not decrease,
    its record of used prompts is only extended, and no numeric score
    decreases or stops being a number.  A timeout or countdown that comes due
    changes neither a lobby, nor the registry of game states, nor the tracker
    of disconnected players, nor a socket. *)
Theorem game_never_goes_backwards (topics : list string) (e : Event) (w w' : World) :
  step topics e w = Some w' →
  ((∀ sid c, e ≠ RestartGame sid c) → (∀ c u, e ≠ HttpJoin c u) → advances w w')
  ∧ (gameLogicTurn e w → sameOutside w w').
Proof.
  intros Hstep.
  destruct (handlers_advance w) as (Hcreate & Hjoin & Hleave & Hstart & Hvote & Hconf
                                    & Hguess & Hdisc).
  split.
  - intros Hre Hhj.
    destruct e; simpl in Hstep; unfold onSocket in Hstep;
      repeat case_match; simplify_eq; eauto with advances.
    + by edestruct Hhj.
    + adv_go.
    + by edestruct Hre.
    + adv_go.
    + eapply advances_trans; [|apply runTimeoutCb_advances]. adv_go.
    + match goal with |- advances _ (runIntervalBody (iv_body ?iv) ?x) =>
        apply (advances_trans _ x); [by apply advances_same_heap|];
        destruct (iv_body iv) end; simpl.
      * apply countdownTick_advances.
      * apply advances_same_heap, sweep_heap.
  - intros Hturn. destruct e; try done; simpl in Hstep; repeat case_match; simplify_eq.
    + eapply sameOutside_trans; [|apply runTimeoutCb_outside]. done.
    + destruct Hturn as (iv & c & r & cb & ? & Hbody). simplify_eq.
      rewrite Hbody. simpl.
      eapply sameOutside_trans; [|apply countdownTick_outside]. done.
Qed.

Lemma game_never_goes_backwards_witness : advances votedAB votedABC.
Proof.
  apply (game_never_goes_backwards sampleTopics (CastInitialVote 3 "ABCD" "cat" "no")
           votedAB votedABC); [vm_compute; reflexivity|discriminate..].
Defined.

(** ** The invariant of the registries *)

Lemma removeParticipant_sublist (u : string) (ps : list Participant) :
  removeParticipant u ps `sublist_of` ps.
Proof.
  unfold removeParticipant. induction ps as [|p ps IH]; simpl; [done|].
  destruct (negb _); [by apply sublist_skip|by apply sublist_cons].
Qed.

Lemma username_elem_of (ps : list Participant) (p : Participant) (us : list string) :
  p ∈ ps → username <$> ps `sublist_of` us → username p ∈ us.
Proof.
  intros Hp Hsub. eapply sublist_subseteq; [exact Hsub|].
  apply list_elem_of_fmap. eauto.
Qed.

(** Only game-state objects change, and their numeric scores stay numeric. *)
Lemma consistent_quiet (w w' : World) :
  consistent w →
  lobbies w' = lobbies w → gameStates w' = gameStates w →
  (length (heap w) ≤ length (heap w'))%nat →
  (∀ r g g' u z, heap w !! r = Some g → heap w' !! r = Some g' →
                 scores g !! u = Some (Num z) → ∃ z', scores g' !! u = Some (Num z')) →
  consistent w'.
Proof.
  intros (Hreg & Hnd & Hnum) Hl Hgs Hlen Hkept. split; [|split].
  - intros c r Hr. rewrite Hgs in Hr. rewrite Hl.
    destruct (Hreg c r Hr). split; [done|lia].
  - intros c l. rewrite Hl. apply Hnd.
  - intros c l r g' p Hc [Hr Hg']%lookup_gs_Some Hp. rewrite Hl in Hc.
    rewrite Hgs in Hr. destruct (Hreg c r Hr) as [_ Hlt].
    destruct (lookup_lt_is_Some_2 (heap w) r Hlt) as [g Hg].
    destruct (Hnum c l r g p Hc) as [z Hz]; [by apply lookup_gs_Some|done|].
    eapply Hkept; eauto.
Qed.

(** Only rosters change: lobby [c] gets a roster whose user names are
    among the old ones, in the same order. *)
Lemma consistent_update_lobby (w w' : World) (c : string) (l l' : Lobby) :
  consistent w →
  lobbies w !! c = Some l →
  username <$> participants l' `sublist_of` username <$> participants l →
  heap w' = heap w → gameStates w' = gameStates w →
  lobbies w' = <[c := l']> (lobbies w) →
  consistent w'.
Proof.
  intros (Hreg & Hnd & Hnum) Hc Hsub Hh Hgs Hl. split; [|split].
  - intros c0 r Hr. rewrite Hgs in Hr. rewrite Hl, Hh.
    destruct (Hreg c0 r Hr) as [Hsome ?]. split; [|done].
    destruct (decide (c = c0)) as [->|Hne].
    + rewrite lookup_insert_eq. eauto.
    + by rewrite lookup_insert_ne.
  - intros c0 l0. rewrite Hl. destruct (decide (c = c0)) as [->|Hne].
    + rewrite lookup_insert_eq. intros [= <-].
      eapply sublist_NoDup; [|exact Hsub]. by eapply Hnd.
    + rewrite lookup_insert_ne by done. apply Hnd.
  - intros c0 l0 r g p Hc0 Hg Hp.
    assert (lookup_gs c0 w = Some (r, g)) as Hg0.
    { unfold lookup_gs in *. by rewrite Hgs, Hh in Hg. }
    rewrite Hl in Hc0. destruct (decide (c = c0)) as [->|Hne].
    + rewrite lookup_insert_eq in Hc0. simplify_eq.
      pose proof (username_elem_of _ _ _ Hp Hsub) as (q & Hq & Hqin)%list_elem_of_fmap.
      rewrite Hq. by eapply Hnum.
    + rewrite lookup_insert_ne in Hc0 by done. by eapply Hnum.
Qed.

(** A lobby is deleted together with its entry of [gameStates]. *)
Lemma consistent_close_lobby (w w' : World) (c : string) :
  consistent w →
  heap w' = heap w → gameStates w' = delete c (gameStates w) →
  lobbies w' = delete c (lobbies w) →
  consistent w'.
Proof.
  intros (Hreg & Hnd & Hnum) Hh Hgs Hl. split; [|split].
  - intros c0 r Hr. rewrite Hgs in Hr. apply lookup_delete_Some in Hr as [Hne Hr].
    rewrite Hl, Hh, lookup_delete_ne by done. by apply Hreg.
  - intros c0 l0. rewrite Hl. intros [_ ?]%lookup_delete_Some. by eapply Hnd.
  - intros c0 l0 r g p Hc0 Hg Hp. rewrite Hl in Hc0.
    apply lookup_delete_Some in Hc0 as [Hne Hc0].
    eapply Hnum; [exact Hc0| |exact Hp].
    unfold lookup_gs in *. by rewrite Hgs, Hh, lookup_delete_ne in Hg.
Qed.

Lemma markDisconnected_consistent (c u : string) (l : Lobby) (w : World) :
  consistent w → lobbies w !! c = Some l → consistent (markDisconnected c u l w).
Proof.
  intros Hw Hl. eapply (consistent_update_lobby w _ c l); [done..| | | |];
    [|done..]. cbn. by rewrite setConnected_usernames.
Qed.

Lemma removeAndMaybeClose_consistent (b : bool) (c u : string) (l : Lobby) (w : World) :
  consistent w → lobbies w !! c = Some l → consistent (removeAndMaybeClose b c u l w).
Proof.
  intros Hw Hl. unfold removeAndMaybeClose. cbv zeta.
  case_match.
  - apply (consistent_close_lobby w _ c Hw).
    + destruct b; [|done]. by repeat case_match.
    + destruct b; [|done]. by repeat case_match.
    + cbn. destruct b; cbn; [repeat case_match|]; cbn; by rewrite delete_insert_eq.
  - eapply (consistent_update_lobby w _ c l); [done..| | | |]; [|done..].
    cbn. apply fmap_sublist, removeParticipant_sublist.
Qed.

Lemma sweep_consistent (w : World) : consistent w → consistent (sweep w).
Proof.
  unfold sweep. generalize (disconnectedPlayers w). intros es. revert w.
  induction es as [|e es IH]; intros w Hw; [done|]. simpl. apply IH.
  unfold sweepEntry. cbv zeta. case_bool_decide; [|done].
  destruct (lobbies w !! t_code e.2) as [l|] eqn:Hl.
  - eapply (consistent_update_lobby w _ (t_code e.2) l); [done..| | | |]; [|done..].
    cbn. apply fmap_sublist, removeParticipant_sublist.
  - destruct Hw as (? & ? & ?). done.
Qed.

Lemma seedScores_numeric (ps : list Participant) (sc : gmap string jsnum) (u : string)
    (z : Z) :
  sc !! u = Some (Num z) → ∃ z', seedScores ps sc !! u = Some (Num z').
Proof.
  intros Hz. destruct (decide (u ∈ username <$> ps)).
  - rewrite seedScores_lookup_in by done. eauto.
  - rewrite seedScores_lookup_notin by done. eauto.
Qed.

Lemma consistent_advances (w w' : World) :
  consistent w → sameOutside w w' → advances w w' → consistent w'.
Proof.
  intros Hw (Hl & Hgs & _) [Hlen Hadv]. apply (consistent_quiet w w' Hw Hl Hgs Hlen).
  intros r g g' u z Hg Hg' Hz. destruct (Hadv r g g' Hg Hg') as (_ & _ & _ & Hnum).
  destruct (Hnum u z Hz) as (z' & ? & _). eauto.
Qed.

Lemma consistent_frame (w w' : World) :
  consistent w → heap w' = heap w → lobbies w' = lobbies w →
  gameStates w' = gameStates w → consistent w'.
Proof.
  intros Hw Hh Hl Hgs. apply (consistent_quiet w w' Hw Hl Hgs); rewrite Hh; [done|].
  intros r g g' u z ? ? ?. simplify_eq. eauto.
Qed.

Lemma voting_handlers_outside (w : World) :
  (∀ c u v, sameOutside w (castInitialVote c u v w))
  ∧ (∀ c u v, sameOutside w (makeConfession c u v w))
  ∧ (∀ c u v, sameOutside w (makeGuess c u v w)).
Proof.
  assert (∀ r g x, sameOutside x (stopTimer r g x)) as Hstop.
  { intros r g x. unfold stopTimer. case_match; out_go. }
  split_and!; intros.
  - unfold castInitialVote. repeat case_match; out_go;
      (eapply sameOutside_trans; [|apply Hstop]); out_go.
  - unfold makeConfession. repeat case_match; out_go;
      (eapply sameOutside_trans; [|apply Hstop]); out_go.
  - unfold makeGuess. repeat case_match; out_go;
      (eapply sameOutside_trans; [|apply Hstop]); out_go.
Qed.

Lemma initialWorld_consistent : consistent initialWorld.
Proof.
  split; [|split].
  - intros c r Hr. cbn in Hr. by rewrite lookup_empty in Hr.
  - intros c l Hl. cbn in Hl. by rewrite lookup_empty in Hl.
  - intros c l r g p Hl. cbn in Hl. by rewrite lookup_empty in Hl.
Qed.

Lemma httpCreate_consistent (c u : string) (w : World) :
  consistent w → lobbies w !! c = None → consistent (httpCreate c u w).
Proof.
  intros (Hreg & Hnd & Hnum) Hfresh. unfold httpCreate. case_match; [done|].
  split; [|split]; cbn.
  - intros c0 r Hr. destruct (Hreg c0 r Hr) as [Hsome ?]. split; [|done].
    destruct (decide (c = c0)) as [->|Hne]; [by rewrite lookup_insert_eq|].
    by rewrite lookup_insert_ne.
  - intros c0 l. destruct (decide (c = c0)) as [->|Hne].
    + rewrite lookup_insert_eq. intros [= <-]. cbn. apply NoDup_singleton.
    + rewrite lookup_insert_ne by done. apply Hnd.
  - intros c0 l r g p Hl Hg Hp. destruct (decide (c = c0)) as [->|Hne].
    + apply lookup_gs_Some in Hg as [Hr _]. cbn in Hr.
      destruct (Hreg c0 r Hr) as [[? ?] _]. congruence.
    + rewrite lookup_insert_ne in Hl by done. by eapply Hnum.
Qed.

Lemma httpJoin_consistent (c u : string) (w : World) :
  consistent w → consistent (httpJoin c u w).
Proof.
  intros Hw. unfold httpJoin. case_match; [done|].
  destruct (lobbies w !! c) as [l|] eqn:Hl; [|done].
  destruct (findParticipant u (participants l)) as [q|] eqn:Hfind.
  { eapply (consistent_update_lobby w _ c l); [done..| | | |]; [|done..].
    cbn. by rewrite setConnected_usernames. }
  apply findParticipant_None in Hfind. destruct Hw as (Hreg & Hnd & Hnum).
  cbv zeta.
  set (l' := with_participants (participants l ++ [mkParticipant u false true]) l).
  set (w1 := set_lobbies (<[c:=l']> (lobbies w)) w).
  assert (NoDup (username <$> participants l')) as Hnd'.
  { cbn. rewrite fmap_app. apply NoDup_app. split; [by eapply Hnd|].
    split; [|apply NoDup_singleton]. intros x Hx ->%list_elem_of_singleton. done. }
  change (lookup_gs c w1) with (lookup_gs c w).
  destruct (lookup_gs c w) as [[r g]|] eqn:Hg.
  - pose proof (lookup_gs_Some c w r g) as [Hgs _]. destruct (Hgs Hg) as [Hr Hh].
    split; [|split]; cbn.
    + intros c0 r0 Hr0. rewrite length_alter. destruct (Hreg c0 r0 Hr0) as [? ?].
      split; [|done]. destruct (decide (c = c0)) as [->|Hne];
        [by rewrite lookup_insert_eq|by rewrite lookup_insert_ne].
    + intros c0 l0. destruct (decide (c = c0)) as [->|Hne].
      * rewrite lookup_insert_eq. by intros [= <-].
      * rewrite lookup_insert_ne by done. apply Hnd.
    + intros c0 l0 r0 g0 p Hl0 [Hr0 Hg0]%lookup_gs_Some Hp. cbn in Hr0, Hg0.
      destruct (decide (r = r0)) as [<-|Hr'].
      * rewrite list_lookup_alter_eq, Hh in Hg0. simplify_eq/=.
        destruct (decide (u = username p)) as [->|Hu].
        { rewrite lookup_insert_eq. eauto. }
        rewrite lookup_insert_ne by done.
        destruct (decide (c = c0)) as [->|Hne].
        -- rewrite lookup_insert_eq in Hl0. simplify_eq.
           cbn in Hp. apply elem_of_app in Hp as [Hp|Hp%list_elem_of_singleton].
           ++ by eapply Hnum.
           ++ subst p. done.
        -- rewrite lookup_insert_ne in Hl0 by done.
           eapply (Hnum c0 l0 r g p); [done|by apply lookup_gs_Some|done].
      * rewrite list_lookup_alter_ne in Hg0 by done.
        destruct (decide (c = c0)) as [->|Hne]; [congruence|].
        rewrite lookup_insert_ne in Hl0 by done.
        eapply (Hnum c0 l0 r0 g0 p); [done|by apply lookup_gs_Some|done].
  - split; [|split]; cbn.
    + intros c0 r0 Hr0. destruct (Hreg c0 r0 Hr0) as [? ?].
      split; [|done]. destruct (decide (c = c0)) as [->|Hne];
        [by rewrite lookup_insert_eq|by rewrite lookup_insert_ne].
    + intros c0 l0. destruct (decide (c = c0)) as [->|Hne].
      * rewrite lookup_insert_eq. by intros [= <-].
      * rewrite lookup_insert_ne by done. apply Hnd.
    + intros c0 l0 r0 g0 p Hl0 Hg0 Hp.
      change (lookup_gs c0 w1) with (lookup_gs c0 w) in Hg0.
      destruct (decide (c = c0)) as [->|Hne]; [congruence|].
      rewrite lookup_insert_ne in Hl0 by done. by eapply Hnum.
Qed.

Lemma startGame_consistent (c u : string) (w : World) :
  consistent w → consistent (startGame c u w).
Proof.
  intros (Hreg & Hnd & Hnum). unfold startGame.
  destruct (lobbies w !! c) as [l|] eqn:Hl; [|done]. case_match; [|done].
  cbv zeta. split; [|split]; cbn.
  - intros c0 r0. rewrite length_app. cbn. destruct (decide (c = c0)) as [->|Hne].
    + rewrite !lookup_insert_eq. intros [= <-]. split; [eauto|lia].
    + rewrite !lookup_insert_ne by done. intros Hr0.
      destruct (Hreg c0 r0 Hr0). split; [done|lia].
  - intros c0 l0. destruct (decide (c = c0)) as [->|Hne].
    + rewrite lookup_insert_eq. intros [= <-]. cbn. by eapply Hnd.
    + rewrite lookup_insert_ne by done. apply Hnd.
  - intros c0 l0 r0 g0 p Hl0 [Hr0 Hg0]%lookup_gs_Some Hp. cbn in Hr0, Hg0.
    destruct (decide (c = c0)) as [->|Hne].
    + rewrite lookup_insert_eq in Hr0. rewrite lookup_insert_eq in Hl0. simplify_eq.
      rewrite lookup_app_r, Nat.sub_diag in Hg0 by done. simplify_eq/=.
      exists 0. apply seedScores_lookup_in, list_elem_of_fmap. eauto.
    + rewrite lookup_insert_ne in Hr0 by done.
      rewrite lookup_insert_ne in Hl0 by done.
      destruct (Hreg c0 r0 Hr0) as [_ Hlt].
      rewrite lookup_app_l in Hg0 by done.
      eapply (Hnum c0 l0 r0 g0 p); [done|by apply lookup_gs_Some|done].
Qed.

Lemma restartGame_consistent (sid : nat) (c : string) (w : World) :
  consistent w → consistent (restartGame sid c w).
Proof.
  intros Hw. unfold restartGame.
  destruct (lobbies w !! c) as [l|]; [|done].
  destruct (lookup_gs c w) as [[r g]|] eqn:Hg; [|done].
  apply lookup_gs_heap in Hg. repeat case_match; try done.
  apply (consistent_quiet w _ Hw); cbn; [done|done|by rewrite length_alter|].
  intros r0 g0 g0' x z Hg0 Hg0' Hz. destruct (decide (r = r0)) as [<-|Hne].
  - rewrite list_lookup_alter_eq, Hg0 in Hg0'. simplify_eq/=.
    by eapply seedScores_numeric.
  - rewrite list_lookup_alter_ne in Hg0' by done. simplify_eq. eauto.
Qed.

(** X12.  The registries stay consistent.  From a state in which every session
    with a game state has a lobby and an object of the heap, every roster has
    pairwise distinct user names and every participant of a session with a
    game state has a numeric score, every turn of the event loop leads to
    such a state again, as long as a newly generated lobby code is not that
    of an existing lobby.  The server starts in such a state. *)
Theorem registries_stay_consistent (topics : list string) (e : Event) (w w' : World) :
  consistent w →
  freshCode e w →
  step topics e w = Some w' →
  consistent w' ∧ consistent initialWorld.
Proof.
  intros Hw Hfresh Hstep. split; [|apply initialWorld_consistent].
  destruct (voting_handlers_outside w) as (Hvote & Hconf & Hguess).
  destruct (handlers_advance w) as (_ & _ & _ & _ & Hvote' & Hconf' & Hguess' & _).
  destruct e; simpl in Hstep; unfold onSocket in Hstep;
    repeat case_match; simplify_eq.
  - apply httpCreate_consistent; [done|]. by eapply Hfresh.
  - by apply httpJoin_consistent.
  - by apply (consistent_frame w).
  - unfold joinLobby. cbv zeta. cbn [lobbies set_sockets].
    destruct (lobbies w !! c) as [l|] eqn:Hl; [|by apply (consistent_frame w)].
    apply (consistent_update_lobby w _ c l
             (with_participants (setConnected u true (participants l)) l) Hw Hl).
    + cbn. by rewrite setConnected_usernames.
    + by case_match.
    + by case_match.
    + by case_match.
  - unfold leaveLobby. destruct (lobbies w !! c) as [l|] eqn:Hl; [|done].
    repeat case_match.
    + by apply markDisconnected_consistent.
    + by apply (consistent_frame w).
    + by apply removeAndMaybeClose_consistent.
  - by apply startGame_consistent.
  - eapply consistent_advances; eauto.
  - eapply consistent_advances; eauto.
  - eapply consistent_advances; eauto.
  - eapply consistent_advances; eauto with advances outside.
  - by apply restartGame_consistent.
  - unfold disconnect.
    assert (consistent (set_sockets (delete sid (sockets w)) w)) as Hw0
      by (by apply (consistent_frame w)).
    repeat case_match; try done.
    + by apply markDisconnected_consistent.
    + by apply removeAndMaybeClose_consistent.
  - by apply (consistent_frame w).
  - match goal with |- consistent (runTimeoutCb _ _ _ ?x) =>
      assert (consistent x) as Hx by (by apply (consistent_frame w)) end.
    eapply consistent_advances; [exact Hx| |].
    + apply runTimeoutCb_outside.
    + apply runTimeoutCb_advances.
  - match goal with |- consistent (runIntervalBody (iv_body ?iv) ?x) =>
      assert (consistent x) as Hx by (by apply (consistent_frame w));
      destruct (iv_body iv) end; simpl.
    + eapply consistent_advances; eauto with advances outside.
    + by apply sweep_consistent.
Qed.

Lemma registries_stay_consistent_witness :
  consistent (httpCreate "ABCD" "ann" initialWorld).
Proof.
  apply (registries_stay_consistent sampleTopics (HttpCreate "ABCD" "ann")
           initialWorld).
  - apply initialWorld_consistent.
  - intros c u _. apply lookup_empty.
  - reflexivity.
Defined.

(** ** One countdown per game state *)

Lemma recorded_same (w w' : World) :
  intervals w' = intervals w → heap w' = heap w →
  countdownsRecorded w → countdownsRecorded w'.
Proof. intros Hi Hh Hw. unfold countdownsRecorded. by rewrite Hi, Hh. Qed.

Lemma recorded_modify_gs (r : nat) (f : GameState → GameState) (w : World) :
  (∀ g, heap w !! r = Some g → timerInterval (f g) = timerInterval g) →
  countdownsRecorded w → countdownsRecorded (modify_gs r f w).
Proof.
  intros Hf Hw id iv c r0 cb Hid Hbody. cbn in Hid.
  destruct (Hw id iv c r0 cb Hid Hbody) as (g & Hg & Ht). cbn.
  destruct (decide (r = r0)) as [<-|Hne].
  - rewrite list_lookup_alter_eq, Hg. eexists. split; [done|]. by rewrite Hf.
  - rewrite list_lookup_alter_ne by done. eauto.
Qed.

Lemma recorded_clearInterval (h : option nat) (w : World) :
  countdownsRecorded w → countdownsRecorded (clearInterval h w).
Proof.
  intros Hw id iv c r cb Hid Hbody. cbn in *. eapply Hw; [|exact Hbody].
  destruct h as [i|]; [|done]. destruct (decide (i = id)) as [->|Hne].
  - apply list_lookup_insert_Some in Hid. naive_solver.
  - by rewrite list_lookup_insert_ne in Hid.
Qed.

(** The recorded interval is cleared and the handle reset. *)
Lemma recorded_clear_and_reset (r : nat) (h : option nat) (w : World) :
  (∀ g, heap w !! r = Some g → timerInterval g = h) →
  countdownsRecorded w →
  countdownsRecorded (modify_gs r (set_timerInterval None) (clearInterval h w)).
Proof.
  intros Hh Hw id iv c r0 cb Hid Hbody. cbn in *.
  assert (intervals w !! id = Some (Some iv) ∧ h ≠ Some id) as [Hid' Hne].
  { destruct h as [i|]; [|done]. destruct (decide (i = id)) as [->|Hne].
    - apply list_lookup_insert_Some in Hid. naive_solver.
    - rewrite list_lookup_insert_ne in Hid by done. split; [done|congruence]. }
  destruct (Hw id iv c r0 cb Hid' Hbody) as (g & Hg & Ht).
  destruct (decide (r = r0)) as [<-|Hr].
  - rewrite (Hh g Hg) in Ht. done.
  - rewrite list_lookup_alter_ne by done. eauto.
Qed.

Lemma recorded_stopTimer (r : nat) (g : GameState) (w : World) :
  (∀ g1, heap w !! r = Some g1 → timerInterval g1 = timerInterval g) →
  countdownsRecorded w → countdownsRecorded (stopTimer r g w).
Proof.
  intros Hh Hw. unfold stopTimer. destruct (timerInterval g) as [h|] eqn:Ht; [|done].
  by apply recorded_clear_and_reset.
Qed.

Lemma recorded_startTimer (c : string) (s : Z) (cb : TimerCb) (w : World) :
  countdownsRecorded w → countdownsRecorded (startTimer c s cb w).
Proof.
  intros Hw. unfold startTimer, setInterval.
  destruct (lookup_gs c w) as [[r g]|] eqn:Hg; [|done].
  apply lookup_gs_heap in Hg. cbv zeta.
  intros id iv c0 r0 cb0 Hid Hbody. cbn in *.
  set (ivs := match timerInterval g with
              | Some i => <[i:=None]> (intervals w)
              | None => intervals w
              end) in *.
  assert (length ivs = length (intervals w)) as Hlen.
  { unfold ivs. destruct (timerInterval g); by rewrite ?length_insert. }
  destruct (decide (id < length ivs)%nat) as [Hlt|Hge].
  - rewrite lookup_app_l in Hid by done.
    assert (intervals w !! id = Some (Some iv) ∧ timerInterval g ≠ Some id)
      as [Hid' Hne].
    { unfold ivs in Hid. destruct (timerInterval g) as [i|]; [|done].
      destruct (decide (i = id)) as [->|Hne].
      - apply list_lookup_insert_Some in Hid. naive_solver.
      - rewrite list_lookup_insert_ne in Hid by done. split; [done|congruence]. }
    destruct (Hw id iv c0 r0 cb0 Hid' Hbody) as (g0 & Hg0 & Ht0).
    destruct (decide (r = r0)) as [<-|Hr].
    + by simplify_eq.
    + rewrite !list_lookup_alter_ne by done. eauto.
  - clearbody ivs. rewrite lookup_app_r in Hid by lia.
    destruct (id - length ivs)%nat eqn:Hd; simplify_eq/=.
    rewrite !list_lookup_alter_eq, Hg. cbn. eexists. split; [done|].
    cbn. f_equal. lia.
Qed.

Create HintDb recorded.
#[global] Hint Resolve recorded_startTimer : recorded.

Ltac rec_same x := apply (recorded_same x); [reflexivity|reflexivity|].

Ltac rec_peel :=
  lazymatch goal with
  | H : countdownsRecorded ?w |- countdownsRecorded ?w => exact H
  | |- countdownsRecorded (emit _ _ ?x) => rec_same x
  | |- countdownsRecorded (setTimeout _ _ ?x) => rec_same x
  | |- countdownsRecorded (set_timeouts _ ?x) => rec_same x
  | |- countdownsRecorded (set_lobbies _ ?x) => rec_same x
  | |- countdownsRecorded (set_gameStates _ ?x) => rec_same x
  | |- countdownsRecorded (set_sockets _ ?x) => rec_same x
  | |- countdownsRecorded (set_disconnectedPlayers _ ?x) => rec_same x
  | |- countdownsRecorded (set_now _ ?x) => rec_same x
  | |- countdownsRecorded (clearInterval _ ?x) => apply recorded_clearInterval
  | |- countdownsRecorded (modify_gs ?r ?f ?x) =>
      apply recorded_modify_gs; [intros ? ?; try done|]
  | |- countdownsRecorded (?F ?x) => solve [eauto 3 with recorded]
  end.

Ltac rec_go := cbv zeta; repeat rec_peel.

Lemma recorded_endGame (c : string) (w : World) :
  countdownsRecorded w → countdownsRecorded (endGame c w).
Proof. intros Hw. unfold endGame. repeat case_match; rec_go. Qed.
#[global] Hint Resolve recorded_endGame : recorded.

Lemma recorded_showScoreboard (c : string) (w : World) :
  countdownsRecorded w → countdownsRecorded (showScoreboard c w).
Proof. intros Hw. unfold showScoreboard. repeat case_match; rec_go. Qed.
#[global] Hint Resolve recorded_showScoreboard : recorded.

Lemma recorded_scoreboardNext (topics : list string) (c : string) (r : nat) (w : World) :
  countdownsRecorded w → countdownsRecorded (scoreboardNext topics c r w).
Proof.
  intros Hw. unfold scoreboardNext. repeat case_match; rec_go.
  apply recorded_endGame. rec_go.
Qed.
#[global] Hint Resolve recorded_scoreboardNext : recorded.

Lemma recorded_calculateConfessionResults (c : string) (w : World) :
  countdownsRecorded w → countdownsRecorded (calculateConfessionResults c w).
Proof. intros Hw. unfold calculateConfessionResults. repeat case_match; rec_go. Qed.
#[global] Hint Resolve recorded_calculateConfessionResults : recorded.

Lemma recorded_startGuessingPhase (c : string) (w : World) :
  countdownsRecorded w → countdownsRecorded (startGuessingPhase c w).
Proof.
  intros Hw. unfold startGuessingPhase. repeat case_match; rec_go.
  apply recorded_startTimer. rec_go.
Qed.
#[global] Hint Resolve recorded_startGuessingPhase : recorded.

Lemma recorded_startConfessionPhase (c : string) (w : World) :
  countdownsRecorded w → countdownsRecorded (startConfessionPhase c w).
Proof.
  intros Hw. unfold startConfessionPhase. repeat case_match; rec_go.
  apply recorded_startTimer. rec_go.
Qed.
#[global] Hint Resolve recorded_startConfessionPhase : recorded.

Lemma recorded_selectRandomPlayer (c : string) (rnd : nat) (w : World) :
  countdownsRecorded w → countdownsRecorded (selectRandomPlayer c rnd w).
Proof. intros Hw. unfold selectRandomPlayer. repeat case_match; rec_go. Qed.
#[global] Hint Resolve recorded_selectRandomPlayer : recorded.

Lemma recorded_calculateInitialResults (c : string) (w : World) :
  countdownsRecorded w → countdownsRecorded (calculateInitialResults c w).
Proof. intros Hw. unfold calculateInitialResults. repeat case_match; rec_go. Qed.
#[global] Hint Resolve recorded_calculateInitialResults : recorded.

Lemma recorded_startInitialVotingPhase (topics : list string) (c : string) (rnd : nat)
    (w : World) :
  countdownsRecorded w → countdownsRecorded (startInitialVotingPhase topics c rnd w).
Proof.
  intros Hw. unfold startInitialVotingPhase.
  destruct (lookup_gs c w) as [[r g]|] eqn:Hg; [|done].
  apply lookup_gs_heap in Hg. repeat case_match; rec_go.
  apply recorded_startTimer. rec_go. by simplify_eq.
Qed.
#[global] Hint Resolve recorded_startInitialVotingPhase : recorded.

Lemma recorded_runTimerCb (cb : TimerCb) (w : World) :
  countdownsRecorded w → countdownsRecorded (runTimerCb cb w).
Proof.
  intros Hw. destruct cb; simpl; eauto with recorded.
  apply recorded_startGuessingPhase. rec_go. by case_match.
Qed.
#[global] Hint Resolve recorded_runTimerCb : recorded.

Lemma recorded_countdownTick (c : string) (r : nat) (cb : TimerCb) (w : World) :
  countdownsRecorded w → countdownsRecorded (countdownTick c r cb w).
Proof.
  intros Hw. unfold countdownTick. destruct (heap w !! r) as [g|] eqn:Hg; [|done].
  cbv zeta. case_match; [|rec_go].
  apply recorded_runTimerCb, recorded_clear_and_reset; [|rec_go].
  intros g1. cbn. rewrite list_lookup_alter_eq, Hg. by intros [= <-].
Qed.

Lemma recorded_sweep (w : World) : countdownsRecorded w → countdownsRecorded (sweep w).
Proof.
  intros Hw. apply (recorded_same w); [| |done].
  - unfold sweep. generalize (disconnectedPlayers w). intros es. revert w Hw.
    induction es as [|e es IH]; intros w Hw; [done|]. simpl.
    rewrite IH; [apply sweepEntry_frame|].
    apply (recorded_same w); [apply sweepEntry_frame..|done].
  - apply sweep_heap.
Qed.

Lemma recorded_alloc (g : GameState) (w : World) :
  countdownsRecorded w → countdownsRecorded (set_heap (heap w ++ [g]) w).
Proof.
  intros Hw id iv c r cb Hid Hbody. cbn in *.
  destruct (Hw id iv c r cb Hid Hbody) as (g0 & Hg0 & Ht0).
  exists g0. split; [|done]. by apply lookup_app_l_Some.
Qed.

Lemma recorded_reschedule (id : nat) (iv : Interval) (due : Z) (w : World) :
  intervals w !! id = Some (Some iv) →
  countdownsRecorded w →
  countdownsRecorded
    (set_intervals (<[id := Some (mkInterval due (iv_period iv) (iv_body iv))]> (intervals w)) w).
Proof.
  intros Hiv Hw id' iv' c r cb Hid Hbody. cbn in *.
  destruct (decide (id = id')) as [->|Hne].
  - apply list_lookup_insert_Some in Hid as [(_ & Heq & _)|[? _]]; [|done].
    simplify_eq. cbn in Hbody. eauto.
  - rewrite list_lookup_insert_ne in Hid by done. eauto.
Qed.

Lemma recorded_markDisconnected (c u : string) (l : Lobby) (w : World) :
  countdownsRecorded w → countdownsRecorded (markDisconnected c u l w).
Proof. intros Hw. unfold markDisconnected. rec_go. Qed.

Lemma recorded_removeAndMaybeClose (b : bool) (c u : string) (l : Lobby) (w : World) :
  countdownsRecorded w → countdownsRecorded (removeAndMaybeClose b c u l w).
Proof. intros Hw. unfold removeAndMaybeClose. repeat case_match; rec_go. Qed.

Lemma recorded_sync (sid : nat) (c : string) (w : World) :
  countdownsRecorded w → countdownsRecorded (syncGameStateToPlayer sid c w).
Proof. intros Hw. unfold syncGameStateToPlayer. repeat case_match; rec_go. Qed.

Lemma recorded_handlers (topics : list string) (e : Event) (w w' : World) :
  (∀ id rnd, e ≠ FireTimeout id rnd) → (∀ id, e ≠ FireInterval id) →
  countdownsRecorded w → step topics e w = Some w' → countdownsRecorded w'.
Proof.
  intros Hnt Hni Hw Hstep.
  destruct e; simpl in Hstep; unfold onSocket in Hstep;
    try (destruct (sockets w !! sid); [|done]); simplify_eq;
    try (by exfalso; eapply Hnt); try (by exfalso; eapply Hni).
  - unfold httpCreate. case_match; rec_go.
  - unfold httpJoin. repeat case_match; rec_go.
  - case_match; simplify_eq. rec_go.
  - unfold joinLobby. repeat case_match; rec_go.
  - unfold leaveLobby. repeat case_match;
      auto using recorded_markDisconnected, recorded_removeAndMaybeClose; rec_go.
  - unfold startGame. repeat case_match; try done. cbv zeta. rec_go.
    apply (recorded_alloc _ (set_lobbies _ w)). rec_go.
  - unfold castInitialVote.
    destruct (lookup_gs c w) as [[r g]|] eqn:Hg; [|done].
    pose proof (lookup_gs_heap _ _ _ _ Hg) as Hh.
    repeat case_match; try done; rec_go.
    apply recorded_stopTimer; [|rec_go].
    intros g1. cbn. rewrite list_lookup_alter_eq, Hh. by intros [= <-].
  - unfold makeConfession.
    destruct (lookup_gs c w) as [[r g]|] eqn:Hg; [|done].
    pose proof (lookup_gs_heap _ _ _ _ Hg) as Hh.
    repeat case_match; try done; rec_go.
    apply recorded_stopTimer; [|rec_go].
    intros g1. cbn. rewrite list_lookup_alter_eq, Hh. by intros [= <-].
  - unfold makeGuess.
    destruct (lookup_gs c w) as [[r g]|] eqn:Hg; [|done].
    pose proof (lookup_gs_heap _ _ _ _ Hg) as Hh.
    repeat case_match; try done; rec_go.
    apply recorded_stopTimer; [|rec_go].
    intros g1. cbn. rewrite list_lookup_alter_eq, Hh. by intros [= <-].
  - by apply recorded_sync.
  - unfold restartGame.
    destruct (lobbies w !! c) as [l|]; [|done].
    destruct (lookup_gs c w) as [[r g]|] eqn:Hg; [|done].
    pose proof (lookup_gs_heap _ _ _ _ Hg) as Hh.
    repeat case_match; try done; rec_go. by simplify_eq.
  - unfold disconnect. repeat case_match; rec_go;
      try (apply recorded_markDisconnected; rec_go);
      try (apply recorded_removeAndMaybeClose; rec_go).
  - case_bool_decide; simplify_eq. rec_go.
Qed.

Lemma recorded_step (topics : list string) (e : Event) (w w' : World) :
  countdownsRecorded w → step topics e w = Some w' → countdownsRecorded w'.
Proof.
  intros Hw Hstep.
  destruct e; try (by eapply recorded_handlers; [| |exact Hw|exact Hstep]).
  - simpl in Hstep. repeat case_match; simplify_eq.
    match goal with |- countdownsRecorded (runTimeoutCb _ ?cb _ ?x) =>
      assert (countdownsRecorded x) as Hx by rec_go; destruct cb end;
      simpl; eauto with recorded.
    by apply recorded_sync.
  - simpl in Hstep. destruct (intervals w !! id) as [[iv|]|] eqn:Hiv; try done.
    case_bool_decide; simplify_eq.
    pose proof (recorded_reschedule id iv (iv_due iv + iv_period iv) w Hiv Hw) as Hx.
    destruct (iv_body iv); simpl.
    + by apply recorded_countdownTick.
    + by apply recorded_sweep.
Qed.

Lemma recorded_initialWorld : countdownsRecorded initialWorld.
Proof.
  intros id iv c r cb Hid Hbody. cbn in Hid.
  destruct id as [|id]; by simplify_eq/=.
Qed.

(** X13.  In every state the server can reach, each game-state object has at
    most one running countdown, and it is the one the object records in
    [timerInterval]. *)
Theorem one_countdown_per_game_state (topics : list string) (es : list Event) (w : World) :
  run topics es initialWorld = Some w →
  atMostOneCountdown w ∧ countdownsRecorded w.
Proof.
  intros Hrun.
  assert (countdownsRecorded w) as Hw.
  { pose proof recorded_initialWorld as H0. revert Hrun H0.
    generalize initialWorld. induction es as [|e es IH]; intros w0 Hrun H0.
    - by simplify_eq/=.
    - simpl in Hrun. destruct (step topics e w0) as [w1|] eqn:Hstep; [|done].
      eapply IH; [exact Hrun|]. by eapply recorded_step. }
  split; [|done].
  intros id1 id2 iv1 iv2 c1 c2 r cb1 cb2 H1 Hb1 H2 Hb2.
  destruct (Hw _ _ _ _ _ H1 Hb1) as (g1 & Hg1 & Ht1).
  destruct (Hw _ _ _ _ _ H2 Hb2) as (g2 & Hg2 & Ht2).
  congruence.
Qed.

Lemma one_countdown_per_game_state_witness :
  (∃ iv, intervals countingDown !! 1%nat = Some (Some iv)
         ∧ iv_body iv = Countdown "ABCD" 0 (TcCalcInitial "ABCD"))
  ∧ atMostOneCountdown countingDown ∧ countdownsRecorded countingDown.
Proof.
  split.
  - eexists. split; vm_compute; reflexivity.
  - apply (one_countdown_per_game_state sampleTopics firstPrompt).
    vm_compute. reflexivity.
Defined.

(** ** The phase names *)

Lemma phases_same (w w' : World) : heap w' = heap w → phasesKnown w → phasesKnown w'.
Proof. intros Hh Hw. unfold phasesKnown. by rewrite Hh. Qed.

Lemma phases_modify_gs (r : nat) (f : GameState → GameState) (w : World) :
  (∀ g, heap w !! r = Some g → knownPhase (phase g) → knownPhase (phase (f g))) →
  phasesKnown w → phasesKnown (modify_gs r f w).
Proof.
  intros Hf Hw r' g' Hg'. cbn in Hg'. destruct (decide (r = r')) as [<-|Hne].
  - rewrite list_lookup_alter_eq in Hg'.
    destruct (heap w !! r) as [g|] eqn:Hg; simplify_eq/=.
    apply Hf; [done|]. by eapply Hw.
  - rewrite list_lookup_alter_ne in Hg' by done. by eapply Hw.
Qed.

Lemma phases_alloc (g : GameState) (w : World) :
  knownPhase (phase g) → phasesKnown w → phasesKnown (set_heap (heap w ++ [g]) w).
Proof.
  intros Hg Hw r g' Hg'. cbn in Hg'.
  apply lookup_app_Some in Hg' as [Hg'|[_ Hg']]; [by eapply Hw|].
  destruct (r - length (heap w))%nat; by simplify_eq/=.
Qed.

Create HintDb phases.

Ltac ph_same x := apply (phases_same x); [reflexivity|].

Ltac ph_gs :=
  first [ assumption
        | by (cbn; unfold knownPhase; auto 10)
        | idtac ].

Ltac ph_peel :=
  lazymatch goal with
  | H : phasesKnown ?w |- phasesKnown ?w => exact H
  | |- phasesKnown (emit _ _ ?x) => ph_same x
  | |- phasesKnown (setTimeout _ _ ?x) => ph_same x
  | |- phasesKnown (clearInterval _ ?x) => ph_same x
  | |- phasesKnown (set_intervals _ ?x) => ph_same x
  | |- phasesKnown (set_timeouts _ ?x) => ph_same x
  | |- phasesKnown (set_lobbies _ ?x) => ph_same x
  | |- phasesKnown (set_gameStates _ ?x) => ph_same x
  | |- phasesKnown (set_sockets _ ?x) => ph_same x
  | |- phasesKnown (set_disconnectedPlayers _ ?x) => ph_same x
  | |- phasesKnown (set_now _ ?x) => ph_same x
  | |- phasesKnown (modify_gs ?r ?f ?x) =>
      apply phases_modify_gs; [intros ? ? ?; ph_gs|]
  | |- phasesKnown (?F ?x) => solve [eauto 3 with phases]
  end.

Ltac ph_go := cbv zeta; repeat ph_peel.

Lemma phases_stopTimer (r : nat) (g : GameState) (w : World) :
  phasesKnown w → phasesKnown (stopTimer r g w).
Proof. intros Hw. unfold stopTimer. case_match; ph_go. Qed.
#[global] Hint Resolve phases_stopTimer : phases.

Lemma phases_endGame (c : string) (w : World) :
  phasesKnown w → phasesKnown (endGame c w).
Proof. intros Hw. unfold endGame. repeat case_match; ph_go. Qed.
#[global] Hint Resolve phases_endGame : phases.

Lemma phases_startTimer (c : string) (s : Z) (cb : TimerCb) (w : World) :
  phasesKnown w → phasesKnown (startTimer c s cb w).
Proof.
  intros Hw. unfold startTimer, setInterval. repeat case_match; simplify_eq; ph_go.
Qed.
#[global] Hint Resolve phases_startTimer : phases.

Lemma phases_showScoreboard (c : string) (w : World) :
  phasesKnown w → phasesKnown (showScoreboard c w).
Proof. intros Hw. unfold showScoreboard. repeat case_match; ph_go. Qed.
#[global] Hint Resolve phases_showScoreboard : phases.

Lemma phases_scoreboardNext (topics : list string) (c : string) (r : nat) (w : World) :
  phasesKnown w → phasesKnown (scoreboardNext topics c r w).
Proof.
  intros Hw. unfold scoreboardNext. repeat case_match; ph_go.
  apply phases_endGame. ph_go.
Qed.
#[global] Hint Resolve phases_scoreboardNext : phases.

Lemma phases_calculateConfessionResults (c : string) (w : World) :
  phasesKnown w → phasesKnown (calculateConfessionResults c w).
Proof. intros Hw. unfold calculateConfessionResults. repeat case_match; ph_go. Qed.
#[global] Hint Resolve phases_calculateConfessionResults : phases.

Lemma phases_startGuessingPhase (c : string) (w : World) :
  phasesKnown w → phasesKnown (startGuessingPhase c w).
Proof.
  intros Hw. unfold startGuessingPhase. repeat case_match; ph_go.
  apply phases_startTimer. ph_go.
Qed.
#[global] Hint Resolve phases_startGuessingPhase : phases.

Lemma phases_startConfessionPhase (c : string) (w : World) :
  phasesKnown w → phasesKnown (startConfessionPhase c w).
Proof.
  intros Hw. unfold startConfessionPhase. repeat case_match; ph_go.
  apply phases_startTimer. ph_go.
Qed.
#[global] Hint Resolve phases_startConfessionPhase : phases.

Lemma phases_selectRandomPlayer (c : string) (rnd : nat) (w : World) :
  phasesKnown w → phasesKnown (selectRandomPlayer c rnd w).
Proof. intros Hw. unfold selectRandomPlayer. repeat case_match; ph_go. Qed.
#[global] Hint Resolve phases_selectRandomPlayer : phases.

Lemma phases_calculateInitialResults (c : string) (w : World) :
  phasesKnown w → phasesKnown (calculateInitialResults c w).
Proof. intros Hw. unfold calculateInitialResults. repeat case_match; ph_go. Qed.
#[global] Hint Resolve phases_calculateInitialResults : phases.

Lemma phases_startInitialVotingPhase (topics : list string) (c : string) (rnd : nat)
    (w : World) :
  phasesKnown w → phasesKnown (startInitialVotingPhase topics c rnd w).
Proof.
  intros Hw. unfold startInitialVotingPhase. repeat case_match; ph_go.
  apply phases_startTimer. ph_go.
Qed.
#[global] Hint Resolve phases_startInitialVotingPhase : phases.

Lemma phases_runTimerCb (cb : TimerCb) (w : World) :
  phasesKnown w → phasesKnown (runTimerCb cb w).
Proof.
  intros Hw. destruct cb; simpl; eauto with phases.
  apply phases_startGuessingPhase. ph_go. by case_match.
Qed.
#[global] Hint Resolve phases_runTimerCb : phases.

Lemma phases_countdownTick (c : string) (r : nat) (cb : TimerCb) (w : World) :
  phasesKnown w → phasesKnown (countdownTick c r cb w).
Proof.
  intros Hw. unfold countdownTick. repeat case_match; ph_go.
  apply phases_runTimerCb. ph_go.
Qed.

Lemma phases_step (topics : list string) (e : Event) (w w' : World) :
  phasesKnown w → step topics e w = Some w' → phasesKnown w'.
Proof.
  intros Hw Hstep.
  destruct e; simpl in Hstep; unfold onSocket in Hstep;
    try (destruct (sockets w !! sid); [|done]); simplify_eq.
  - unfold httpCreate. case_match; ph_go.
  - unfold httpJoin. repeat case_match; ph_go.
  - case_match; simplify_eq. ph_go.
  - unfold joinLobby. repeat case_match; ph_go.
  - apply (phases_same w); [apply leaveLobby_heap|done].
  - unfold startGame. repeat case_match; try done. cbv zeta. ph_go.
    apply (phases_alloc _ (set_lobbies _ w)); [|ph_go].
    cbn. unfold knownPhase. auto.
  - unfold castInitialVote. repeat case_match; try done; ph_go.
    apply phases_stopTimer. ph_go.
  - unfold makeConfession. repeat case_match; try done; ph_go.
    apply phases_stopTimer. ph_go.
  - unfold makeGuess. repeat case_match; try done; ph_go.
    apply phases_stopTimer. ph_go.
  - unfold syncGameStateToPlayer. repeat case_match; ph_go.
  - unfold restartGame. repeat case_match; try done; ph_go.
  - apply (phases_same w); [apply disconnect_heap|done].
  - case_bool_decide; simplify_eq. ph_go.
  - repeat case_match; simplify_eq.
    match goal with |- phasesKnown (runTimeoutCb _ ?cb _ ?x) =>
      assert (phasesKnown x) as Hx by ph_go; destruct cb end;
      simpl; eauto with phases.
    unfold syncGameStateToPlayer. repeat case_match; ph_go.
  - repeat case_match; simplify_eq.
    match goal with |- phasesKnown (runIntervalBody ?b ?x) =>
      assert (phasesKnown x) as Hx by ph_go; destruct b end; simpl.
    + by apply phases_countdownTick.
    + apply (phases_same _ _ (sweep_heap _)). done.
Qed.

(** X14.  In every state the server can reach, the phase of every game state is
    one of the eight names the code assigns; no game state is ever in a
    phase named ["ended"]. *)
Theorem phase_is_one_of_eight (topics : list string) (es : list Event) (w : World)
    (r : nat) (g : GameState) :
  run topics es initialWorld = Some w →
  heap w !! r = Some g →
  knownPhase (phase g) ∧ phase g ≠ "ended".
Proof.
  intros Hrun Hg.
  assert (phasesKnown w) as Hw.
  { assert (phasesKnown initialWorld) as H0 by (intros r0 g0 H; by destruct r0).
    revert Hrun H0. generalize initialWorld.
    induction es as [|e es IH]; intros w0 Hrun H0.
    - by simplify_eq/=.
    - simpl in Hrun. destruct (step topics e w0) as [w1|] eqn:Hstep; [|done].
      eapply IH; [exact Hrun|]. by eapply phases_step. }
  pose proof (Hw r g Hg) as Hk. split; [done|].
  unfold knownPhase in Hk. intros Hend. rewrite Hend in Hk.
  repeat (destruct Hk as [Hk|Hk]; [discriminate|]). discriminate.
Qed.

Lemma phase_is_one_of_eight_witness :
  knownPhase (phase (gameStateOf "ABCD" countingDown))
  ∧ phase (gameStateOf "ABCD" countingDown) ≠ "ended".
Proof.
  apply (phase_is_one_of_eight sampleTopics firstPrompt countingDown 0).
  - vm_compute. reflexivity.
  - vm_compute. reflexivity.
Defined.

(** ** Restarting a game *)

(** X15.  [restart-game] is honoured only for the socket whose recorded user
    name is the host's; then the round data of the game state is reset in
    place, every participant of the roster gets score 0, the scores of users
    who are no longer in the roster are kept, the recorded countdown is
    cleared and the first prompt is scheduled two seconds later. *)
Theorem restartGame_resets_in_place (sid : nat) (c : string) (w : World) (l : Lobby)
    (r : nat) (g : GameState) (s : Socket) :
  lobbies w !! c = Some l →
  lookup_gs c w = Some (r, g) →
  sockets w !! sid = Some s →
  let w' := restartGame sid c w in
  (sock_username s ≠ Some (host l) → w' = w)
  ∧ (sock_username s = Some (host l) →
       (∃ g', lookup_gs c w' = Some (r, g')
              ∧ phase g' = "initial-voting" ∧ roundNumber g' = 1
              ∧ totalRounds g' = totalRounds g
              ∧ usedTopics g' = [] ∧ currentTopic g' = None
              ∧ initialVotes g' = ∅ ∧ guesses g' = ∅
              ∧ selectedPlayer g' = None ∧ confession g' = None ∧ timer g' = 30
              ∧ ∀ x, scores g' !! x =
                       if bool_decide (x ∈ username <$> participants l)
                       then Some (Num 0) else scores g !! x)
       ∧ (∀ r', r' ≠ r → heap w' !! r' = heap w !! r')
       ∧ (∀ h, timerInterval g = Some h → (h < length (intervals w))%nat →
               intervals w' !! h = Some None)
       ∧ lobbies w' = lobbies w ∧ gameStates w' = gameStates w
       ∧ timeouts w' = timeouts w ++ [Some (now w + 2000, CbStartInitialVoting c)]).
Proof.
  intros Hl Hg Hs w'. subst w'. unfold restartGame. rewrite Hl, Hg, Hs. split.
  - intros Hne. by rewrite (bool_decide_eq_false_2 _ Hne).
  - intros Hhost. rewrite (bool_decide_eq_true_2 _ Hhost). cbv zeta.
    split; [|split; [|split; [|done]]].
    + eexists. split.
      * apply lookup_gs_Some. apply lookup_gs_Some in Hg as [Hr Hh].
        split; [exact Hr|]. cbn. by rewrite list_lookup_alter_eq, Hh.
      * cbn. repeat split. intros x. case_bool_decide.
        -- by apply seedScores_lookup_in.
        -- by apply seedScores_lookup_notin.
    + intros r' Hne. cbn. by rewrite list_lookup_alter_ne.
    + intros h Hh Hlt. cbn. rewrite Hh. by apply list_lookup_insert_eq.
Qed.

Lemma restartGame_resets_in_place_witness :
  (∃ g', lookup_gs "ABCD" (restartGame 1 "ABCD" guessedAB) = Some (0%nat, g')
         ∧ roundNumber g' = 1 ∧ usedTopics g' = [] ∧ scores g' !! "ann" = Some (Num 0))
  ∧ restartGame 2 "ABCD" guessedAB = guessedAB.
Proof.
  destruct (restartGame_resets_in_place 1 "ABCD" guessedAB (lobbyOf "ABCD" guessedAB) 0
              (gameStateOf "ABCD" guessedAB) (mkSocket (Some "ann") (Some "ABCD")))
    as [_ Hhost]; [vm_compute; reflexivity..|].
  destruct (restartGame_resets_in_place 2 "ABCD" guessedAB (lobbyOf "ABCD" guessedAB) 0
              (gameStateOf "ABCD" guessedAB) (mkSocket (Some "bob") (Some "ABCD")))
    as [Hother _]; [vm_compute; reflexivity..|].
  split.
  - destruct Hhost as ((g' & Hg' & _ & Hr & _ & Hu & _ & _ & _ & _ & _ & _ & Hsc) & _);
      [vm_compute; reflexivity|].
    exists g'. split; [exact Hg'|]. split; [exact Hr|]. split; [exact Hu|].
    rewrite Hsc. vm_compute. reflexivity.
  - apply Hother. vm_compute. discriminate.
Defined.

(** ** Leaving a running game *)

Lemma elem_of_mapSet_eq (k : string) (v : Tracked) (m : list (string * Tracked)) :
  (k, v) ∈ mapSet k v m.
Proof.
  induction m as [|e m IH]; simpl; [by apply list_elem_of_singleton|].
  case_bool_decide; [by left|by right].
Qed.

Lemma elem_of_mapSet_ne (k : string) (v : Tracked) (m : list (string * Tracked))
    (e : string * Tracked) :
  e.1 ≠ k → e ∈ mapSet k v m ↔ e ∈ m.
Proof.
  intros Hne. induction m as [|e' m IH]; simpl.
  - rewrite list_elem_of_singleton. split; [intros ->; by destruct Hne|by intros ?%elem_of_nil].
  - case_bool_decide as Hk.
    + rewrite !elem_of_cons. split; intros [->|?]; auto; by destruct Hne.
    + rewrite !elem_of_cons, IH. done.
Qed.

Lemma mapSet_keys (k : string) (v : Tracked) (m : list (string * Tracked)) :
  NoDup m.*1 → NoDup (mapSet k v m).*1 ∧ ∀ v', (k, v') ∈ mapSet k v m → v' = v.
Proof.
  induction m as [|e m IH]; simpl; intros Hnd.
  - split; [apply NoDup_singleton|]. by intros v' [= ->]%list_elem_of_singleton.
  - apply NoDup_cons in Hnd as [Hn Hnd]. case_bool_decide as Hk.
    + csimpl. split; [apply NoDup_cons; by rewrite <- Hk|].
      intros v' [[= ->]|Hin]%elem_of_cons; [done|].
      destruct Hn. rewrite Hk. apply list_elem_of_fmap. by exists (k, v').
    + destruct (IH Hnd) as [IH1 IH2]. csimpl. split.
      * apply NoDup_cons. split; [|done]. intros Hin.
        apply list_elem_of_fmap in Hin as (e' & He' & Hin).
        apply elem_of_mapSet_ne in Hin; [|congruence].
        destruct Hn. apply list_elem_of_fmap. by exists e'.
      * intros v' [Heq|Hin]%elem_of_cons; [by destruct Hk; rewrite <- Heq|by apply IH2].
Qed.

(** X16.  A socket that disconnects while the game of its lobby is active keeps
    its seat: the participant is only flagged as not connected and entered in
    the tracker with the time of the disconnect, under the user name alone;
    the lobby, the game state and every timer stay.  The [leave-lobby]
    handler does the same. *)
Theorem disconnect_in_game_keeps_seat (sid : nat) (w : World) (c u : string) (l : Lobby) :
  sockets w !! sid = Some (mkSocket (Some u) (Some c)) →
  c ≠ "" → u ≠ "" →
  lobbies w !! c = Some l →
  u ∈ username <$> participants l →
  NoDup (username <$> participants l) →
  NoDup (disconnectedPlayers w).*1 →
  gameActive c w = true →
  let w' := disconnect sid w in
  let l' := with_participants (markConnected u false <$> participants l) l in
  sockets w' = delete sid (sockets w)
  ∧ lobbies w' = <[c := l']> (lobbies w)
  ∧ (heap w' = heap w ∧ gameStates w' = gameStates w
     ∧ timeouts w' = timeouts w ∧ intervals w' = intervals w)
  ∧ (∀ v, (u, v) ∈ disconnectedPlayers w' ↔ v = mkTracked c (now w))
  ∧ (∀ e, e.1 ≠ u → e ∈ disconnectedPlayers w' ↔ e ∈ disconnectedPlayers w)
  ∧ NoDup (disconnectedPlayers w').*1
  ∧ emitted w' = (ToRoom c, LobbyUpdated l') :: emitted w
  ∧ w' = leaveLobby c u (set_sockets (delete sid (sockets w)) w).
Proof.
  intros Hs Hc Hu Hl Hin Hnd Hndt Hact w' l'. subst w' l'.
  assert (findParticipant u (participants l) ≠ None) as Hfind.
  { intros Hn. by apply findParticipant_None in Hn. }
  assert (disconnect sid w
          = markDisconnected c u l (set_sockets (delete sid (sockets w)) w)) as ->.
  { unfold disconnect. rewrite Hs. cbn [sock_lobbyCode sock_username].
    rewrite (bool_decide_eq_false_2 _ Hc), (bool_decide_eq_false_2 _ Hu).
    cbn [orb]. change (lobbies (set_sockets _ w)) with (lobbies w). rewrite Hl.
    destruct (findParticipant u (participants l)); [|done].
    change (gameActive c (set_sockets ?s w)) with (gameActive c w).
    by rewrite Hact. }
  assert (leaveLobby c u (set_sockets (delete sid (sockets w)) w)
          = markDisconnected c u l (set_sockets (delete sid (sockets w)) w)) as ->.
  { unfold leaveLobby. change (lobbies (set_sockets _ w)) with (lobbies w). rewrite Hl.
    change (gameActive c (set_sockets ?s w)) with (gameActive c w). rewrite Hact.
    by destruct (findParticipant u (participants l)). }
  unfold markDisconnected. cbn. rewrite (setConnected_NoDup _ _ _ Hnd).
  destruct (mapSet_keys u (mkTracked c (now w)) _ Hndt) as [Hk1 Hk2].
  split_and!; try done.
  - intros v. split; [apply Hk2|intros ->; apply elem_of_mapSet_eq].
  - intros e He. by apply elem_of_mapSet_ne.
Qed.

Lemma disconnect_in_game_keeps_seat_witness :
  (username <$> participants (lobbyOf "ABCD" (disconnect 2 votedABC)))
  = ["ann"; "bob"; "cat"]
  ∧ ("bob", mkTracked "ABCD" (now votedABC)) ∈ disconnectedPlayers (disconnect 2 votedABC)
  ∧ heap (disconnect 2 votedABC) = heap votedABC.
Proof.
  destruct (disconnect_in_game_keeps_seat 2 votedABC "ABCD" "bob" (lobbyOf "ABCD" votedABC))
    as (_ & Hlob & (Hheap & _) & Htr & _);
    [vm_compute; reflexivity|discriminate|discriminate|vm_compute; reflexivity| | |
     |vm_compute; reflexivity|].
  { apply list_elem_of_In. vm_compute. auto. }
  { apply (bool_decide_unpack _). vm_compute. exact I. }
  { vm_compute. apply NoDup_nil_2. }
  split; [|split; [|exact Hheap]].
  - unfold lobbyOf. rewrite Hlob, lookup_insert_eq. vm_compute. reflexivity.
  - by apply Htr.
Defined.

(** ** Joining a lobby over the socket *)

(** X17.  [join-lobby] records user name and lobby code on the socket, flags the
    participant as connected (a user who is not in the roster is not added)
    and announces the lobby; the tracker of disconnected players is not
    touched.  While a game is active it schedules a sync, and one second
    later the socket, and only it, is sent the game state. *)
Theorem joinLobby_then_sync (topics : list string) (sid : nat) (c u : string) (w : World)
    (l : Lobby) (rnd : nat) :
  lobbies w !! c = Some l →
  let w1 := joinLobby sid c u w in
  let l' := with_participants (setConnected u true (participants l)) l in
  (sockets w1 = <[sid := mkSocket (Some u) (Some c)]> (sockets w)
   ∧ lobbies w1 = <[c := l']> (lobbies w)
   ∧ username <$> participants l' = username <$> participants l
   ∧ heap w1 = heap w ∧ gameStates w1 = gameStates w
   ∧ disconnectedPlayers w1 = disconnectedPlayers w
   ∧ intervals w1 = intervals w
   ∧ emitted w1 = (ToRoom c, LobbyUpdated l') :: emitted w)
  ∧ (gameActive c w = false → timeouts w1 = timeouts w)
  ∧ (∀ r g, lookup_gs c w = Some (r, g) → phase g ≠ "waiting" →
       timeouts w1 = timeouts w ++ [Some (now w + 1000, CbSync sid c)]
       ∧ ∃ v w2,
           run topics [Elapse 1000; FireTimeout (length (timeouts w)) rnd] w1 = Some w2
           ∧ emitted w2 = (ToSocket sid, SyncGameState g l' v) :: emitted w1
           ∧ heap w2 = heap w ∧ lobbies w2 = lobbies w1 ∧ intervals w2 = intervals w).
Proof.
  intros Hl w1 l'. subst w1 l'. unfold joinLobby.
  change (lobbies (set_sockets _ w)) with (lobbies w). rewrite Hl. cbv zeta.
  change (gameActive c (set_lobbies ?a (set_sockets ?b w))) with (gameActive c w).
  split; [|split].
  - destruct (gameActive c w); cbn; by rewrite setConnected_usernames.
  - intros ->. done.
  - intros r g Hg Hph.
    assert (gameActive c w = true) as ->.
    { unfold gameActive. rewrite Hg. by rewrite (bool_decide_eq_false_2 _ Hph). }
    split; [done|].
    match goal with |- context [run topics _ ?x] => set (w1 := x) end.
    assert (lookup_gs c w1 = Some (r, g)) as Hg1 by exact Hg.
    assert (timeouts w1 !! length (timeouts w) = Some (Some (now w + 1000, CbSync sid c)))
      as Ht.
    { cbn. rewrite lookup_app_r by done. by rewrite Nat.sub_diag. }
    assert (∃ v, run topics [Elapse 1000; FireTimeout (length (timeouts w)) rnd] w1
                 = Some (emit (ToSocket sid)
                           (SyncGameState g
                              (with_participants (setConnected u true (participants l)) l) v)
                           (set_timeouts (<[length (timeouts w) := None]> (timeouts w1))
                              (set_now (now w1 + 1000) w1)))) as [v Hrun].
    { cbn [run step]. rewrite bool_decide_eq_true_2 by lia.
      change (timeouts (set_now ?n w1)) with (timeouts w1). rewrite Ht.
      rewrite bool_decide_eq_true_2 by (cbn; lia).
      cbn [runTimeoutCb]. unfold syncGameStateToPlayer.
      change (lookup_gs c (set_timeouts ?a (set_now ?b w1))) with (lookup_gs c w1).
      rewrite Hg1.
      change (lobbies (set_timeouts ?a (set_now ?b w1))) with (<[c:=with_participants (setConnected u true (participants l)) l]> (lobbies w)).
      change (sockets (set_timeouts ?a (set_now ?b w1))) with (<[sid:=mkSocket (Some u) (Some c)]> (sockets w)).
      rewrite !lookup_insert_eq. cbv zeta. eexists. reflexivity. }
    exists v. eexists. split; [exact Hrun|]. done.
Qed.

Lemma joinLobby_then_sync_witness :
  ∃ v w2,
    run sampleTopics [Elapse 1000; FireTimeout (length (timeouts votedABC)) 0]
      (joinLobby 4 "ABCD" "bob" votedABC) = Some w2
    ∧ head (emitted w2)
      = Some (ToSocket 4,
              SyncGameState (gameStateOf "ABCD" votedABC)
                (lobbyOf "ABCD" (joinLobby 4 "ABCD" "bob" votedABC)) v).
Proof.
  destruct (joinLobby_then_sync sampleTopics 4 "ABCD" "bob" votedABC
              (lobbyOf "ABCD" votedABC) 0) as (_ & _ & Hsync);
    [vm_compute; reflexivity|].
  destruct (Hsync 0%nat (gameStateOf "ABCD" votedABC)) as (_ & v & w2 & Hrun & Hem & _);
    [vm_compute; reflexivity|vm_compute; discriminate|].
  exists v, w2. split; [exact Hrun|]. rewrite Hem. reflexivity.
Defined.
